(** * Federation schema composition (lib/federation.js)

    A shallow embedding of [lib/federation.js].  The source file holds two
    copies of the module, one after the other; they share most helpers and
    differ in the partitioner's stub filter, in how the [Query] root is
    synthesized and in how the [_service] SDL is produced:

    - [First]  : lines 1-493   (SDL reflected through [stripCommonPrimitives]);
    - [Second] : lines 494-875 (stub based merge, SDL through [getServiceSDL]).

    Build time code is pure apart from exceptions and is written in the
    [Result] monad.  The [_entities] resolver runs user callbacks and mutates
    the objects they return, so it is written over an explicit heap of
    JavaScript objects. *)

From Stdlib Require Import ZArith String Ascii List Bool Lia DecimalString.
From stdpp Require Import base list.
Import ListNotations.
Open Scope string_scope.
Open Scope list_scope.

Set Default Proof Using "Type".

(* ================================================================== *)
(** ** JavaScript values and objects                                   *)
(* ================================================================== *)

(** Values as the resolver sees them: primitives and references to heap
    objects.  Numbers are integers here, meant below [10^21] in magnitude,
    where JavaScript prints a number by its digits; only their truthiness,
    their being primitive and this printing matter to the code. *)
Inductive JsValue : Type :=
| VUndefined
| VNull
| VBool (b : bool)
| VNumber (n : Z)
| VString (s : string)
| VRef (l : nat).

(** A data property with its three attributes. *)
Record Property : Type := mkProperty {
  p_value : JsValue;
  p_writable : bool;
  p_enumerable : bool;
  p_configurable : bool
}.

(** What a function object runs when called: user code, known only by an
    identifier, or the closure [x => addTypeNameToResult(x, __typename)]
    that the resolver hands to [then]. *)
Inductive FunCode : Type :=
| UserFunction (id : nat)
| TypeNameCallback (typename : JsValue).

(** A promise either settles with a value by itself or was made by
    [parent.then(onFulfilled)]. *)
Inductive PromiseState : Type :=
| Fulfils (v : JsValue)
| Rejects (v : JsValue)
| ThenOf (parent : nat) (onFulfilled : nat).

(** Heap objects: own data properties in insertion order, extensibility,
    the code of a function object ([typeof] is ['function'] exactly when
    present) and the state of a promise (which inherits [then] from
    [Promise.prototype]).  Accessor properties, proxies and arrays are not
    part of the model. *)
Record JsObject : Type := mkObject {
  o_props : list (string * Property);
  o_extensible : bool;
  o_call : option FunCode;
  o_promise : option PromiseState
}.

Definition Heap : Type := list JsObject.

Definition plainProperty (v : JsValue) : Property :=
  mkProperty v true true true.

Definition plainObject (ps : list (string * JsValue)) : JsObject :=
  mkObject (map (fun kv => (fst kv, plainProperty (snd kv))) ps) true None None.

Definition JsValue_eqb (a b : JsValue) : bool :=
  match a, b with
  | VUndefined, VUndefined => true
  | VNull, VNull => true
  | VBool x, VBool y => Bool.eqb x y
  | VNumber x, VNumber y => Z.eqb x y
  | VString x, VString y => String.eqb x y
  | VRef x, VRef y => Nat.eqb x y
  | _, _ => false
  end.

(** [ToBoolean]. *)
Definition truthy (v : JsValue) : bool :=
  match v with
  | VUndefined | VNull => false
  | VBool b => b
  | VNumber n => negb (Z.eqb n 0)
  | VString s => negb (String.eqb s EmptyString)
  | VRef _ => true
  end.

Definition isPrimitive (v : JsValue) : bool :=
  match v with
  | VRef _ => false
  | _ => true
  end.

(** [ToString] of a primitive; a reference prints as a plain object does. *)
Definition toStringJs (v : JsValue) : string :=
  match v with
  | VUndefined => "undefined"
  | VNull => "null"
  | VBool true => "true"
  | VBool false => "false"
  | VNumber n => NilEmpty.string_of_int (Z.to_int n)
  | VString s => s
  | VRef _ => "[object Object]"
  end.

(* ================================================================== *)
(** ** Exceptions                                                      *)
(* ================================================================== *)

(** A structured error reported by the engine's validator. *)
Record GraphQLError : Type := mkGraphQLError {
  ge_message : string;
  ge_locations : list (nat * nat)
}.

(** Everything the module or the code it calls can throw. *)
Inductive Thrown : Type :=
| TypeError (what : string)
| ThrownError (e : GraphQLError)
| ErrorWithErrors (message : string) (errors : list GraphQLError)
| PlainError (message : string)
| MER_ERR_GQL_GATEWAY_INVALID_SCHEMA (typename : JsValue)
| InvalidSDL (errors : list GraphQLError)
| UserThrow (v : JsValue).

Inductive Result (A : Type) : Type :=
| Ok (a : A)
| Throw (e : Thrown).

Arguments Ok {A} a.
Arguments Throw {A} e.

Definition rbind {A B} (r : Result A) (k : A -> Result B) : Result B :=
  match r with
  | Ok a => k a
  | Throw e => Throw e
  end.

Declare Scope result_scope.
Delimit Scope result_scope with result.
Notation "'let!' x ':=' r 'in' k" := (rbind r (fun x => k))
  (at level 10, x name, r at level 100, k at level 200) : result_scope.

(** Run time code: a heap is threaded through and survives a throw. *)
Definition Exec (A : Type) : Type := Heap -> Result A * Heap.

Definition eret {A} (a : A) : Exec A := fun h => (Ok a, h).

Definition ethrow {A} (e : Thrown) : Exec A := fun h => (Throw e, h).

Definition ebind {A B} (m : Exec A) (k : A -> Exec B) : Exec B :=
  fun h =>
    match m h with
    | (Ok a, h') => k a h'
    | (Throw e, h') => (Throw e, h')
    end.

Declare Scope exec_scope.
Delimit Scope exec_scope with exec.
Notation "'let!' x ':=' m 'in' k" := (ebind m (fun x => k))
  (at level 10, x name, m at level 100, k at level 200) : exec_scope.

(** [list.map(f)] with an effectful callback: elements are visited left to
    right and the first throw ends the whole call. *)
Fixpoint arrayMap {A B} (f : A -> Exec B) (l : list A) : Exec (list B) :=
  match l with
  | [] => eret []
  | x :: xs =>
      (let! y := f x in
       let! ys := arrayMap f xs in
       eret (y :: ys))%exec
  end.

(* ================================================================== *)
(** ** Objects used as maps                                            *)
(* ================================================================== *)

(** A JavaScript object used as a dictionary with string keys: own keys in
    insertion order; assigning to a key that is present keeps its place. *)
Definition JsMap (A : Type) : Type := list (string * A).

Fixpoint jsGet {A} (k : string) (m : JsMap A) : option A :=
  match m with
  | [] => None
  | (k', v) :: m' => if String.eqb k k' then Some v else jsGet k m'
  end.

Fixpoint jsSet {A} (k : string) (v : A) (m : JsMap A) : JsMap A :=
  match m with
  | [] => [(k, v)]
  | (k', v') :: m' =>
      if String.eqb k k' then (k', v) :: m' else (k', v') :: jsSet k v m'
  end.

Fixpoint jsDelete {A} (k : string) (m : JsMap A) : JsMap A :=
  match m with
  | [] => []
  | (k', v') :: m' =>
      if String.eqb k k' then m' else (k', v') :: jsDelete k m'
  end.

Definition jsKeys {A} (m : JsMap A) : list string := map fst m.

Definition jsValues {A} (m : JsMap A) : list A := map snd m.

Definition jsHas {A} (k : string) (m : JsMap A) : bool :=
  match jsGet k m with
  | Some _ => true
  | None => false
  end.

Definition inb (k : string) (l : list string) : bool :=
  existsb (String.eqb k) l.

(** The property names every object literal inherits from
    [Object.prototype]; each holds a function (or, for [__proto__], the
    prototype itself), so a lookup of one of them is truthy. *)
Definition objectPrototypeKeys : list string :=
  [ "constructor"; "__defineGetter__"; "__defineSetter__"; "hasOwnProperty";
    "__lookupGetter__"; "__lookupSetter__"; "isPrototypeOf";
    "propertyIsEnumerable"; "toString"; "valueOf"; "__proto__";
    "toLocaleString" ].

(** [m[k] = v] on an object literal [{}] whose values are objects.  The key
    [__proto__] is the prototype setter: it adds no own key (the effect of
    the changed prototype on later lookups is not tracked). *)
Definition literalSet {A} (k : string) (v : A) (m : JsMap A) : JsMap A :=
  if String.eqb k "__proto__" then m else jsSet k v m.

(** Truthiness of [m[k]] on an object literal [{}] whose values are objects:
    an own key, or a name inherited from [Object.prototype]. *)
Definition literalTruthy {A} (k : string) (m : JsMap A) : bool :=
  jsHas k m || inb k objectPrototypeKeys.

(* ================================================================== *)
(** ** The parsed document                                             *)
(* ================================================================== *)

(** [Kind] of the top level nodes the parser produces. *)
Inductive Kind : Type :=
| SCALAR_TYPE_DEFINITION
| OBJECT_TYPE_DEFINITION
| INTERFACE_TYPE_DEFINITION
| UNION_TYPE_DEFINITION
| ENUM_TYPE_DEFINITION
| INPUT_OBJECT_TYPE_DEFINITION
| SCALAR_TYPE_EXTENSION
| OBJECT_TYPE_EXTENSION
| INTERFACE_TYPE_EXTENSION
| UNION_TYPE_EXTENSION
| ENUM_TYPE_EXTENSION
| INPUT_OBJECT_TYPE_EXTENSION
| DIRECTIVE_DEFINITION
| SCHEMA_DEFINITION
| SCHEMA_EXTENSION
| OPERATION_DEFINITION
| FRAGMENT_DEFINITION.

Definition Kind_eqb (a b : Kind) : bool :=
  match a, b with
  | SCALAR_TYPE_DEFINITION, SCALAR_TYPE_DEFINITION
  | OBJECT_TYPE_DEFINITION, OBJECT_TYPE_DEFINITION
  | INTERFACE_TYPE_DEFINITION, INTERFACE_TYPE_DEFINITION
  | UNION_TYPE_DEFINITION, UNION_TYPE_DEFINITION
  | ENUM_TYPE_DEFINITION, ENUM_TYPE_DEFINITION
  | INPUT_OBJECT_TYPE_DEFINITION, INPUT_OBJECT_TYPE_DEFINITION
  | SCALAR_TYPE_EXTENSION, SCALAR_TYPE_EXTENSION
  | OBJECT_TYPE_EXTENSION, OBJECT_TYPE_EXTENSION
  | INTERFACE_TYPE_EXTENSION, INTERFACE_TYPE_EXTENSION
  | UNION_TYPE_EXTENSION, UNION_TYPE_EXTENSION
  | ENUM_TYPE_EXTENSION, ENUM_TYPE_EXTENSION
  | INPUT_OBJECT_TYPE_EXTENSION, INPUT_OBJECT_TYPE_EXTENSION
  | DIRECTIVE_DEFINITION, DIRECTIVE_DEFINITION
  | SCHEMA_DEFINITION, SCHEMA_DEFINITION
  | SCHEMA_EXTENSION, SCHEMA_EXTENSION
  | OPERATION_DEFINITION, OPERATION_DEFINITION
  | FRAGMENT_DEFINITION, FRAGMENT_DEFINITION => true
  | _, _ => false
  end.

(** A type reference as written in a field or an argument. *)
Inductive TypeNode : Type :=
| NamedType (n : string)
| ListType (t : TypeNode)
| NonNullType (t : TypeNode).

Fixpoint namedTypeOf (t : TypeNode) : string :=
  match t with
  | NamedType n => n
  | ListType t' | NonNullType t' => namedTypeOf t'
  end.

(** A directive application: [directive.name.value] and its arguments. *)
Record DirectiveNode : Type := mkDirective {
  dir_name : string;
  dir_arguments : list (string * string)
}.

(** A field (or input field) declaration.  The parser gives every field a
    [directives] array, empty when none is written. *)
Record FieldDefinitionNode : Type := mkFieldDef {
  fd_name : string;
  fd_arguments : list (string * TypeNode);
  fd_type : TypeNode;
  fd_directives : list DirectiveNode
}.

(** A top level node.  [def_kind] can become [undefined] when the
    partitioner rewrites it; [def_name] is absent on schema definitions and
    anonymous operations; [def_directives] is absent on directive
    definitions and on synthesized stubs; [def_fields] is present on
    object, interface and input object nodes only; [def_types] are the
    members of a union; [def_arguments] the arguments of a directive
    definition. *)
Record DefinitionNode : Type := mkDefinition {
  def_kind : option Kind;
  def_name : option string;
  def_directives : option (list DirectiveNode);
  def_fields : option (list FieldDefinitionNode);
  def_types : list string;
  def_arguments : list (string * TypeNode)
}.

Definition Document : Type := list DefinitionNode.

Definition withKind (k : option Kind) (d : DefinitionNode) : DefinitionNode :=
  mkDefinition k (def_name d) (def_directives d) (def_fields d)
    (def_types d) (def_arguments d).

Definition withFields (fs : option (list FieldDefinitionNode))
    (d : DefinitionNode) : DefinitionNode :=
  mkDefinition (def_kind d) (def_name d) (def_directives d) fs
    (def_types d) (def_arguments d).

(** The object literal [{ kind, name: definition.name }]. *)
Definition kindAndName (k : option Kind) (n : string) : DefinitionNode :=
  mkDefinition k (Some n) None None [] [].

Definition kindIs (k : Kind) (d : DefinitionNode) : bool :=
  match def_kind d with
  | Some k' => Kind_eqb k k'
  | None => false
  end.

Definition nameIs (n : string) (d : DefinitionNode) : bool :=
  match def_name d with
  | Some n' => String.eqb n n'
  | None => false
  end.

Definition isTypeDefinitionKind (k : Kind) : bool :=
  match k with
  | SCALAR_TYPE_DEFINITION | OBJECT_TYPE_DEFINITION
  | INTERFACE_TYPE_DEFINITION | UNION_TYPE_DEFINITION
  | ENUM_TYPE_DEFINITION | INPUT_OBJECT_TYPE_DEFINITION => true
  | _ => false
  end.

Definition isTypeExtensionKind (k : Kind) : bool :=
  match k with
  | SCALAR_TYPE_EXTENSION | OBJECT_TYPE_EXTENSION
  | INTERFACE_TYPE_EXTENSION | UNION_TYPE_EXTENSION
  | ENUM_TYPE_EXTENSION | INPUT_OBJECT_TYPE_EXTENSION => true
  | _ => false
  end.

Definition isTypeDefinitionNode (d : DefinitionNode) : bool :=
  match def_kind d with
  | Some k => isTypeDefinitionKind k
  | None => false
  end.

Definition isTypeExtensionNode (d : DefinitionNode) : bool :=
  match def_kind d with
  | Some k => isTypeExtensionKind k
  | None => false
  end.

(** The two lookup tables; a key that is not in the table (or an
    [undefined] kind) reads as [undefined]. *)
Definition extensionKindToDefinitionKind (k : option Kind) : option Kind :=
  match k with
  | Some SCALAR_TYPE_EXTENSION => Some SCALAR_TYPE_DEFINITION
  | Some OBJECT_TYPE_EXTENSION => Some OBJECT_TYPE_DEFINITION
  | Some INTERFACE_TYPE_EXTENSION => Some INTERFACE_TYPE_DEFINITION
  | Some UNION_TYPE_EXTENSION => Some UNION_TYPE_DEFINITION
  | Some ENUM_TYPE_EXTENSION => Some ENUM_TYPE_DEFINITION
  | Some INPUT_OBJECT_TYPE_EXTENSION => Some INPUT_OBJECT_TYPE_DEFINITION
  | _ => None
  end.

Definition definitionKindToExtensionKind (k : option Kind) : option Kind :=
  match k with
  | Some SCALAR_TYPE_DEFINITION => Some SCALAR_TYPE_EXTENSION
  | Some OBJECT_TYPE_DEFINITION => Some OBJECT_TYPE_EXTENSION
  | Some INTERFACE_TYPE_DEFINITION => Some INTERFACE_TYPE_EXTENSION
  | Some UNION_TYPE_DEFINITION => Some UNION_TYPE_EXTENSION
  | Some ENUM_TYPE_DEFINITION => Some ENUM_TYPE_EXTENSION
  | Some INPUT_OBJECT_TYPE_DEFINITION => Some INPUT_OBJECT_TYPE_EXTENSION
  | _ => None
  end.

Definition rootTypeNames : list string := ["Query"; "Mutation"; "Subscription"].

(* ================================================================== *)
(** ** Helpers shared by both copies                                   *)
(* ================================================================== *)

Definition hasDirectiveNamed (n : string) (ds : list DirectiveNode) : bool :=
  existsb (fun directive => String.eqb (dir_name directive) n) ds.

Definition isExternalField (fieldDefinition : FieldDefinitionNode) : bool :=
  hasDirectiveNamed "external" (fd_directives fieldDefinition).

(** [removeExternalFields]: a copy of the node whose [fields] keeps the
    fields without [@external]; [fields.filter] on a node without a field
    list raises. *)
Definition removeExternalFields (typeDefinition : DefinitionNode)
    : Result DefinitionNode :=
  match def_fields typeDefinition with
  | None => Throw (TypeError "Cannot read property 'filter' of undefined")
  | Some fs =>
      Ok (withFields
            (Some (List.filter (fun fieldDefinition =>
                             negb (isExternalField fieldDefinition)) fs))
            typeDefinition)
  end.

Definition hasExtendsDirective (definition : DefinitionNode) : bool :=
  match def_directives definition with
  | None => false
  | Some ds => hasDirectiveNamed "extends" ds
  end.

(** Loop state and result of [getStubTypes]. *)
Record Partition : Type := mkPartition {
  definitionsMap : JsMap DefinitionNode;
  extensionsMap : JsMap DefinitionNode;
  extensionsList : list DefinitionNode;
  directiveDefinitions : list DefinitionNode
}.

Record StubTypes : Type := mkStubTypes {
  typeStubs : list DefinitionNode;
  extensions : list DefinitionNode;
  definitions : list DefinitionNode
}.

Definition emptyPartition : Partition := mkPartition [] [] [] [].

(** The part of the loop body both copies share: the three way
    classification of one declaration whose name is [typeName]. *)
Definition classify (isGateway : bool) (typeName : string)
    (isTypeExtensionByDirective : bool) (definition : DefinitionNode)
    (st : Partition) : Result Partition :=
  if isTypeDefinitionNode definition && negb isTypeExtensionByDirective then
    Ok (mkPartition (literalSet typeName definition (definitionsMap st))
          (extensionsMap st) (extensionsList st) (directiveDefinitions st))
  else if isTypeExtensionNode definition
          || (isTypeDefinitionNode definition && isTypeExtensionByDirective) then
    let stub :=
      kindAndName
        (if isTypeExtensionByDirective then def_kind definition
         else extensionKindToDefinitionKind (def_kind definition))
        typeName in
    let definition' :=
      if isTypeExtensionByDirective
      then withKind (definitionKindToExtensionKind (def_kind definition)) definition
      else definition in
    (let! pushed := (if isGateway then removeExternalFields definition'
                     else Ok definition') in
     Ok (mkPartition (definitionsMap st)
           (literalSet typeName stub (extensionsMap st))
           (extensionsList st ++ [pushed]) (directiveDefinitions st)))%result
  else if kindIs DIRECTIVE_DEFINITION definition then
    Ok (mkPartition (definitionsMap st) (extensionsMap st) (extensionsList st)
          (directiveDefinitions st ++ [definition]))
  else Ok st.

Definition nameOfDefinition (definition : DefinitionNode) : Result string :=
  match def_name definition with
  | Some n => Ok n
  | None => Throw (TypeError "Cannot read property 'value' of undefined")
  end.

(* ================================================================== *)
(** ** The schema engine                                               *)
(* ================================================================== *)

(** The [graphql] package is a collaborator of the module, not part of it.
    What follows is the part of its behaviour the module relies on, as
    graphql-js 15 implements it: schema objects with a type map keyed by
    name, [extendSchema] (existing types are rebuilt with the extension
    nodes that name them, then the type definitions of the document are
    entered), the schema constructor, and [printSchema] followed by
    [parse].  Built in scalars and introspection types are left out of the
    type map: they are never object types carrying [@key] and they are
    never printed; a lookup of one of their names ([String], [__Schema]),
    which the engine answers, finds nothing here.  Interface lists, enum
    values and a [schema { ... }] block are left out as well: the module
    reads none of them, and it overwrites the three roots from the type
    map before it returns.  A field entry that has lost its type and
    arguments makes the engine raise when it prints the schema and when it
    rebuilds the types to extend it; both are modelled. *)

Inductive TypeClass : Type :=
| ScalarType
| ObjectType
| InterfaceType
| UnionType
| EnumType
| InputObjectType.

(** SDL text, identified with the document it parses to: [print] and
    [parse] of the engine are inverse to each other on documents, and
    [stripIgnoredCharacters] only removes blanks. *)
Inductive SDL : Type :=
| Printed (document : Document).

Definition parse (sdl : SDL) : Document :=
  match sdl with
  | Printed document => document
  end.

Definition print (document : Document) : SDL := Printed document.

Definition stripIgnoredCharacters (sdl : SDL) : SDL := sdl.

(** The two resolvers the module installs.  The [_entities] closure is the
    same in both copies except for the error it raises on an unknown type. *)
Inductive FieldResolver : Type :=
| EntitiesResolve (unknownType : JsValue -> Thrown)
| ServiceResolve (sdl : SDL).

(** An entry of a type's field map.  [{ ...undefined, resolve }] is an
    entry with neither type nor arguments. *)
Record GraphQLField : Type := mkField {
  gf_type : option TypeNode;
  gf_args : option (list (string * TypeNode));
  gf_resolve : option FieldResolver
}.

(** A per type reference resolver, called as
    [resolveReference(reference, {}, context, info)]; [info] is passed
    through untouched and is left out. *)
Definition Resolver : Type := JsValue -> JsValue -> JsValue -> Exec JsValue.

(** A named type; its name is the key it is stored under. *)
Record GraphQLNamedType : Type := mkType {
  t_class : TypeClass;
  t_fields : JsMap GraphQLField;
  t_types : list string;
  t_astNode : option DefinitionNode;
  t_extensionASTNodes : list DefinitionNode;
  t_resolveReference : option Resolver
}.

(** A schema: the three roots refer to entries of the type map (the root
    object and the map entry are the same object in the engine). *)
Record GraphQLSchema : Type := mkSchema {
  s_query : option string;
  s_mutation : option string;
  s_subscription : option string;
  s_types : JsMap GraphQLNamedType;
  s_directives : list DefinitionNode
}.

(** A rule set of the engine's SDL validator. *)
Definition Rules : Type := Document -> GraphQLSchema -> list GraphQLError.

Definition validateSDL (documentAST : Document) (schemaToExtend : GraphQLSchema)
    (rules : Rules) : list GraphQLError :=
  rules documentAST schemaToExtend.

Definition isSome {A} (o : option A) : bool :=
  match o with
  | Some _ => true
  | None => false
  end.

Definition getType (schema : GraphQLSchema) (n : string)
    : option GraphQLNamedType :=
  jsGet n (s_types schema).

Definition isObjectType (t : GraphQLNamedType) : bool :=
  match t_class t with
  | ObjectType => true
  | _ => false
  end.

Definition hasFieldMap (c : TypeClass) : bool :=
  match c with
  | ObjectType | InterfaceType | InputObjectType => true
  | _ => false
  end.

(** [type.getFields()]: scalars, unions and enums have no such method. *)
Definition getFields (t : GraphQLNamedType) : Result (JsMap GraphQLField) :=
  if hasFieldMap (t_class t) then Ok (t_fields t)
  else Throw (TypeError "getFields is not a function").

(** [schema.getType(n).getFields()]. *)
Definition getFieldsOf (schema : GraphQLSchema) (n : string)
    : Result (JsMap GraphQLField) :=
  match getType schema n with
  | Some t => getFields t
  | None => Throw (TypeError "Cannot read property 'getFields' of undefined")
  end.

Definition withTypeFields (fs : JsMap GraphQLField) (t : GraphQLNamedType)
    : GraphQLNamedType :=
  mkType (t_class t) fs (t_types t) (t_astNode t)
    (t_extensionASTNodes t) (t_resolveReference t).

Definition withTypes (ts : JsMap GraphQLNamedType) (s : GraphQLSchema)
    : GraphQLSchema :=
  mkSchema (s_query s) (s_mutation s) (s_subscription s) ts (s_directives s).

(** In place update of the field map of the type named [n]. *)
Definition updateFields (n : string)
    (f : JsMap GraphQLField -> JsMap GraphQLField) (s : GraphQLSchema)
    : GraphQLSchema :=
  match jsGet n (s_types s) with
  | Some t => withTypes (jsSet n (withTypeFields (f (t_fields t)) t) (s_types s)) s
  | None => s
  end.

(** [{ ...fields[n], resolve }] stored back under [n]. *)
Definition setResolve (n : string) (resolve : FieldResolver)
    (fs : JsMap GraphQLField) : JsMap GraphQLField :=
  jsSet n
    (match jsGet n fs with
     | Some f => mkField (gf_type f) (gf_args f) (Some resolve)
     | None => mkField None None (Some resolve)
     end) fs.

Definition classOfKind (k : Kind) : option TypeClass :=
  match k with
  | SCALAR_TYPE_DEFINITION => Some ScalarType
  | OBJECT_TYPE_DEFINITION => Some ObjectType
  | INTERFACE_TYPE_DEFINITION => Some InterfaceType
  | UNION_TYPE_DEFINITION => Some UnionType
  | ENUM_TYPE_DEFINITION => Some EnumType
  | INPUT_OBJECT_TYPE_DEFINITION => Some InputObjectType
  | _ => None
  end.

Definition kindOfClass (c : TypeClass) : Kind :=
  match c with
  | ScalarType => SCALAR_TYPE_DEFINITION
  | ObjectType => OBJECT_TYPE_DEFINITION
  | InterfaceType => INTERFACE_TYPE_DEFINITION
  | UnionType => UNION_TYPE_DEFINITION
  | EnumType => ENUM_TYPE_DEFINITION
  | InputObjectType => INPUT_OBJECT_TYPE_DEFINITION
  end.

Definition fieldsOfNode (node : DefinitionNode) : list FieldDefinitionNode :=
  match def_fields node with
  | Some fs => fs
  | None => []
  end.

Definition fieldOfNode (f : FieldDefinitionNode) : GraphQLField :=
  mkField (Some (fd_type f)) (Some (fd_arguments f)) None.

(** Spread of [source] over [target]: keys already present keep their
    place and take the new value. *)
Definition jsAssign {A} (target source : JsMap A) : JsMap A :=
  fold_left (fun m kv => jsSet (fst kv) (snd kv) m) source target.

Definition nodeFieldEntries (nodes : list DefinitionNode)
    : JsMap GraphQLField :=
  flat_map (fun node => map (fun f => (fd_name f, fieldOfNode f))
                            (fieldsOfNode node)) nodes.

(** [buildFieldMap(nodes)]: one entry per field name, the last declaration
    of a name winning. *)
Definition buildFieldMap (nodes : list DefinitionNode) : JsMap GraphQLField :=
  jsAssign [] (nodeFieldEntries nodes).

Definition typeExtensionsOf (document : Document) (n : string)
    : list DefinitionNode :=
  List.filter (fun d => isTypeExtensionNode d && nameIs n d) document.

(** [buildType]: a new type from a definition node and the extension nodes
    of the same document that name it. *)
Definition buildType (typeNode : DefinitionNode) (c : TypeClass)
    (extensionNodes : list DefinitionNode) : GraphQLNamedType :=
  let allNodes := typeNode :: extensionNodes in
  mkType c
    (if hasFieldMap c then buildFieldMap allNodes else [])
    (match c with UnionType => flat_map def_types allNodes | _ => [] end)
    (Some typeNode) extensionNodes None.

(** [extendNamedType]: the existing type rebuilt with the extension nodes
    that name it; the extension is applied according to the class of the
    existing type. *)
Definition extendNamedType (extensionNodes : list DefinitionNode)
    (t : GraphQLNamedType) : GraphQLNamedType :=
  mkType (t_class t)
    (if hasFieldMap (t_class t)
     then jsAssign (t_fields t) (nodeFieldEntries extensionNodes)
     else t_fields t)
    (match t_class t with
     | UnionType => t_types t ++ flat_map def_types extensionNodes
     | _ => t_types t
     end)
    (t_astNode t) (t_extensionASTNodes t ++ extensionNodes) None.

Definition addTypeDefinition (document : Document)
    (m : JsMap GraphQLNamedType) (typeNode : DefinitionNode)
    : JsMap GraphQLNamedType :=
  match def_name typeNode, def_kind typeNode with
  | Some n, Some k =>
      match classOfKind k with
      | Some c => jsSet n (buildType typeNode c (typeExtensionsOf document n)) m
      | None => m
      end
  | _, _ => m
  end.

Definition nothingToExtend (document : Document) : bool :=
  negb (existsb (fun d => isTypeDefinitionNode d || isTypeExtensionNode d
                          || kindIs DIRECTIVE_DEFINITION d
                          || kindIs SCHEMA_DEFINITION d
                          || kindIs SCHEMA_EXTENSION d) document).

Definition extendExisting (document : Document)
    (kv : string * GraphQLNamedType) : string * GraphQLNamedType :=
  (fst kv, extendNamedType (typeExtensionsOf document (fst kv)) (snd kv)).

(** The schema [extendSchema] makes once the document is taken as valid
    and every existing type can be rebuilt: existing types are rebuilt
    with their extensions, then each type definition of the document is
    entered under its name. *)
Definition extendSchemaImpl (schema : GraphQLSchema) (document : Document)
    : GraphQLSchema :=
  if nothingToExtend document then schema
  else
    mkSchema (s_query schema) (s_mutation schema) (s_subscription schema)
      (fold_left (addTypeDefinition document)
                 (List.filter isTypeDefinitionNode document)
                 (map (extendExisting document) (s_types schema)))
      (s_directives schema
       ++ List.filter (kindIs DIRECTIVE_DEFINITION) document).

(** A field entry the engine can rebuild: it reads the entry's [args]
    list and the name of its [type], and raises a [TypeError] on
    [{ resolve }], the entry that has neither. *)
Definition rebuildsField (f : GraphQLField) : bool :=
  isSome (gf_type f) && isSome (gf_args f).

Definition rebuildsType (t : GraphQLNamedType) : bool :=
  negb (hasFieldMap (t_class t))
  || forallb (fun kf => rebuildsField (snd kf)) (t_fields t).

Definition rebuildsTypes (schema : GraphQLSchema) : bool :=
  forallb (fun kv => rebuildsType (snd kv)) (s_types schema).

(** The extension proper: a document with nothing to extend gives the
    schema back untouched; otherwise every existing type is rebuilt, which
    raises when one of them holds a field entry without type and
    arguments. *)
Definition extendTypes (schema : GraphQLSchema) (document : Document)
    : Result GraphQLSchema :=
  if nothingToExtend document then Ok schema
  else if rebuildsTypes schema then Ok (extendSchemaImpl schema document)
  else Throw (TypeError "Cannot read property 'reduce' of undefined").

(** [extendSchema(schema, document, options)]: unless told to assume the
    SDL valid, the engine first runs its own rule set and raises when it
    reports anything. *)
Definition extendSchema (specifiedSDLRules : Rules) (assumeValid : bool)
    (schema : GraphQLSchema) (document : Document) : Result GraphQLSchema :=
  if assumeValid then extendTypes schema document
  else
    match validateSDL document schema specifiedSDLRules with
    | [] => extendTypes schema document
    | errors => Throw (InvalidSDL errors)
    end.

Arguments extendSchema : simpl never.

(** [new GraphQLSchema({ query: undefined })]. *)
Definition emptySchema : GraphQLSchema := mkSchema None None None [] [].

(** [new GraphQLObjectType({ name: 'Query', fields: {} })]. *)
Definition emptyObjectType : GraphQLNamedType :=
  mkType ObjectType [] [] None [] None.

(** [new GraphQLSchema({ ...schema.toConfig(), query })] for a new type
    object [query] named [n]: the constructor refuses two type objects of
    one name. *)
Definition schemaWithQuery (schema : GraphQLSchema) (n : string)
    (query : GraphQLNamedType) : Result GraphQLSchema :=
  if jsHas n (s_types schema) then
    Throw (PlainError "Schema must contain uniquely named types")
  else
    Ok (mkSchema (Some n) (s_mutation schema) (s_subscription schema)
          (s_types schema ++ [(n, query)]) (s_directives schema)).

Definition rootNamed (schema : GraphQLSchema) (n : string) : option string :=
  if jsHas n (s_types schema) then Some n else None.

(** [new GraphQLSchema({ ...schema.toConfig(), query: schema.getType('Query'),
    mutation: schema.getType('Mutation'),
    subscription: schema.getType('Subscription') })]. *)
Definition schemaWithRootsByName (schema : GraphQLSchema) : GraphQLSchema :=
  mkSchema (rootNamed schema "Query") (rootNamed schema "Mutation")
    (rootNamed schema "Subscription") (s_types schema) (s_directives schema).

(** The type the schema answers queries with ([schema.getQueryType()]). *)
Definition getQueryType (schema : GraphQLSchema) : option GraphQLNamedType :=
  match s_query schema with
  | Some n => getType schema n
  | None => None
  end.

(** Directives gathered from a type's own node and its extension nodes. *)
Definition nodeDirectives (node : DefinitionNode) : list DirectiveNode :=
  match def_directives node with
  | Some ds => ds
  | None => []
  end.

Definition gatherDirectives (type : GraphQLNamedType) : list DirectiveNode :=
  flat_map nodeDirectives (t_extensionASTNodes type)
  ++ match t_astNode type with
     | Some node => nodeDirectives node
     | None => []
     end.

Definition typeIncludesDirective (type : GraphQLNamedType)
    (directiveName : string) : bool :=
  hasDirectiveNamed directiveName (gatherDirectives type).

(** Names of the object types that carry [@key], in type map order. *)
Definition entityTypesOf (schema : GraphQLSchema) : list string :=
  map fst (List.filter (fun kv => isObjectType (snd kv)
                                  && typeIncludesDirective (snd kv) "key")
                       (s_types schema)).

(** *** The constructor's collection of referenced types *)

Definition fieldReferences (f : GraphQLField) : list string :=
  match gf_type f with
  | Some t => [namedTypeOf t]
  | None => []
  end
  ++ match gf_args f with
     | Some args => map (fun a => namedTypeOf (snd a)) args
     | None => []
     end.

Definition referencedTypeNames (t : GraphQLNamedType) : list string :=
  match t_class t with
  | UnionType => t_types t
  | ObjectType | InterfaceType | InputObjectType =>
      flat_map (fun kv => fieldReferences (snd kv)) (t_fields t)
  | _ => []
  end.

Definition addReferenced (universe : JsMap GraphQLNamedType)
    (m : JsMap GraphQLNamedType) (n : string) : JsMap GraphQLNamedType :=
  match jsGet n m, jsGet n universe with
  | None, Some t => m ++ [(n, t)]
  | _, _ => m
  end.

Definition collectStep (universe acc : JsMap GraphQLNamedType)
    : JsMap GraphQLNamedType :=
  fold_left (addReferenced universe)
            (flat_map (fun kv => referencedTypeNames (snd kv)) acc) acc.

Definition optionToList {A} (o : option A) : list A :=
  match o with
  | Some a => [a]
  | None => []
  end.

(** [new GraphQLSchema(config)] where the listed types were picked out of
    the type objects [universe]: the type map holds the listed types, the
    roots, and every type they or the directives refer to. *)
Definition newGraphQLSchema (universe : JsMap GraphQLNamedType)
    (query mutation subscription : option string)
    (types : JsMap GraphQLNamedType) (directives : list DefinitionNode)
    : GraphQLSchema :=
  let seeds :=
    fold_left (addReferenced universe)
      (optionToList query ++ optionToList mutation ++ optionToList subscription
       ++ flat_map (fun d => map (fun a => namedTypeOf (snd a)) (def_arguments d))
                   directives)
      types in
  mkSchema query mutation subscription
    (Nat.iter (length universe) (collectStep universe) seeds) directives.

(** *** [printSchema], read back by [parse] *)

Fixpoint mapResult {A B} (f : A -> Result B) (l : list A) : Result (list B) :=
  match l with
  | [] => Ok []
  | x :: xs =>
      (let! y := f x in
       let! ys := mapResult f xs in
       Ok (y :: ys))%result
  end.

(** A field is printed with its arguments and its type; [args.length] on a
    field without arguments list raises. *)
Definition printField (kv : string * GraphQLField) : Result FieldDefinitionNode :=
  match gf_args (snd kv) with
  | None => Throw (TypeError "Cannot read property 'length' of undefined")
  | Some args =>
      Ok (mkFieldDef (fst kv) args
            (match gf_type (snd kv) with
             | Some t => t
             | None => NamedType "undefined"
             end) [])
  end.

(** A type is printed as a definition of its class: neither the directives
    applied to it nor its extension nodes are printed. *)
Definition printType (kv : string * GraphQLNamedType) : Result DefinitionNode :=
  (let! fs := (if hasFieldMap (t_class (snd kv))
               then (let! l := mapResult printField (t_fields (snd kv)) in
                     Ok (Some l))
               else Ok None) in
   Ok (mkDefinition (Some (kindOfClass (t_class (snd kv)))) (Some (fst kv))
         (Some []) fs (t_types (snd kv)) []))%result.

Definition printSchema (schema : GraphQLSchema) : Result SDL :=
  (let! types := mapResult printType (s_types schema) in
   Ok (Printed (s_directives schema ++ types)))%result.

(* ================================================================== *)
(** ** Run time: tagging results and resolving entities                *)
(* ================================================================== *)

Definition emptyObject : JsObject := mkObject [] true None None.

(** A new object at the end of the heap. *)
Definition alloc (o : JsObject) : Exec JsValue :=
  fun h => (Ok (VRef (length h)), h ++ [o]).

(** [const { k } = v]: destructuring [undefined] or [null] raises, a
    primitive has no such property, an object yields its own property (the
    prototypes of the objects modelled here hold no [__typename]). *)
Definition getProperty (v : JsValue) (k : string) : Exec JsValue :=
  fun h =>
    match v with
    | VUndefined | VNull =>
        (Throw (TypeError "Cannot destructure property of undefined or null"), h)
    | VRef l =>
        match h !! l with
        | Some o =>
            (Ok (match jsGet k (o_props o) with
                 | Some p => p_value p
                 | None => VUndefined
                 end), h)
        | None => (Ok VUndefined, h)
        end
    | _ => (Ok VUndefined, h)
    end.

Definition withProps (ps : list (string * Property)) (o : JsObject) : JsObject :=
  mkObject ps (o_extensible o) (o_call o) (o_promise o).

(** [Object.defineProperty(o, k, { value: v })] on the object itself: a new
    property gets the default attributes (all false); an existing one keeps
    its attributes and takes the value when it may change.  [None] stands
    for the [TypeError] the call raises. *)
Definition defineValueProperty (k : string) (v : JsValue) (o : JsObject)
    : option JsObject :=
  match jsGet k (o_props o) with
  | None =>
      if o_extensible o
      then Some (withProps (o_props o ++ [(k, mkProperty v false false false)]) o)
      else None
  | Some p =>
      if p_configurable p || p_writable p then
        Some (withProps
                (jsSet k (mkProperty v (p_writable p) (p_enumerable p)
                            (p_configurable p)) (o_props o)) o)
      else if JsValue_eqb (p_value p) v then Some o
      else None
  end.

(** [result !== null && typeof result === 'object']. *)
Definition isNonNullObject (h : Heap) (result : JsValue) : bool :=
  match result with
  | VRef l =>
      match h !! l with
      | Some o => negb (isSome (o_call o))
      | None => false
      end
  | _ => false
  end.

Definition addTypeNameToResult (result typename : JsValue) : Exec JsValue :=
  fun h =>
    match result with
    | VRef l =>
        match h !! l with
        | Some o =>
            if isSome (o_call o) then (Ok result, h)
            else
              match defineValueProperty "__typename" typename o with
              | Some o' => (Ok result, <[l := o']> h)
              | None => (Throw (TypeError "Cannot redefine property: __typename"), h)
              end
        | None => (Ok result, h)
        end
    | _ => (Ok result, h)
    end.

(** ['then' in o]: an own property, or the method a promise inherits. *)
Definition hasThen (o : JsObject) : bool :=
  jsHas "then" (o_props o) || isSome (o_promise o).

(** What [o.then] evaluates to when it is callable: the code of an own
    function valued property, or the built in method of a promise. *)
Inductive ThenMethod : Type :=
| PromiseThen
| OwnThen (code : FunCode).

Definition thenMethod (h : Heap) (o : JsObject) : option ThenMethod :=
  match jsGet "then" (o_props o) with
  | Some p =>
      match p_value p with
      | VRef f =>
          match h !! f with
          | Some fo =>
              match o_call fo with
              | Some code => Some (OwnThen code)
              | None => None
              end
          | None => None
          end
      | _ => None
      end
  | None => if isSome (o_promise o) then Some PromiseThen else None
  end.

Section Runtime.

(** User code behind a function object: [this], the arguments, the heap. *)
Variable callUser : nat -> JsValue -> list JsValue -> Exec JsValue.

Definition callFunction (code : FunCode) (this : JsValue)
    (args : list JsValue) : Exec JsValue :=
  match code with
  | UserFunction id => callUser id this args
  | TypeNameCallback typename =>
      addTypeNameToResult (match args with x :: _ => x | [] => VUndefined end)
                          typename
  end.

(** [result.then(x => addTypeNameToResult(x, __typename))]: the closure is
    created, then the method is called.  The built in method registers the
    callback on a new promise. *)
Definition callThen (m : ThenMethod) (result : JsValue) (parent : nat)
    (typename : JsValue) : Exec JsValue :=
  (let! cb := alloc (mkObject [] true (Some (TypeNameCallback typename)) None) in
   match m, cb with
   | PromiseThen, VRef c => alloc (mkObject [] true None (Some (ThenOf parent c)))
   | PromiseThen, _ => eret VUndefined
   | OwnThen code, _ => callFunction code result [cb]
   end)%exec.

(** The tail of the callback of [representations.map]: the deferred value
    test and the tagging. *)
Definition tagResult (result typename : JsValue) : Exec JsValue :=
  fun h =>
    if truthy result then
      match result with
      | VRef l =>
          match h !! l with
          | Some o =>
              if hasThen o then
                match thenMethod h o with
                | Some m => callThen m result l typename h
                | None => addTypeNameToResult result typename h
                end
              else addTypeNameToResult result typename h
          | None => addTypeNameToResult result typename h
          end
      | _ => (Throw (TypeError "Cannot use 'in' operator to search for 'then'"), h)
      end
    else addTypeNameToResult result typename h.

(** The callback of [representations.map] in the [_entities] resolver.
    [unknownType] builds the error of the copy at hand. *)
Definition resolveRepresentation (unknownType : JsValue -> Thrown)
    (schema : GraphQLSchema) (context : JsValue) (reference : JsValue)
    : Exec JsValue :=
  (let! typename := getProperty reference "__typename" in
   match getType schema (toStringJs typename) with
   | Some type =>
       if isObjectType type then
         let resolveReference :=
           match t_resolveReference type with
           | Some r => r
           | None => fun _ _ _ => eret reference
           end in
         let! args := alloc emptyObject in
         let! result := resolveReference reference args context in
         tagResult result typename
       else ethrow (unknownType typename)
   | None => ethrow (unknownType typename)
   end)%exec.

(** The [resolve] function installed on [Query._entities]. *)
Definition entitiesResolve (unknownType : JsValue -> Thrown)
    (schema : GraphQLSchema) (context : JsValue)
    (representations : list JsValue) : Exec (list JsValue) :=
  arrayMap (resolveRepresentation unknownType schema context) representations.

(** Settling a promise: a promise made by [then] settles to what its
    callback returns on the value of its parent.  [fuel] bounds the length
    of the chain. *)
Fixpoint settle (fuel : nat) (l : nat) : Exec JsValue :=
  match fuel with
  | O => ethrow (TypeError "promise chain too long")
  | S fuel' =>
      fun h =>
        match h !! l with
        | Some o =>
            match o_promise o with
            | Some (Fulfils v) => (Ok v, h)
            | Some (Rejects v) => (Throw (UserThrow v), h)
            | Some (ThenOf parent cb) =>
                match settle fuel' parent h with
                | (Ok x, h') =>
                    match h' !! cb with
                    | Some co =>
                        match o_call co with
                        | Some code => callFunction code VUndefined [x] h'
                        | None => (Ok x, h')
                        end
                    | None => (Ok x, h')
                    end
                | (Throw e, h') => (Throw e, h')
                end
            | None => (Throw (TypeError "not a promise"), h)
            end
        | None => (Throw (TypeError "not a promise"), h)
        end
  end.

End Runtime.

(** The error of each copy for a representation of unknown type. *)
Definition unknownTypeFirst (typename : JsValue) : Thrown :=
  MER_ERR_GQL_GATEWAY_INVALID_SCHEMA typename.

(** The double quote character, for messages that quote a name. *)
Definition dquote : string := String (ascii_of_nat 34) EmptyString.

Definition unknownTypeSecond (typename : JsValue) : Thrown :=
  PlainError
    (String.concat EmptyString
       [ "The _entities resolver tried to load an entity for type ";
         dquote; toStringJs typename; dquote;
         ", but no object type of that name was found in the schema" ]).

(* ================================================================== *)
(** ** Constants shared by both copies                                 *)
(* ================================================================== *)

Definition scalarDefinition (n : string) : DefinitionNode :=
  mkDefinition (Some SCALAR_TYPE_DEFINITION) (Some n) (Some []) None [] [].

Definition directiveDefinition (n : string) (args : list (string * TypeNode))
    : DefinitionNode :=
  mkDefinition (Some DIRECTIVE_DEFINITION) (Some n) None None [] args.

Definition objectDefinition (n : string) (ds : list DirectiveNode)
    (fs : list FieldDefinitionNode) : DefinitionNode :=
  mkDefinition (Some OBJECT_TYPE_DEFINITION) (Some n) (Some ds) (Some fs) [] [].

Definition objectExtension (n : string) (ds : list DirectiveNode)
    (fs : list FieldDefinitionNode) : DefinitionNode :=
  mkDefinition (Some OBJECT_TYPE_EXTENSION) (Some n) (Some ds) (Some fs) [] [].

Definition unionDefinition (n : string) (members : list string)
    : DefinitionNode :=
  mkDefinition (Some UNION_TYPE_DEFINITION) (Some n) (Some []) None members [].

Definition fieldSetArgument : list (string * TypeNode) :=
  [("fields", NonNullType (NamedType "_FieldSet"))].

(** [parse(BASE_FEDERATION_TYPES)]. *)
Definition BASE_FEDERATION_TYPES : Document :=
  [ scalarDefinition "_Any";
    scalarDefinition "_FieldSet";
    directiveDefinition "external" [];
    directiveDefinition "requires" fieldSetArgument;
    directiveDefinition "provides" fieldSetArgument;
    directiveDefinition "key" fieldSetArgument;
    directiveDefinition "extends" [] ].

(** [type _Service { sdl: String }]. *)
Definition serviceTypeDefinition : DefinitionNode :=
  objectDefinition "_Service" [] [mkFieldDef "sdl" [] (NamedType "String") []].

(** [extend type Query { _service: _Service! }]. *)
Definition serviceFieldExtension : DefinitionNode :=
  objectExtension "Query" []
    [mkFieldDef "_service" [] (NonNullType (NamedType "_Service")) []].

(** The document [addEntitiesResolver] parses:
    [union _Entity = A | B ...] and
    [extend type Query { _entities(representations: [_Any!]!): [_Entity]! }]. *)
Definition entitiesDocument (entityTypes : list string) : Document :=
  [ unionDefinition "_Entity" entityTypes;
    objectExtension "Query" []
      [mkFieldDef "_entities"
         [("representations",
           NonNullType (ListType (NonNullType (NamedType "_Any"))))]
         (NonNullType (ListType (NamedType "_Entity"))) []] ].

Definition schemaIssuesMessage : string :=
  "Schema issues, check out the .errors property on the Error.".

(** The error policy both copies apply to the validator's report. *)
Definition raiseCompositionErrors (errors : list GraphQLError) : Result unit :=
  match errors with
  | [] => Ok tt
  | [e] => Throw (ThrownError e)
  | _ => Throw (ErrorWithErrors schemaIssuesMessage errors)
  end.

(** The result of [getStubTypes] from the state its loop ends in;
    [keepStub] is the filter applied to the keys of the extensions map. *)
Definition stubTypesOf (keepStub : string -> bool) (st : Partition) : StubTypes :=
  mkStubTypes
    (map snd (List.filter (fun kv => keepStub (fst kv)) (extensionsMap st)))
    (extensionsList st)
    (directiveDefinitions st ++ jsValues (definitionsMap st)).

(* ================================================================== *)
(** ** First copy (lines 1-493)                                        *)
(* ================================================================== *)

Module First.

(** [parse(FEDERATION_SCHEMA)]. *)
Definition FEDERATION_SCHEMA : Document :=
  BASE_FEDERATION_TYPES ++ [serviceTypeDefinition].

(** In gateway mode a declaration named after a root is first turned into
    an extension: its kind is rewritten through the table and a stub record
    is entered for it. *)
Definition forceRootExtension (isGateway : bool) (typeName : string)
    (definition : DefinitionNode) (st : Partition)
    : DefinitionNode * Partition :=
  if isGateway && inb typeName rootTypeNames then
    let kind := definitionKindToExtensionKind (def_kind definition) in
    (withKind kind definition,
     mkPartition (definitionsMap st)
       (literalSet typeName (kindAndName kind typeName) (extensionsMap st))
       (extensionsList st) (directiveDefinitions st))
  else (definition, st).

Definition partitionStep (isGateway : bool) (st : Partition)
    (definition : DefinitionNode) : Result Partition :=
  (let! typeName := nameOfDefinition definition in
   let isTypeExtensionByDirective := hasExtendsDirective definition in
   let forced := forceRootExtension isGateway typeName definition st in
   classify isGateway typeName isTypeExtensionByDirective (fst forced)
            (snd forced))%result.

Fixpoint partitionLoop (isGateway : bool) (schemaDefinitions : Document)
    (st : Partition) : Result Partition :=
  match schemaDefinitions with
  | [] => Ok st
  | definition :: rest =>
      (let! st' := partitionStep isGateway st definition in
       partitionLoop isGateway rest st')%result
  end.

Definition keepStub (st : Partition) (extensionTypeName : string) : bool :=
  negb (literalTruthy extensionTypeName (definitionsMap st)).

Definition getStubTypes (schemaDefinitions : Document) (isGateway : bool)
    : Result StubTypes :=
  (let! st := partitionLoop isGateway schemaDefinitions emptyPartition in
   Ok (stubTypesOf (keepStub st) st))%result.

(** The visitor applied to object type definitions and extensions. *)
Definition typeDefinitionVisitor (node : DefinitionNode)
    : option DefinitionNode :=
  if nameIs "Query" node then
    match def_fields node with
    | None => None
    | Some fs =>
        match List.filter (fun fieldDefinition =>
                             negb (inb (fd_name fieldDefinition)
                                       ["_service"; "_entities"])) fs with
        | [] => None
        | filteredFieldDefinitions =>
            Some (withFields (Some filteredFieldDefinitions) node)
        end
    end
  else if nameIs "_Service" node then None
  else Some node.

(** What the visitor of [stripCommonPrimitives] returns for a top level
    node: [None] removes the node. *)
Definition stripVisitor (node : DefinitionNode) : option DefinitionNode :=
  match def_kind node with
  | Some DIRECTIVE_DEFINITION => Some node
  | Some SCALAR_TYPE_DEFINITION =>
      if nameIs "_Any" node || nameIs "_FieldSet" node then None else Some node
  | Some UNION_TYPE_DEFINITION =>
      if nameIs "_Entity" node then None else Some node
  | Some OBJECT_TYPE_DEFINITION | Some OBJECT_TYPE_EXTENSION =>
      typeDefinitionVisitor node
  | _ => Some node
  end.

Definition stripCommonPrimitives (document : Document) : Document :=
  omap stripVisitor document.

Section Composition.

(** The engine's own SDL rules and the composition rule set of
    [./federation/compositionRules]. *)
Variables specifiedSDLRules compositionRules : Rules.

Definition addEntitiesResolver (schema : GraphQLSchema) : Result GraphQLSchema :=
  let entityTypes := entityTypesOf schema in
  (let! queryFields := getFieldsOf schema "Query" in
   match entityTypes with
   | [] => Ok schema
   | _ =>
       let! schema' :=
         (if jsHas "_entities" queryFields then Ok schema
          else
            let! extended := extendSchema specifiedSDLRules true schema
                               (entitiesDocument entityTypes) in
            let! _fields := getFieldsOf extended "Query" in
            Ok extended) in
       Ok (updateFields "Query"
             (setResolve "_entities" (EntitiesResolve unknownTypeFirst)) schema')
   end)%result.

(** Returns the schema together with the SDL the [_service] resolver
    answers with. *)
Definition addServiceResolver (schema : GraphQLSchema)
    : Result (GraphQLSchema * SDL) :=
  (let! queryFields := getFieldsOf schema "Query" in
   let! schema' :=
     (if jsHas "_service" queryFields then Ok schema
      else
        let! extended := extendSchema specifiedSDLRules true schema
                           [serviceFieldExtension] in
        let! _fields := getFieldsOf extended "Query" in
        Ok extended) in
   let! printed := printSchema schema' in
   let strippedDefinitions := stripCommonPrimitives (parse printed) in
   let sdl := stripIgnoredCharacters (print strippedDefinitions) in
   Ok (updateFields "Query" (setResolve "_service" (ServiceResolve sdl)) schema',
       sdl))%result.

(** [schemaExtension.definitions.find(def => def.name.value === 'Query')],
    as a truth value. *)
Fixpoint findNamed (n : string) (defs : Document) : Result bool :=
  match defs with
  | [] => Ok false
  | def :: rest =>
      match def_name def with
      | None => Throw (TypeError "Cannot read property 'value' of undefined")
      | Some m => if String.eqb m n then Ok true else findNamed n rest
      end
  end.

(** The schema handed to the validator. *)
Definition schemaToValidate (originalSchema : GraphQLSchema)
    (schemaExtension : Document) : Result GraphQLSchema :=
  if isSome (getType originalSchema "Query") then Ok originalSchema
  else
    (let! found := findNamed "Query" schemaExtension in
     if found then schemaWithQuery originalSchema "Query" emptyObjectType
     else Ok originalSchema)%result.

(** Everything after the validator has reported no error. *)
Definition mergeValidated (extendedSchema : GraphQLSchema)
    (schemaExtension : Document) (isGateway : bool) : Result GraphQLSchema :=
  (let! extendedSchema :=
     extendSchema specifiedSDLRules true extendedSchema schemaExtension in
   let! extendedSchema :=
     (if isSome (getType extendedSchema "Query") then Ok extendedSchema
      else schemaWithQuery extendedSchema "Query" emptyObjectType) in
   let! extendedSchema :=
     (if isGateway then Ok extendedSchema
      else
        let! withEntities := addEntitiesResolver extendedSchema in
        let! withService := addServiceResolver withEntities in
        Ok (fst withService)) in
   Ok (schemaWithRootsByName extendedSchema))%result.

Definition extendFederationSchema (originalSchema : GraphQLSchema)
    (schemaExtension : Document) (isGateway : bool) : Result GraphQLSchema :=
  (let! extendedSchema := schemaToValidate originalSchema schemaExtension in
   let errors := validateSDL schemaExtension extendedSchema compositionRules in
   let! _checked := raiseCompositionErrors errors in
   mergeValidated extendedSchema schemaExtension isGateway)%result.

Definition buildFederationSchema (schema : SDL) (isGateway : bool)
    : Result GraphQLSchema :=
  let parsedOriginalSchema := parse schema in
  (let! federationSchema :=
     extendSchema specifiedSDLRules false emptySchema
       (if isGateway then BASE_FEDERATION_TYPES else FEDERATION_SCHEMA) in
   extendFederationSchema federationSchema parsedOriginalSchema isGateway)%result.

End Composition.

End First.

(* ================================================================== *)
(** ** Second copy (lines 494-875)                                     *)
(* ================================================================== *)

Module Second.

(** [parse(FEDERATION_SCHEMA)]: here the constant also extends [Query]. *)
Definition FEDERATION_SCHEMA : Document :=
  BASE_FEDERATION_TYPES ++ [serviceTypeDefinition; serviceFieldExtension].

Definition partitionStep (isGateway : bool) (st : Partition)
    (definition : DefinitionNode) : Result Partition :=
  (let! typeName := nameOfDefinition definition in
   let isTypeExtensionByDirective := hasExtendsDirective definition in
   classify isGateway typeName isTypeExtensionByDirective definition st)%result.

Fixpoint partitionLoop (isGateway : bool) (schemaDefinitions : Document)
    (st : Partition) : Result Partition :=
  match schemaDefinitions with
  | [] => Ok st
  | definition :: rest =>
      (let! st' := partitionStep isGateway st definition in
       partitionLoop isGateway rest st')%result
  end.

Definition keepStub (st : Partition) (extensionTypeName : string) : bool :=
  negb (literalTruthy extensionTypeName (definitionsMap st))
  && negb (inb extensionTypeName rootTypeNames).

Definition getStubTypes (schemaDefinitions : Document) (isGateway : bool)
    : Result StubTypes :=
  (let! st := partitionLoop isGateway schemaDefinitions emptyPartition in
   Ok (stubTypesOf (keepStub st) st))%result.

Definition federationDirectiveNames : list string :=
  ["external"; "requires"; "provides"; "key"; "extends"].

(** [query._fields]: present on the classes that have a field map. *)
Definition privateFields (t : GraphQLNamedType)
    : Result (JsMap GraphQLField) :=
  if hasFieldMap (t_class t) then Ok (t_fields t)
  else Throw (TypeError "Cannot read property '_service' of undefined").

(** [getServiceSDL].  The two [delete]s act on the [Query] type object the
    schema itself holds, so the schema handed in is changed as well; it is
    returned next to the SDL. *)
Definition getServiceSDL (schema : GraphQLSchema)
    : Result (SDL * GraphQLSchema) :=
  let directives :=
    List.filter (fun d => negb (existsb (fun n => nameIs n d)
                                        federationDirectiveNames))
                (s_directives schema) in
  let keepType := fun kv : string * GraphQLNamedType =>
    negb (String.eqb (fst kv) "_Any") && negb (String.eqb (fst kv) "_FieldSet") in
  match jsGet "Query" (List.filter keepType (s_types schema)) with
  | None => Throw (TypeError "Cannot read property '_fields' of undefined")
  | Some query =>
      (let! _fields := privateFields query in
       let schema' :=
         updateFields "Query"
           (fun fs => jsDelete "_entities" (jsDelete "_service" fs)) schema in
       let! sdl :=
         printSchema
           (newGraphQLSchema (s_types schema') (s_query schema')
              (s_mutation schema') (s_subscription schema')
              (List.filter keepType (s_types schema')) directives) in
       Ok (sdl, schema'))%result
  end.

Definition addServiceResolver (schema : GraphQLSchema) (originalSchemaSDL : SDL)
    : Result GraphQLSchema :=
  (let! _queryFields := getFieldsOf schema "Query" in
   Ok (updateFields "Query"
         (setResolve "_service" (ServiceResolve originalSchemaSDL)) schema))%result.

Section Composition.

Variables specifiedSDLRules compositionRules : Rules.

Definition addEntitiesResolver (schema : GraphQLSchema) : Result GraphQLSchema :=
  match entityTypesOf schema with
  | [] => Ok schema
  | entityTypes =>
      (let! extended := extendSchema specifiedSDLRules true schema
                          (entitiesDocument entityTypes) in
       let! _queryFields := getFieldsOf extended "Query" in
       Ok (updateFields "Query"
             (setResolve "_entities" (EntitiesResolve unknownTypeSecond))
             extended))%result
  end.

(** The schema handed to the validator: stubs first, then definitions. *)
Definition schemaToValidate (originalSchema : GraphQLSchema)
    (parts : StubTypes) : Result GraphQLSchema :=
  (let! extendedSchema :=
     extendSchema specifiedSDLRules false originalSchema (typeStubs parts) in
   extendSchema specifiedSDLRules false extendedSchema (definitions parts))%result.

(** The service mode tail: [Query] is synthesized when missing, the SDL is
    taken, and the two resolvers are installed. *)
Definition addServiceAndEntities (extendedSchema : GraphQLSchema)
    : Result GraphQLSchema :=
  (let! extendedSchema :=
     (if isSome (getType extendedSchema "Query") then Ok extendedSchema
      else schemaWithQuery extendedSchema "Query" emptyObjectType) in
   let! sdlAndSchema := getServiceSDL extendedSchema in
   let! extendedSchema :=
     addServiceResolver (snd sdlAndSchema) (fst sdlAndSchema) in
   addEntitiesResolver extendedSchema)%result.

(** Everything after the validator has reported no error. *)
Definition mergeValidated (extendedSchema : GraphQLSchema)
    (extensionsDocument : Document) (isGateway : bool)
    : Result GraphQLSchema :=
  (let! extendedSchema :=
     extendSchema specifiedSDLRules true extendedSchema extensionsDocument in
   if isGateway then Ok extendedSchema
   else addServiceAndEntities extendedSchema)%result.

Definition extendFederationSchema (originalSchema : GraphQLSchema)
    (schema : Document) (isGateway : bool) : Result GraphQLSchema :=
  (let! parts := getStubTypes schema isGateway in
   let! extendedSchema := schemaToValidate originalSchema parts in
   let extensionsDocument := extensions parts in
   let errors := validateSDL extensionsDocument extendedSchema compositionRules in
   let! _checked := raiseCompositionErrors errors in
   mergeValidated extendedSchema extensionsDocument isGateway)%result.

Definition buildFederationSchema (schema : SDL) (isGateway : bool)
    : Result GraphQLSchema :=
  (let! federationSchema :=
     extendSchema specifiedSDLRules false emptySchema
       (if isGateway then BASE_FEDERATION_TYPES else FEDERATION_SCHEMA) in
   let parsedSchema := parse schema in
   let! federationSchema :=
     extendFederationSchema federationSchema parsedSchema isGateway in
   Ok (schemaWithRootsByName federationSchema))%result.

End Composition.

End Second.

(* ================================================================== *)
(** ** Both copies under one name                                      *)
(* ================================================================== *)

Inductive Copy : Type :=
| FirstCopy
| SecondCopy.

Definition getStubTypesOf (c : Copy) (schemaDefinitions : Document)
    (isGateway : bool) : Result StubTypes :=
  match c with
  | FirstCopy => First.getStubTypes schemaDefinitions isGateway
  | SecondCopy => Second.getStubTypes schemaDefinitions isGateway
  end.

Definition unknownTypeOf (c : Copy) : JsValue -> Thrown :=
  match c with
  | FirstCopy => unknownTypeFirst
  | SecondCopy => unknownTypeSecond
  end.

Definition extendFederationSchemaOf (c : Copy)
    (specifiedSDLRules compositionRules : Rules)
    (originalSchema : GraphQLSchema) (document : Document) (isGateway : bool)
    : Result GraphQLSchema :=
  match c with
  | FirstCopy =>
      First.extendFederationSchema specifiedSDLRules compositionRules
        originalSchema document isGateway
  | SecondCopy =>
      Second.extendFederationSchema specifiedSDLRules compositionRules
        originalSchema document isGateway
  end.

Definition buildFederationSchemaOf (c : Copy)
    (specifiedSDLRules compositionRules : Rules) (schema : SDL)
    (isGateway : bool) : Result GraphQLSchema :=
  match c with
  | FirstCopy =>
      First.buildFederationSchema specifiedSDLRules compositionRules
        schema isGateway
  | SecondCopy =>
      Second.buildFederationSchema specifiedSDLRules compositionRules
        schema isGateway
  end.

(** The schema and the document each copy hands to the composition
    validator. *)
Definition validatorInputOf (c : Copy) (specifiedSDLRules : Rules)
    (originalSchema : GraphQLSchema) (document : Document) (isGateway : bool)
    : Result (GraphQLSchema * Document) :=
  match c with
  | FirstCopy =>
      (let! s := First.schemaToValidate originalSchema document in
       Ok (s, document))%result
  | SecondCopy =>
      (let! parts := Second.getStubTypes document isGateway in
       let! s := Second.schemaToValidate specifiedSDLRules originalSchema parts in
       Ok (s, extensions parts))%result
  end.

Definition mergeValidatedOf (c : Copy) (specifiedSDLRules : Rules)
    (extendedSchema : GraphQLSchema) (document : Document) (isGateway : bool)
    : Result GraphQLSchema :=
  match c with
  | FirstCopy =>
      First.mergeValidated specifiedSDLRules extendedSchema document isGateway
  | SecondCopy =>
      Second.mergeValidated specifiedSDLRules extendedSchema document isGateway
  end.

(** The errors the composition validator's report is turned into. *)
Definition isCompositionError (e : Thrown) : bool :=
  match e with
  | ThrownError _ | ErrorWithErrors _ _ => true
  | _ => false
  end.

(** Whether a copy synthesizes a missing [Query] type in a mode: the first
    copy always does, the second only in service mode. *)
Definition synthesizesQuery (c : Copy) (isGateway : bool) : bool :=
  match c with
  | FirstCopy => true
  | SecondCopy => negb isGateway
  end.

(** The branch of the partitioner's three way test a declaration takes
    in the second copy: a base definition, or an extension. *)
Definition classifiedAsExtension (definition : DefinitionNode) : bool :=
  negb (isTypeDefinitionNode definition && negb (hasExtendsDirective definition))
  && (isTypeExtensionNode definition
      || (isTypeDefinitionNode definition && hasExtendsDirective definition)).

Definition classifiedAsDefinition (definition : DefinitionNode) : bool :=
  isTypeDefinitionNode definition && negb (hasExtendsDirective definition).

(** The declaration after the in place rewrite of its kind. *)
Definition rewrittenKind (definition : DefinitionNode) : DefinitionNode :=
  if hasExtendsDirective definition
  then withKind (definitionKindToExtensionKind (def_kind definition)) definition
  else definition.

Definition withoutExternal (fs : list FieldDefinitionNode)
    : list FieldDefinitionNode :=
  List.filter (fun fieldDefinition => negb (isExternalField fieldDefinition)) fs.

(** How a collected extension [e] relates to the declaration [d] it was
    collected for. *)
Definition collectedFrom (isGateway : bool) (d e : DefinitionNode) : Prop :=
  def_name e = def_name d
  /\ def_directives e = def_directives d
  /\ def_kind e = def_kind (rewrittenKind d)
  /\ if isGateway
     then exists fs, def_fields d = Some fs
                     /\ def_fields e = Some (withoutExternal fs)
     else def_fields e = def_fields d.

(** What the [_service] resolver installed in a schema answers with. *)
Definition serviceSDLOf (s : GraphQLSchema) : option SDL :=
  match getType s "Query" with
  | Some query =>
      match jsGet "_service" (t_fields query) with
      | Some f =>
          match gf_resolve f with
          | Some (ServiceResolve sdl) => Some sdl
          | _ => None
          end
      | None => None
      end
  | None => None
  end.

Definition isObjectNodeNamed (n : string) (node : DefinitionNode) : bool :=
  (kindIs OBJECT_TYPE_DEFINITION node || kindIs OBJECT_TYPE_EXTENSION node)
  && nameIs n node.

Definition isFederationField (f : FieldDefinitionNode) : bool :=
  inb (fd_name f) ["_service"; "_entities"].

(** A document free of the federation artifacts: no [_Any] or [_FieldSet]
    scalar definition, no [_Entity] union definition, and every object
    node named [Query] has at least one field and none named [_service] or
    [_entities]. *)
Definition withoutFederationArtifacts (document : Document) : Prop :=
  forall node, In node document ->
    (kindIs SCALAR_TYPE_DEFINITION node = true ->
     nameIs "_Any" node = false /\ nameIs "_FieldSet" node = false)
    /\ (kindIs UNION_TYPE_DEFINITION node = true ->
        nameIs "_Entity" node = false)
    /\ (isObjectNodeNamed "Query" node = true ->
        exists fs, def_fields node = Some fs /\ fs <> []
                   /\ forall f, In f fs -> isFederationField f = false).

(** A declaration that extends a type without defining it: extension
    syntax without [@extends], or definition syntax with [@extends]. *)
Definition properExtension (d : DefinitionNode) : bool :=
  (isTypeExtensionNode d && negb (hasExtendsDirective d))
  || (isTypeDefinitionNode d && hasExtendsDirective d).

(** The name [n] is declared in the document, and every type declaration
    of that name is an extension. *)
Definition declaredOnlyByExtension (n : string) (document : Document) : Prop :=
  (exists d, In d document /\ def_name d = Some n /\ properExtension d = true)
  /\ forall d, In d document -> def_name d = Some n ->
               isTypeDefinitionNode d || isTypeExtensionNode d = true ->
               properExtension d = true.

(** The kind recorded in the stub of a declaration. *)
Definition stubKind (d : DefinitionNode) : option Kind :=
  if hasExtendsDirective d then def_kind d
  else extensionKindToDefinitionKind (def_kind d).

(* ================================================================== *)
(** ** Predicates used in the statements                               *)
(* ================================================================== *)

(** Every entry of the extensions map is a record named after its key. *)
Definition keysNamed (m : JsMap DefinitionNode) : Prop :=
  forall kv, In kv m -> def_name (snd kv) = Some (fst kv).

(** A computation that raises, if at all, only errors satisfying [P]. *)
Definition raisesOnly {A} (P : Thrown -> Prop) (r : Result A) : Prop :=
  match r with
  | Ok _ => True
  | Throw e => P e
  end.

Definition notCompositionError (e : Thrown) : Prop :=
  isCompositionError e = false.

Definition hasType (s : GraphQLSchema) (n : string) : bool :=
  jsHas n (s_types s).

(** The invariant of the second copy's loop, for a document [doc]. *)
Record PartitionInv (doc : Document) (st : Partition) : Prop := {
  inv_ext_named : keysNamed (extensionsMap st);
  inv_ext_nodup : List.NoDup (jsKeys (extensionsMap st));
  inv_ext_from :
    forall k stub, jsGet k (extensionsMap st) = Some stub ->
      exists d, In d doc /\ def_name d = Some k
                /\ classifiedAsExtension d = true
                /\ stub = kindAndName (stubKind d) k;
  inv_def_from :
    forall k, jsHas k (definitionsMap st) = true ->
      exists d, In d doc /\ def_name d = Some k
                /\ classifiedAsDefinition d = true;
  inv_def_values :
    forall v, In v (jsValues (definitionsMap st)) ->
      In v doc /\ classifiedAsDefinition v = true;
  inv_directives :
    forall v, In v (directiveDefinitions st) ->
      kindIs DIRECTIVE_DEFINITION v = true
}.


(* ================================================================== *)
(** ** Further predicates used in the statements                       *)
(* ================================================================== *)

(** A [TypeError], as opposed to the other things the module raises. *)
Definition isTypeError (e : Thrown) : bool :=
  match e with
  | TypeError _ => true
  | _ => false
  end.

(** A stub record named after one of the three roots. *)
Definition isRootStub (stub : DefinitionNode) : bool :=
  match def_name stub with
  | Some n => inb n rootTypeNames
  | None => false
  end.

(** [v] is the last declaration of [doc] that the partitioner takes as a
    base definition of the name [n]. *)
Definition lastDefinitionOf (n : string) (doc : Document) (v : DefinitionNode)
    : Prop :=
  def_name v = Some n
  /\ classifiedAsDefinition v = true
  /\ exists pre post,
       doc = pre ++ v :: post
       /\ forall d, In d post -> classifiedAsDefinition d = true ->
                    def_name d <> Some n.

(** What the partitioner's loop has made of the declarations [seen] so
    far, as far as its [definitions] output goes. *)
Definition DefinitionsInv (seen : Document) (st : Partition) : Prop :=
  directiveDefinitions st = List.filter (kindIs DIRECTIVE_DEFINITION) seen
  /\ List.NoDup (jsKeys (definitionsMap st))
  /\ forall k v, jsGet k (definitionsMap st) = Some v <->
                 k <> "__proto__" /\ lastDefinitionOf k seen v.

(** The nodes [stripCommonPrimitives] has a say on: the scalars [_Any]
    and [_FieldSet], the union [_Entity], and the object type definitions
    and extensions named [Query] or [_Service]. *)
Definition isFederationNode (node : DefinitionNode) : bool :=
  (kindIs SCALAR_TYPE_DEFINITION node
   && (nameIs "_Any" node || nameIs "_FieldSet" node))
  || (kindIs UNION_TYPE_DEFINITION node && nameIs "_Entity" node)
  || ((kindIs OBJECT_TYPE_DEFINITION node || kindIs OBJECT_TYPE_EXTENSION node)
      && (nameIs "Query" node || nameIs "_Service" node)).

(** A node that defines a type named [n]. *)
Definition definesTypeNamed (n : string) (d : DefinitionNode) : bool :=
  isTypeDefinitionNode d && nameIs n d.

(** The declarations through which a copy enters a new type into the
    schema: the first copy hands the whole document to the engine, which
    takes every type definition; the second copy hands over, as
    definitions, the base definitions without [@extends]. *)
Definition definesType (c : Copy) (d : DefinitionNode) : bool :=
  match c with
  | FirstCopy => isTypeDefinitionNode d
  | SecondCopy => classifiedAsDefinition d
  end.

(** The root a schema has for the operation named [n], as
    [buildFederationSchema] sets it for a document. *)
Definition rootDefinedBy (c : Copy) (n : string) (document : Document)
    : option string :=
  if existsb (fun d => definesType c d && nameIs n d) document
  then Some n else None.

(** [s'] declares every type name and every directive that [s] declares. *)
Definition keepsDeclarations (s s' : GraphQLSchema) : Prop :=
  (forall n, hasType s n = true -> hasType s' n = true)
  /\ (forall d, In d (s_directives s) -> In d (s_directives s')).

Definition addEntitiesResolverOf (c : Copy) (specifiedSDLRules : Rules)
    (schema : GraphQLSchema) : Result GraphQLSchema :=
  match c with
  | FirstCopy => First.addEntitiesResolver specifiedSDLRules schema
  | SecondCopy => Second.addEntitiesResolver specifiedSDLRules schema
  end.

(** Every field entry of the schema has its type and its arguments, as
    the entries the engine builds do.  (The engine rebuilds the types of a
    schema from these when it extends it, and raises on an entry that
    lacks them.) *)
Definition fieldsComplete (schema : GraphQLSchema) : Prop :=
  forall n type k f,
    In (n, type) (s_types schema) -> In (k, f) (t_fields type) ->
    gf_type f <> None /\ gf_args f <> None.

(** The entry of [Query._entities] once the resolver is installed:
    [_entities(representations: [_Any!]!): [_Entity]!] with its
    [resolve]. *)
Definition entitiesField (c : Copy) : GraphQLField :=
  mkField (Some (NonNullType (ListType (NamedType "_Entity"))))
    (Some [("representations",
            NonNullType (ListType (NonNullType (NamedType "_Any"))))])
    (Some (EntitiesResolve (unknownTypeOf c))).

(** Keys are unique, as they are in a JavaScript object. *)
Definition uniqueKeys {A} (m : JsMap A) : Prop := List.NoDup (jsKeys m).

(** A schema as the engine makes them: one entry per type name, one entry
    per field name in the [Query] type, and nothing but directive
    definitions in the list of directives. *)
Definition wellFormedSchema (schema : GraphQLSchema) : Prop :=
  uniqueKeys (s_types schema)
  /\ (forall query, getType schema "Query" = Some query ->
                    uniqueKeys (t_fields query))
  /\ forall d, In d (s_directives schema) ->
               kindIs DIRECTIVE_DEFINITION d = true.

Definition isFederationDirective (node : DefinitionNode) : bool :=
  kindIs DIRECTIVE_DEFINITION node
  && existsb (fun n => nameIs n node) Second.federationDirectiveNames.

(** The fields of a schema that have a [resolve] function are among those
    [allowed] names, given as type name and field name. *)
Definition resolversOnlyAt (allowed : string -> string -> bool)
    (s : GraphQLSchema) : Prop :=
  forall n t k f,
    In (n, t) (s_types s) -> In (k, f) (t_fields t) ->
    gf_resolve f <> None -> allowed n k = true.

Definition nowhere : string -> string -> bool := fun _ _ => false.

(** [Query._service] and [Query._entities], in service mode. *)
Definition federationResolvers (isGateway : bool) : string -> string -> bool :=
  fun n k =>
    negb isGateway && String.eqb n "Query" && inb k ["_service"; "_entities"].

(** The loop states of the partitioner run in service mode and in gateway
    mode over the same declarations: the same maps and directive
    definitions, and extension for extension the gateway node is the
    service node without its [@external] fields. *)
Definition modesAgree (service gateway : Partition) : Prop :=
  definitionsMap service = definitionsMap gateway
  /\ extensionsMap service = extensionsMap gateway
  /\ directiveDefinitions service = directiveDefinitions gateway
  /\ Forall2 (fun e g => removeExternalFields e = Ok g)
             (extensionsList service) (extensionsList gateway).

(** The declarations the first copy's partitioner collects as extensions
    in gateway mode: of those named after a root, the type definitions
    (which it first turns into extensions); of the others, those
    classified as extensions. *)
Definition firstGatewayCollects (d : DefinitionNode) : bool :=
  match def_name d with
  | Some n =>
      if inb n rootTypeNames then isTypeDefinitionNode d
      else classifiedAsExtension d
  | None => false
  end.

(** The node [e] collected in gateway mode for the declaration [d]: the
    same name and directives, the fields without those that carry
    [@external], and a kind that is no definition kind. *)
Definition gatewayCollected (d e : DefinitionNode) : Prop :=
  def_name e = def_name d
  /\ def_directives e = def_directives d
  /\ isTypeDefinitionNode e = false
  /\ exists fs, def_fields d = Some fs
                /\ def_fields e = Some (withoutExternal fs).

(** The class of type a type declaration is about, in definition syntax
    or in extension syntax. *)
Definition declaredClass (d : DefinitionNode) : option TypeClass :=
  match def_kind d with
  | Some SCALAR_TYPE_DEFINITION | Some SCALAR_TYPE_EXTENSION => Some ScalarType
  | Some OBJECT_TYPE_DEFINITION | Some OBJECT_TYPE_EXTENSION => Some ObjectType
  | Some INTERFACE_TYPE_DEFINITION | Some INTERFACE_TYPE_EXTENSION =>
      Some InterfaceType
  | Some UNION_TYPE_DEFINITION | Some UNION_TYPE_EXTENSION => Some UnionType
  | Some ENUM_TYPE_DEFINITION | Some ENUM_TYPE_EXTENSION => Some EnumType
  | Some INPUT_OBJECT_TYPE_DEFINITION | Some INPUT_OBJECT_TYPE_EXTENSION =>
      Some InputObjectType
  | _ => None
  end.

(** A field the declarations of the name [n] contribute to the composed
    type: a field of a type declaration named [n] and, in gateway mode,
    one that does not carry [@external]. *)
Definition contributedField (isGateway : bool) (n : string)
    (document : Document) (f : FieldDefinitionNode) : Prop :=
  exists d,
    In d document /\ def_name d = Some n
    /\ isTypeDefinitionNode d || isTypeExtensionNode d = true
    /\ In f (fieldsOfNode d)
    /\ (isGateway = true -> isExternalField f = false).
(* ================================================================== *)
(** ** Sample inputs                                                   *)
(* ================================================================== *)

(** A validator that reports nothing. *)
Definition noErrors : Rules := fun _ _ => [].

Definition keyDirective : DirectiveNode := mkDirective "key" [("fields", "id")].

Definition externalDirective : DirectiveNode := mkDirective "external" [].

(** [type User @key(fields: "id") { id: ID }]. *)
Definition userDefinition : DefinitionNode :=
  objectDefinition "User" [keyDirective] [mkFieldDef "id" [] (NamedType "ID") []].

(** [extend type User @key(fields: "id") { id: ID @external  posts: Int }]. *)
Definition userExtension : DefinitionNode :=
  objectExtension "User" [keyDirective]
    [ mkFieldDef "id" [] (NamedType "ID") [externalDirective];
      mkFieldDef "posts" [] (NamedType "Int") [] ].

(** [extend type User @key(fields: "id") { id: ID @external }]. *)
Definition userExternalOnly : DefinitionNode :=
  objectExtension "User" [keyDirective]
    [ mkFieldDef "id" [] (NamedType "ID") [externalDirective] ].

(** [extend type Query { me: User }]. *)
Definition queryExtension : DefinitionNode :=
  objectExtension "Query" [] [mkFieldDef "me" [] (NamedType "User") []].

(** A document whose [Query] and [User] types appear only as extensions,
    and what the second copy's partitioner returns for it in gateway mode. *)
Definition extensionOnlyDocument : Document := [queryExtension; userExtension].

Definition extensionOnlyParts : StubTypes :=
  Eval vm_compute in
    match Second.getStubTypes extensionOnlyDocument true with
    | Ok out => out
    | Throw _ => mkStubTypes [] [] []
    end.

(** A schema to resolve entities against: [User] resolves a reference to a
    new object at once, [Post] to a promise of the object at heap address
    [1], [Count] to the number [7]; [Stamp] is a scalar. *)
Definition userResolver : Resolver :=
  fun _ _ _ => alloc (plainObject [("name", VString "Ada")]).

Definition postResolver : Resolver :=
  fun _ _ _ => alloc (mkObject [] true None (Some (Fulfils (VRef 1)))).

Definition countResolver : Resolver :=
  fun _ _ _ => eret (VNumber 7).

Definition resolvingSchema : GraphQLSchema :=
  mkSchema (Some "Query") None None
    [ ("Query", emptyObjectType);
      ("User", mkType ObjectType [] [] (Some userDefinition) [] (Some userResolver));
      ("Post", mkType ObjectType [] [] None [] (Some postResolver));
      ("Count", mkType ObjectType [] [] None [] (Some countResolver));
      ("Plain", mkType ObjectType [] [] None [] None);
      ("Stamp", mkType ScalarType [] [] None [] None) ]
    [].

Definition representation (typename : string) (id : Z) : JsObject :=
  plainObject [("__typename", VString typename); ("id", VNumber id)].

(** Three representations: a [User], one of a type the schema lacks, and a
    second [User]. *)
Definition heapWithUnknown : Heap :=
  [representation "User" 1; representation "Nope" 2; representation "User" 3].

(** Three representations: a [User], a [Post] and a [Plain]. *)
Definition heapMixed : Heap :=
  [representation "User" 1; representation "Post" 2; representation "Plain" 3].

Definition noUserCode : nat -> JsValue -> list JsValue -> Exec JsValue :=
  fun _ _ _ => eret VUndefined.

(** The object a resolver returns, once tagged. *)
Definition taggedAda : JsObject :=
  mkObject [ ("name", plainProperty (VString "Ada"));
             ("__typename", mkProperty (VString "User") false false false) ]
           true None None.

(** A composition rule set that reports two errors on every document. *)
Definition firstIssue : GraphQLError := mkGraphQLError "Unknown type Review." [(3, 7)].

Definition secondIssue : GraphQLError := mkGraphQLError "Unknown directive @keys." [(5, 1)].

Definition twoErrors : Rules := fun _ _ => [firstIssue; secondIssue].

(** A base schema as [buildFederationSchema] makes it in gateway mode, and
    what the second copy hands to the validator for the document
    [extend type User ...] on top of it. *)
Definition gatewayBaseSchema : GraphQLSchema :=
  extendSchemaImpl emptySchema BASE_FEDERATION_TYPES.

Definition userExtensionValidatorInput : GraphQLSchema * Document :=
  Eval vm_compute in
    match validatorInputOf SecondCopy noErrors gatewayBaseSchema
            [userExtension] true with
    | Ok input => input
    | Throw _ => (emptySchema, [])
    end.

(** What the two copies build in gateway mode for a document that declares
    no [Query] type: [type User @key(fields: "id") { id: ID }]. *)
Definition userOnlySDL : SDL := Printed [userDefinition].

Definition firstGatewayUserSchema : GraphQLSchema :=
  Eval vm_compute in
    match buildFederationSchemaOf FirstCopy noErrors noErrors userOnlySDL true with
    | Ok s => s
    | Throw _ => emptySchema
    end.

Definition secondGatewayUserSchema : GraphQLSchema :=
  Eval vm_compute in
    match buildFederationSchemaOf SecondCopy noErrors noErrors userOnlySDL true with
    | Ok s => s
    | Throw _ => emptySchema
    end.

(** A schema that already holds the federation types and
    [type Query { _service: _Service! }], and a document that adds a plain
    type to it: [type Profile { id: ID }]. *)
Definition serviceQueryDefinition : DefinitionNode :=
  objectDefinition "Query" []
    [mkFieldDef "_service" [] (NonNullType (NamedType "_Service")) []].

Definition serviceBaseSchema : GraphQLSchema :=
  extendSchemaImpl emptySchema
    (BASE_FEDERATION_TYPES ++ [serviceTypeDefinition; serviceQueryDefinition]).

Definition profileDefinition : DefinitionNode :=
  objectDefinition "Profile" [] [mkFieldDef "id" [] (NamedType "ID") []].

(** What the second copy composes in gateway mode from
    [extend type User @key(fields: "id") { id: ID @external }]. *)
Definition gatewayExternalOnlySchema : GraphQLSchema :=
  Eval vm_compute in
    match extendFederationSchemaOf SecondCopy noErrors noErrors
            gatewayBaseSchema [userExternalOnly] true with
    | Ok s => s
    | Throw _ => emptySchema
    end.

(** A schema that already holds an [_Entity] union next to the federation
    types, and a document that adds [type Review { id: ID }] to it. *)
Definition schemaWithEntityUnion : GraphQLSchema :=
  extendSchemaImpl serviceBaseSchema
    [profileDefinition; unionDefinition "_Entity" ["Profile"]].

Definition reviewDefinition : DefinitionNode :=
  objectDefinition "Review" [] [mkFieldDef "id" [] (NamedType "ID") []].


(* ================================================================== *)
(** ** Further sample inputs                                           *)
(* ================================================================== *)

(** [schema { query: Query }]: a declaration without a name. *)
Definition schemaBlock : DefinitionNode :=
  mkDefinition (Some SCHEMA_DEFINITION) None (Some []) None [] [].

Definition extendsDirective : DirectiveNode := mkDirective "extends" [].

(** [extend type User @extends { posts: Int }]: extension syntax and the
    directive together. *)
Definition userExtendedTwice : DefinitionNode :=
  objectExtension "User" [extendsDirective]
    [mkFieldDef "posts" [] (NamedType "Int") []].

(** [type User { id: ID }] followed by [type User { name: String }]. *)
Definition userFirstDefinition : DefinitionNode :=
  objectDefinition "User" [] [mkFieldDef "id" [] (NamedType "ID") []].

Definition userLastDefinition : DefinitionNode :=
  objectDefinition "User" [] [mkFieldDef "name" [] (NamedType "String") []].

(** A heap with one representation of a [Plain], whose type has no
    reference resolver. *)
Definition heapPlain : Heap := [representation "Plain" 3].

(** A heap with a value and two promises, one that fulfils with the value
    and one that rejects with it. *)
Definition heapPromises : Heap :=
  [ plainObject [("title", VString "Hello")];
    mkObject [] true None (Some (Fulfils (VRef 0)));
    mkObject [] true None (Some (Rejects (VString "offline"))) ].

(** A type whose reference resolver finds nothing. *)
Definition nullResolver : Resolver := fun _ _ _ => eret VNull.

Definition schemaWithMissing : GraphQLSchema :=
  mkSchema (Some "Query") None None
    [ ("Query", emptyObjectType);
      ("Missing", mkType ObjectType [] [] None [] (Some nullResolver)) ]
    [].

(** A schema with an object type keyed on its definition, one keyed on an
    extension, an interface that carries [@key] and a plain object type. *)
Definition keyedSchema : GraphQLSchema :=
  mkSchema (Some "Query") None None
    [ ("Query", emptyObjectType);
      ("User", mkType ObjectType [] [] (Some userDefinition) [] None);
      ("Account",
       mkType ObjectType [] []
         (Some (objectDefinition "Account" [] []))
         [objectExtension "Account" [keyDirective] []] None);
      ("Node",
       mkType InterfaceType [] []
         (Some (mkDefinition (Some INTERFACE_TYPE_DEFINITION) (Some "Node")
                  (Some [keyDirective]) (Some []) [] [])) [] None);
      ("Plain", mkType ObjectType [] [] (Some (objectDefinition "Plain" [] []))
                  [] None) ]
    [].

(** [type Query { version: String }] and [type Mutation { add: Int }]. *)
Definition versionQueryDefinition : DefinitionNode :=
  objectDefinition "Query" [] [mkFieldDef "version" [] (NamedType "String") []].

Definition mutationDefinition : DefinitionNode :=
  objectDefinition "Mutation" [] [mkFieldDef "add" [] (NamedType "Int") []].

Definition operationsDocument : Document :=
  [versionQueryDefinition; mutationDefinition].

(** What the second copy builds from it in gateway mode. *)
Definition secondGatewayOperationsSchema : GraphQLSchema :=
  Eval vm_compute in
    match buildFederationSchemaOf SecondCopy noErrors noErrors
            (print operationsDocument) true with
    | Ok s => s
    | Throw _ => emptySchema
    end.

(** What the first copy extends the gateway base schema to for
    [type User @key(fields: "id") { id: ID }]. *)
Definition firstGatewayExtendedSchema : GraphQLSchema :=
  Eval vm_compute in
    match extendFederationSchemaOf FirstCopy noErrors noErrors
            gatewayBaseSchema [userDefinition] true with
    | Ok s => s
    | Throw _ => emptySchema
    end.

(** The gateway base schema with [type Query { me: User }] and the keyed
    [User]. *)
Definition meQueryDefinition : DefinitionNode :=
  objectDefinition "Query" [] [mkFieldDef "me" [] (NamedType "User") []].

Definition keyedUserSchema : GraphQLSchema :=
  extendSchemaImpl gatewayBaseSchema [meQueryDefinition; userDefinition].

(** What [getServiceSDL] returns for the schema whose [Query] holds
    [_service] only: the SDL and the schema as the call leaves it. *)
Definition serviceBaseSDL : SDL * GraphQLSchema :=
  Eval vm_compute in
    match Second.getServiceSDL serviceBaseSchema with
    | Ok r => r
    | Throw _ => (Printed [], emptySchema)
    end.

Definition keyedUserQuery : GraphQLNamedType :=
  Eval vm_compute in
    match getType keyedUserSchema "Query" with
    | Some query => query
    | None => emptyObjectType
    end.

Definition serviceBaseQuery : GraphQLNamedType :=
  Eval vm_compute in
    match getType serviceBaseSchema "Query" with
    | Some query => query
    | None => emptyObjectType
    end.

(** What the second copy composes in service mode from
    [type Profile { id: ID }] onto the schema whose [Query] holds
    [_service] only. *)
Definition secondServiceProfileSchema : GraphQLSchema :=
  Eval vm_compute in
    match extendFederationSchemaOf SecondCopy noErrors noErrors
            serviceBaseSchema [profileDefinition] false with
    | Ok s => s
    | Throw _ => emptySchema
    end.

(** What the second copy's partitioner returns in service mode for the
    document whose types appear only as extensions. *)
Definition extensionOnlyServiceParts : StubTypes :=
  Eval vm_compute in
    match Second.getStubTypes extensionOnlyDocument false with
    | Ok out => out
    | Throw _ => mkStubTypes [] [] []
    end.

(** A heap with one plain object, not yet tagged. *)
Definition heapAda : Heap := [plainObject [("name", VString "Ada")]].

(** What the first copy's [addServiceResolver] returns for the schema
    whose [Query] was declared with [_service: _Service!]. *)
Definition firstServiceResolved : GraphQLSchema * SDL :=
  Eval vm_compute in
    match First.addServiceResolver noErrors serviceBaseSchema with
    | Ok r => r
    | Throw _ => (emptySchema, Printed [])
    end.

(** [type Query { me: User }] followed by [extend type Query { me: User }],
    and what the first copy's partitioner returns for the two in gateway
    mode. *)
Definition queryTwiceDocument : Document := [meQueryDefinition; queryExtension].

Definition queryTwiceParts : StubTypes :=
  Eval vm_compute in
    match First.getStubTypes queryTwiceDocument true with
    | Ok out => out
    | Throw _ => mkStubTypes [] [] []
    end.

(** [extend union SearchResult = User]: an extension without field list. *)
Definition searchResultExtension : DefinitionNode :=
  mkDefinition (Some UNION_TYPE_EXTENSION) (Some "SearchResult") (Some [])
    None ["User"] [].

(** [Object.freeze({})]. *)
Definition frozenObject : JsObject := mkObject [] false None None.

(** [type Query { me: User }] followed by
    [extend type User @key(fields: "id") { id: ID @external  posts: Int }]:
    [User] is declared by extension only.  What the second copy's
    partitioner returns for the two in gateway mode, and what the second
    copy composes from them onto the gateway base schema. *)
Definition queryAndUserExtension : Document := [meQueryDefinition; userExtension].

Definition queryAndUserExtensionParts : StubTypes :=
  Eval vm_compute in
    match Second.getStubTypes queryAndUserExtension true with
    | Ok out => out
    | Throw _ => mkStubTypes [] [] []
    end.

Definition gatewayQueryAndUserSchema : GraphQLSchema :=
  Eval vm_compute in
    match Second.extendFederationSchema noErrors noErrors
            gatewayBaseSchema queryAndUserExtension true with
    | Ok s => s
    | Throw _ => emptySchema
    end.

Definition postsField : FieldDefinitionNode :=
  mkFieldDef "posts" [] (NamedType "Int") [].
(* ================================================================== *)
(** ** Lemmas on maps                                                  *)
(* ================================================================== *)

Lemma jsGet_jsSet_eq {A} (k : string) (v : A) (m : JsMap A) :
  jsGet k (jsSet k v m) = Some v.
Proof.
  induction m as [|[k' v'] m IH]; simpl.
  - now rewrite String.eqb_refl.
  - destruct (String.eqb k k') eqn:E; simpl; rewrite E; auto.
Qed.

Lemma jsGet_jsSet_ne {A} (k k' : string) (v : A) (m : JsMap A) :
  k <> k' -> jsGet k' (jsSet k v m) = jsGet k' m.
Proof.
  intros Hne. induction m as [|[k0 v0] m IH]; simpl.
  - destruct (String.eqb k' k) eqn:E; auto.
    apply String.eqb_eq in E. congruence.
  - destruct (String.eqb k k0) eqn:E; simpl.
    + apply String.eqb_eq in E. subst k0.
      destruct (String.eqb k' k) eqn:E'; auto.
      apply String.eqb_eq in E'. congruence.
    + destruct (String.eqb k' k0); auto.
Qed.

Lemma jsGet_jsSet {A} (k k' : string) (v : A) (m : JsMap A) :
  jsGet k' (jsSet k v m) = if String.eqb k k' then Some v else jsGet k' m.
Proof.
  destruct (String.eqb k k') eqn:E.
  - apply String.eqb_eq in E. subst. apply jsGet_jsSet_eq.
  - apply String.eqb_neq in E. now apply jsGet_jsSet_ne.
Qed.

Lemma In_jsSet {A} (k : string) (v : A) (m : JsMap A) (kv : string * A) :
  In kv (jsSet k v m) -> kv = (k, v) \/ In kv m.
Proof.
  induction m as [|[k' v'] m IH]; simpl.
  - intros [H|[]]; auto.
  - destruct (String.eqb k k') eqn:E; simpl.
    + apply String.eqb_eq in E. subst k'. intros [H|H]; auto.
    + intros [H|H]; auto. destruct (IH H); auto.
Qed.

Lemma jsGet_In {A} (k : string) (v : A) (m : JsMap A) :
  jsGet k m = Some v -> In (k, v) m.
Proof.
  induction m as [|[k' v'] m IH]; simpl; [discriminate|].
  destruct (String.eqb k k') eqn:E.
  - apply String.eqb_eq in E. intros [= ->]. subst. now left.
  - intros H. right. auto.
Qed.

Lemma jsGet_None_notin {A} (k : string) (m : JsMap A) :
  jsGet k m = None -> ~ In k (jsKeys m).
Proof.
  induction m as [|[k' v'] m IH]; simpl; [tauto|].
  destruct (String.eqb k k') eqn:E; [discriminate|].
  apply String.eqb_neq in E. intros H [H'|H']; [congruence|]. now apply IH.
Qed.

Lemma jsGet_app {A} (k : string) (m1 m2 : JsMap A) :
  jsGet k (m1 ++ m2) = match jsGet k m1 with
                       | Some v => Some v
                       | None => jsGet k m2
                       end.
Proof.
  induction m1 as [|[k' v'] m1 IH]; simpl; auto.
  destruct (String.eqb k k'); auto.
Qed.

Lemma jsHas_jsSet {A} (k k' : string) (v : A) (m : JsMap A) :
  jsHas k' m = true -> jsHas k' (jsSet k v m) = true.
Proof.
  unfold jsHas. rewrite jsGet_jsSet. destruct (String.eqb k k'); auto.
Qed.

Lemma inb_In (k : string) (l : list string) : inb k l = true <-> In k l.
Proof.
  unfold inb. rewrite existsb_exists. split.
  - intros (x & Hx & E). apply String.eqb_eq in E. now subst.
  - intros H. exists k. split; auto. apply String.eqb_refl.
Qed.

(* ================================================================== *)
(** ** Lemmas on the engine's [extendSchema]                           *)
(* ================================================================== *)

Lemma extendTypes_Ok s doc s' :
  extendTypes s doc = Ok s' -> s' = extendSchemaImpl s doc.
Proof.
  unfold extendTypes, extendSchemaImpl.
  destruct (nothingToExtend doc); [now intros [= <-]|].
  destruct (rebuildsTypes s); [now intros [= <-]|discriminate].
Qed.

(** What [extendSchema] returns, when it returns. *)
Lemma extendSchema_Ok rules b s doc s' :
  extendSchema rules b s doc = Ok s' -> s' = extendSchemaImpl s doc.
Proof.
  unfold extendSchema. destruct b; [apply extendTypes_Ok|].
  destruct (validateSDL doc s rules); [apply extendTypes_Ok|discriminate].
Qed.

(** [extendSchema] raises a [TypeError] or what the validator reported. *)
Lemma extendTypes_Throw s doc e :
  extendTypes s doc = Throw e ->
  e = TypeError "Cannot read property 'reduce' of undefined"
  /\ nothingToExtend doc = false /\ rebuildsTypes s = false.
Proof.
  unfold extendTypes.
  destruct (nothingToExtend doc); [discriminate|].
  destruct (rebuildsTypes s); [discriminate|]. now intros [= <-].
Qed.

(** In a hypothesis [H] that runs [extendSchema] and returns, the call is
    replaced by the schema it returned. *)
Ltac extendSchema_in H :=
  match type of H with
  | context [extendSchema ?r ?b ?s ?d] =>
      let sx := fresh "sx" in
      let Ex := fresh "Ex" in
      destruct (extendSchema r b s d) as [sx|] eqn:Ex;
      cbn [rbind] in H; [|discriminate H];
      apply extendSchema_Ok in Ex; subst sx
  end.

(** The same in a goal that runs [extendSchema] and supposes it returns. *)
Ltac extendSchema_goal :=
  match goal with
  | |- context [extendSchema ?r ?b ?s ?d] =>
      let sx := fresh "sx" in
      let Ex := fresh "Ex" in
      destruct (extendSchema r b s d) as [sx|] eqn:Ex;
      cbn [rbind]; [apply extendSchema_Ok in Ex; subst sx|discriminate]
  end.

(* ================================================================== *)
(** ** The partitioner                                                 *)
(* ================================================================== *)


Lemma keysNamed_literalSet (n : string) (k : option Kind)
    (m : JsMap DefinitionNode) :
  keysNamed m -> keysNamed (literalSet n (kindAndName k n) m).
Proof.
  intros Hm kv Hin. unfold literalSet in Hin.
  destruct (String.eqb n "__proto__"); [now apply Hm|].
  apply In_jsSet in Hin as [->|Hin]; [reflexivity|now apply Hm].
Qed.

Lemma classify_keysNamed gw n isExt d st st' :
  keysNamed (extensionsMap st) ->
  classify gw n isExt d st = Ok st' ->
  keysNamed (extensionsMap st').
Proof.
  intros Hst. unfold classify.
  destruct (isTypeDefinitionNode d && negb isExt).
  { intros [= <-]. exact Hst. }
  destruct (isTypeExtensionNode d || isTypeDefinitionNode d && isExt).
  { destruct (if gw then _ else _) as [pushed|e]; simpl; [|discriminate].
    intros [= <-]. simpl. now apply keysNamed_literalSet. }
  destruct (kindIs DIRECTIVE_DEFINITION d); intros [= <-]; exact Hst.
Qed.

Lemma Second_partitionLoop_keysNamed gw defs st st' :
  keysNamed (extensionsMap st) ->
  Second.partitionLoop gw defs st = Ok st' ->
  keysNamed (extensionsMap st').
Proof.
  revert st. induction defs as [|d defs IH]; simpl; intros st Hst.
  - intros [= <-]. exact Hst.
  - unfold Second.partitionStep, nameOfDefinition.
    destruct (def_name d) as [n|]; simpl; [|discriminate].
    destruct (classify gw n (hasExtendsDirective d) d st) as [st1|e] eqn:E;
      simpl; [|discriminate].
    apply IH. eapply classify_keysNamed; eauto.
Qed.

Lemma withoutExternal_spec (fs : list FieldDefinitionNode) f :
  In f (withoutExternal fs) <-> In f fs /\ isExternalField f = false.
Proof.
  unfold withoutExternal. rewrite filter_In.
  destruct (isExternalField f); simpl; intuition congruence.
Qed.

(** One step of the second copy's loop adds to the extensions list exactly
    the node collected for a declaration classified as an extension. *)
Lemma Second_partitionStep_extensions gw st d st' :
  Second.partitionStep gw st d = Ok st' ->
  exists es,
    extensionsList st' = extensionsList st ++ es
    /\ Forall2 (collectedFrom gw)
               (if classifiedAsExtension d then [d] else []) es.
Proof.
  unfold Second.partitionStep, nameOfDefinition, classify, classifiedAsExtension.
  destruct (def_name d) as [n|] eqn:En; simpl; [|discriminate].
  destruct (isTypeDefinitionNode d && negb (hasExtendsDirective d)); simpl.
  { intros [= <-]. exists []. simpl. rewrite app_nil_r. split; auto. }
  destruct (isTypeExtensionNode d
            || isTypeDefinitionNode d && hasExtendsDirective d); simpl.
  2:{ destruct (kindIs DIRECTIVE_DEFINITION d); intros [= <-]; exists [];
      simpl; rewrite ?app_nil_r; split; auto. }
  unfold removeExternalFields, rewrittenKind.
  destruct gw.
  - destruct (hasExtendsDirective d) eqn:Ex; simpl;
      destruct (def_fields d) as [fs|] eqn:Ef; simpl; try discriminate;
      intros [= <-]; simpl; eexists; split; try reflexivity;
      constructor; auto;
      unfold collectedFrom, rewrittenKind; rewrite Ex; simpl;
      (repeat split; auto); exists fs; auto.
  - intros [= <-]. simpl. eexists; split; [reflexivity|].
    constructor; auto. unfold collectedFrom, rewrittenKind.
    destruct (hasExtendsDirective d); simpl; auto.
Qed.

Lemma Second_partitionLoop_extensions gw defs st st' :
  Second.partitionLoop gw defs st = Ok st' ->
  exists es,
    extensionsList st' = extensionsList st ++ es
    /\ Forall2 (collectedFrom gw) (List.filter classifiedAsExtension defs) es.
Proof.
  revert st. induction defs as [|d defs IH]; simpl; intros st.
  - intros [= <-]. exists []. rewrite app_nil_r. split; auto.
  - destruct (Second.partitionStep gw st d) as [st1|e] eqn:E; simpl;
      [|discriminate].
    intros Hloop.
    apply Second_partitionStep_extensions in E as (es1 & E1 & F1).
    apply IH in Hloop as (es2 & E2 & F2).
    exists (es1 ++ es2). split.
    + rewrite E2, E1. now rewrite app_assoc.
    + destruct (classifiedAsExtension d).
      * change (Forall2 (collectedFrom gw)
                  ([d] ++ List.filter classifiedAsExtension defs) (es1 ++ es2)).
        apply Forall2_app; assumption.
      * inversion F1; subst. exact F2.
Qed.

(** The extensions list of the second copy, against the declarations
    classified as extensions. *)
Lemma Second_getStubTypes_collected
    (schemaDefinitions : Document) (isGateway : bool) (out : StubTypes) :
  Second.getStubTypes schemaDefinitions isGateway = Ok out ->
  Forall2 (collectedFrom isGateway)
          (List.filter classifiedAsExtension schemaDefinitions)
          (extensions out).
Proof.
  unfold Second.getStubTypes.
  destruct (Second.partitionLoop isGateway schemaDefinitions emptyPartition)
    as [st|e] eqn:E; simpl; [|discriminate].
  intros [= <-]. simpl.
  apply Second_partitionLoop_extensions in E as (es & -> & F).
  exact F.
Qed.

(** When the loop body returns: the declaration has a name, and, in
    gateway mode, an extension has a field list to filter. *)
Lemma Second_partitionStep_returns gw st d :
  def_name d <> None ->
  (gw = true -> classifiedAsExtension d = true -> def_fields d <> None) ->
  exists st', Second.partitionStep gw st d = Ok st'.
Proof.
  intros Hname Hfields.
  unfold Second.partitionStep, nameOfDefinition, classify,
    classifiedAsExtension in *.
  destruct (def_name d) as [n|]; [|congruence]. simpl.
  destruct (isTypeDefinitionNode d && negb (hasExtendsDirective d)); simpl in *;
    [eauto|].
  destruct (isTypeExtensionNode d
            || isTypeDefinitionNode d && hasExtendsDirective d); simpl in *.
  2:{ destruct (kindIs DIRECTIVE_DEFINITION d); eauto. }
  destruct gw; [|simpl; eauto].
  unfold removeExternalFields.
  destruct (hasExtendsDirective d); simpl;
    destruct (def_fields d) as [fs|]; simpl; eauto;
    exfalso; now apply Hfields.
Qed.

(** C3: the partitioner the module runs is the second copy's
    [getStubTypes] (the first copy's is never called: its one call, at
    line 386, is commented out, and the module exports the second copy's
    functions).  For every document and in both modes, no entry of its
    [typeStubs] output is named [Query], [Mutation] or [Subscription]. *)
Theorem C3_second_copy_never_stubs_a_root
    (schemaDefinitions : Document) (isGateway : bool) (out : StubTypes) :
  Second.getStubTypes schemaDefinitions isGateway = Ok out ->
  Forall (fun stub => forall n, def_name stub = Some n ->
                                inb n rootTypeNames = false)
         (typeStubs out).
Proof.
  unfold Second.getStubTypes.
  destruct (Second.partitionLoop isGateway schemaDefinitions emptyPartition)
    as [st|e] eqn:E; simpl; [|discriminate].
  intros [= <-]. simpl.
  assert (Hnamed : keysNamed (extensionsMap st)).
  { eapply Second_partitionLoop_keysNamed; [|exact E]. intros kv []. }
  apply List.Forall_forall. intros stub Hin n Hn.
  apply in_map_iff in Hin as ([k v] & <- & Hin).
  apply filter_In in Hin as [Hin Hkeep].
  apply Hnamed in Hin. simpl in *.
  assert (k = n) by congruence. subst k.
  unfold Second.keepStub in Hkeep.
  apply andb_true_iff in Hkeep as [_ Hroot].
  now apply negb_true_iff in Hroot.
Qed.

(** The theorem at a document whose [Query] and [User] appear only as
    extensions, in gateway mode. *)
Lemma C3_second_copy_witness :
  Second.getStubTypes extensionOnlyDocument true = Ok extensionOnlyParts
  /\ Forall (fun stub => forall n, def_name stub = Some n ->
                                   inb n rootTypeNames = false)
            (typeStubs extensionOnlyParts).
Proof.
  split; [reflexivity|].
  apply (C3_second_copy_never_stubs_a_root extensionOnlyDocument true).
  reflexivity.
Defined.

(** C8: the extensions list holds, in source order, one node per
    declaration classified as an extension; in gateway mode its fields are
    the declaration's fields without those carrying [@external], in
    service mode its fields are the declaration's. *)
Theorem C8_gateway_drops_external_fields
    (schemaDefinitions : Document) (isGateway : bool) (out : StubTypes) :
  Second.getStubTypes schemaDefinitions isGateway = Ok out ->
  Forall2 (collectedFrom isGateway)
          (List.filter classifiedAsExtension schemaDefinitions)
          (extensions out).
Proof.
  unfold Second.getStubTypes.
  destruct (Second.partitionLoop isGateway schemaDefinitions emptyPartition)
    as [st|e] eqn:E; simpl; [|discriminate].
  intros [= <-]. simpl.
  apply Second_partitionLoop_extensions in E as (es & -> & F).
  exact F.
Qed.

(** The theorem at [extend type User ... { id: ID @external  posts: Int }]
    in gateway mode. *)
Lemma C8_gateway_witness :
  Second.getStubTypes extensionOnlyDocument true = Ok extensionOnlyParts
  /\ Forall2 (collectedFrom true)
             (List.filter classifiedAsExtension extensionOnlyDocument)
             (extensions extensionOnlyParts).
Proof.
  split; [reflexivity|].
  apply (C8_gateway_drops_external_fields extensionOnlyDocument true).
  reflexivity.
Defined.

(* ================================================================== *)
(** ** The [_entities] resolver                                        *)
(* ================================================================== *)

Lemma JsValue_eqb_eq (a b : JsValue) : JsValue_eqb a b = true -> a = b.
Proof.
  destruct a, b; simpl; try discriminate; auto; intros H.
  - now apply Bool.eqb_prop in H as ->.
  - now apply Z.eqb_eq in H as ->.
  - now apply String.eqb_eq in H as ->.
  - now apply Nat.eqb_eq in H as ->.
Qed.

Lemma getProperty_heap (v : JsValue) (k : string) (h : Heap) :
  snd (getProperty v k h) = h.
Proof.
  unfold getProperty. destruct v; simpl; auto.
  destruct (h !! l); auto.
Qed.

Lemma arrayMap_nil {A B} (f : A -> Exec B) (h : Heap) :
  arrayMap f [] h = (Ok [], h).
Proof. reflexivity. Qed.

Lemma arrayMap_cons {A B} (f : A -> Exec B) (x : A) (xs : list A) (h : Heap) :
  arrayMap f (x :: xs) h =
  match f x h with
  | (Ok y, h1) =>
      match arrayMap f xs h1 with
      | (Ok ys, h2) => (Ok (y :: ys), h2)
      | (Throw e, h2) => (Throw e, h2)
      end
  | (Throw e, h1) => (Throw e, h1)
  end.
Proof.
  simpl. unfold ebind, eret. destruct (f x h) as [[y|e] h1]; auto.
Qed.

(** A throw in the callback ends [map]: nothing after it is visited and no
    array is produced. *)
Lemma arrayMap_app_throw {A B} (f : A -> Exec B) (pre post : list A) (x : A)
    (h h1 h2 : Heap) (outs : list B) (e : Thrown) :
  arrayMap f pre h = (Ok outs, h1) ->
  f x h1 = (Throw e, h2) ->
  arrayMap f (pre ++ x :: post) h = (Throw e, h2).
Proof.
  revert h outs. induction pre as [|p pre IH]; intros h outs.
  - rewrite arrayMap_nil. intros [= <- <-] Hx. simpl app.
    rewrite arrayMap_cons, Hx. reflexivity.
  - rewrite arrayMap_cons. simpl app. rewrite arrayMap_cons.
    destruct (f p h) as [[y|e'] h'] ; [|discriminate].
    destruct (arrayMap f pre h') as [[ys|e'] h''] eqn:E; [|discriminate].
    intros [= <- <-] Hx. erewrite IH; eauto.
Qed.

(** What [map] returns: an array as long as its input whose element at
    each position is what the callback returned for the input element at
    that position, in the heap left by the elements before it; or the
    first throw of the callback. *)
Lemma arrayMap_spec {A B} (f : A -> Exec B) (l : list A) (h : Heap) :
  match arrayMap f l h with
  | (Ok out, h') =>
      length out = length l
      /\ forall i x, l !! i = Some x ->
           exists hi hi' y,
             arrayMap f (take i l) h = (Ok (take i out), hi)
             /\ f x hi = (Ok y, hi')
             /\ out !! i = Some y
  | (Throw e, h') =>
      exists i x hi outs,
        l !! i = Some x
        /\ arrayMap f (take i l) h = (Ok outs, hi)
        /\ f x hi = (Throw e, h')
  end.
Proof.
  revert h. induction l as [|x xs IH]; intros h.
  - rewrite arrayMap_nil. split; [reflexivity|]. intros i x Hi.
    destruct i; discriminate.
  - rewrite arrayMap_cons. destruct (f x h) as [[y|e] h1] eqn:Ex.
    + specialize (IH h1).
      destruct (arrayMap f xs h1) as [[ys|e] h2] eqn:Exs.
      * destruct IH as [Hlen Hpos]. split; [simpl; congruence|].
        intros [|i] x' Hi; simpl in Hi.
        -- injection Hi as <-. exists h, h1, y. repeat split; auto.
        -- destruct (Hpos i x' Hi) as (hi & hi' & y' & Ht & Hf & Ho).
           exists hi, hi', y'. repeat split; auto.
           cbn [take]. rewrite arrayMap_cons, Ex, Ht. reflexivity.
      * destruct IH as (i & x' & hi & outs & Hi & Ht & Hf).
        exists (S i), x', hi, (y :: outs). repeat split; auto.
        cbn [take]. rewrite arrayMap_cons, Ex, Ht. reflexivity.
    + exists 0, x, h, []. repeat split; auto.
Qed.

(** A representation whose type name is no object type of the schema. *)
Lemma resolveRepresentation_unknown callUser unknownType schema context
    reference typename h :
  fst (getProperty reference "__typename" h) = Ok typename ->
  (forall type, getType schema (toStringJs typename) = Some type ->
                isObjectType type = false) ->
  resolveRepresentation callUser unknownType schema context reference h
  = (Throw (unknownType typename), h).
Proof.
  intros Hname Hty. unfold resolveRepresentation, ebind.
  pose proof (getProperty_heap reference "__typename" h) as Hh.
  destruct (getProperty reference "__typename" h) as [r h0]. simpl in *.
  subst r h0.
  destruct (getType schema (toStringJs typename)) as [type|] eqn:E; auto.
  rewrite (Hty type eq_refl). reflexivity.
Qed.

(** The deferred value test on a primitive: falsy values skip it, truthy
    ones make the [in] operator raise. *)
Lemma tagResult_primitive callUser (result typename : JsValue) (h : Heap) :
  isPrimitive result = true ->
  tagResult callUser result typename h =
  if truthy result
  then (Throw (TypeError "Cannot use 'in' operator to search for 'then'"), h)
  else (Ok result, h).
Proof.
  unfold tagResult, truthy, addTypeNameToResult.
  destruct result; simpl; try discriminate; intros _; auto.
Qed.

(** The deferred value test on an object: [then] is called exactly when the
    object has a [then] property, own or inherited, that is a function. *)
Lemma tagResult_object callUser (l : nat) (o : JsObject) (typename : JsValue)
    (h : Heap) :
  h !! l = Some o ->
  tagResult callUser (VRef l) typename h =
  match (if hasThen o then thenMethod h o else None) with
  | Some m => callThen callUser m (VRef l) l typename h
  | None => addTypeNameToResult (VRef l) typename h
  end.
Proof.
  intros Ho. unfold tagResult. simpl. rewrite Ho.
  destruct (hasThen o); auto.
Qed.

(** C4, as stated, fails: with the representations [User], [Nope], [User]
    the call as a whole raises the unknown type error for [Nope].  No array
    is returned, the result resolved for the first [User] is dropped, and
    the resolver of the second [User] is never called (the heap holds the
    argument object and the result of one resolver call only). *)
Lemma C4_unknown_type_aborts_siblings :
  entitiesResolve noUserCode (unknownTypeOf FirstCopy) resolvingSchema
    VUndefined [VRef 0; VRef 1; VRef 2] heapWithUnknown
  = (Throw (MER_ERR_GQL_GATEWAY_INVALID_SCHEMA (VString "Nope")),
     heapWithUnknown ++ [emptyObject; taggedAda]).
Proof. reflexivity. Qed.

(** C4 (amended): when the representations before position [i] resolve and
    the one at position [i] names a type that is absent from the schema or
    is not an object type, the whole call raises the unknown type error
    that names this type; the representations after it are not resolved
    (the heap is the one left by the representations before it). *)
Theorem C4_unknown_type_fails_the_call
    (callUser : nat -> JsValue -> list JsValue -> Exec JsValue) (c : Copy)
    (schema : GraphQLSchema) (context : JsValue)
    (pre post : list JsValue) (reference typename : JsValue)
    (h h1 : Heap) (outs : list JsValue) :
  entitiesResolve callUser (unknownTypeOf c) schema context pre h
    = (Ok outs, h1) ->
  fst (getProperty reference "__typename" h1) = Ok typename ->
  (forall type, getType schema (toStringJs typename) = Some type ->
                isObjectType type = false) ->
  entitiesResolve callUser (unknownTypeOf c) schema context
    (pre ++ reference :: post) h
  = (Throw (unknownTypeOf c typename), h1).
Proof.
  intros Hpre Hname Hty. unfold entitiesResolve in *.
  eapply arrayMap_app_throw; [exact Hpre|].
  now apply resolveRepresentation_unknown.
Qed.

(** The theorem at the representations [User], [Nope], [User]. *)
Lemma C4_unknown_type_witness :
  entitiesResolve noUserCode (unknownTypeOf SecondCopy) resolvingSchema
    VUndefined ([VRef 0] ++ VRef 1 :: [VRef 2]) heapWithUnknown
  = (Throw (unknownTypeOf SecondCopy (VString "Nope")),
     heapWithUnknown ++ [emptyObject; taggedAda]).
Proof.
  apply (C4_unknown_type_fails_the_call noUserCode SecondCopy resolvingSchema
           VUndefined [VRef 0] [VRef 2] (VRef 1) (VString "Nope")
           heapWithUnknown (heapWithUnknown ++ [emptyObject; taggedAda])
           [VRef 4]).
  - reflexivity.
  - reflexivity.
  - intros type H. vm_compute in H. discriminate.
Defined.

(** C5: whenever the resolver returns, its array is as long as
    [representations] and the element at each position is what the
    callback returned for the representation at that position (the tagged
    value, or the promise made by [then] for a deferred one), run in the
    heap left by the representations before it.  It fails to return only
    when the callback raises for some representation. *)
Theorem C5_entities_keep_length_and_order
    (callUser : nat -> JsValue -> list JsValue -> Exec JsValue) (c : Copy)
    (schema : GraphQLSchema) (context : JsValue)
    (representations : list JsValue) (h : Heap) :
  match entitiesResolve callUser (unknownTypeOf c) schema context
          representations h with
  | (Ok out, h') =>
      length out = length representations
      /\ forall i reference, representations !! i = Some reference ->
           exists hi hi' v,
             entitiesResolve callUser (unknownTypeOf c) schema context
               (take i representations) h = (Ok (take i out), hi)
             /\ resolveRepresentation callUser (unknownTypeOf c) schema
                  context reference hi = (Ok v, hi')
             /\ out !! i = Some v
  | (Throw e, h') =>
      exists i reference hi outs,
        representations !! i = Some reference
        /\ entitiesResolve callUser (unknownTypeOf c) schema context
             (take i representations) h = (Ok outs, hi)
        /\ resolveRepresentation callUser (unknownTypeOf c) schema context
             reference hi = (Throw e, h')
  end.
Proof. unfold entitiesResolve. apply arrayMap_spec. Qed.

(** An immediate value, a deferred value and the default resolver in one
    call: three results in input order, the second one the promise made by
    [then]; settled, that promise yields the value the [Post] resolver
    promised, tagged [Post]. *)
Example entities_mixed_immediate_and_deferred :
  exists h',
    entitiesResolve noUserCode (unknownTypeOf FirstCopy) resolvingSchema
      VUndefined [VRef 0; VRef 1; VRef 2] heapMixed
    = (Ok [VRef 4; VRef 8; VRef 2], h')
    /\ exists h'',
         settle noUserCode 3 8 h' = (Ok (VRef 1), h'')
         /\ (o_props <$> h'' !! 1)
            = Some [ ("__typename", plainProperty (VString "Post"));
                     ("id", plainProperty (VNumber 2)) ].
Proof.
  eexists. split; [vm_compute; reflexivity|].
  eexists. split; vm_compute; reflexivity.
Qed.

(** C9: a reference resolver that returns a truthy primitive makes the
    resolution of its representation raise a [TypeError] (from
    ['then' in result]) instead of yielding the primitive. *)
Theorem C9_truthy_primitive_raises
    (callUser : nat -> JsValue -> list JsValue -> Exec JsValue)
    (unknownType : JsValue -> Thrown)
    (schema : GraphQLSchema) (context reference typename p : JsValue)
    (type : GraphQLNamedType) (resolveReference : Resolver) (h h' : Heap) :
  fst (getProperty reference "__typename" h) = Ok typename ->
  getType schema (toStringJs typename) = Some type ->
  isObjectType type = true ->
  t_resolveReference type = Some resolveReference ->
  resolveReference reference (VRef (length h)) context (h ++ [emptyObject])
    = (Ok p, h') ->
  isPrimitive p = true ->
  truthy p = true ->
  resolveRepresentation callUser unknownType schema context reference h
  = (Throw (TypeError "Cannot use 'in' operator to search for 'then'"), h').
Proof.
  intros Hname Hty Hobj Hres Hcall Hprim Htruthy.
  unfold resolveRepresentation, ebind.
  pose proof (getProperty_heap reference "__typename" h) as Hh.
  destruct (getProperty reference "__typename" h) as [r h0]. simpl in *.
  subst r h0. rewrite Hty, Hobj, Hres. unfold alloc. rewrite Hcall.
  rewrite tagResult_primitive by assumption. now rewrite Htruthy.
Qed.

(** The theorem at a type whose resolver returns the number [7]. *)
Lemma C9_truthy_primitive_witness :
  resolveRepresentation noUserCode unknownTypeFirst resolvingSchema VUndefined
    (VRef 0) [representation "Count" 1]
  = (Throw (TypeError "Cannot use 'in' operator to search for 'then'"),
     [representation "Count" 1; emptyObject]).
Proof.
  apply (C9_truthy_primitive_raises noUserCode unknownTypeFirst resolvingSchema
           VUndefined (VRef 0) (VString "Count") (VNumber 7)
           (mkType ObjectType [] [] None [] (Some countResolver)) countResolver
           [representation "Count" 1] [representation "Count" 1; emptyObject]);
    reflexivity.
Defined.

(** C10, as stated, fails for an object that already has an own
    [__typename] property, as every representation does (and the default
    reference resolver returns the representation itself):
    [defineProperty] with [{ value }] alone keeps the attributes the
    property has, so it stays enumerable, writable and configurable. *)
Lemma C10_own_typename_stays_enumerable :
  addTypeNameToResult (VRef 0) (VString "User") [representation "User" 1]
  = (Ok (VRef 0), [representation "User" 1])
  /\ jsGet "__typename" (o_props (representation "User" 1))
     = Some (mkProperty (VString "User") true true true).
Proof. split; reflexivity. Qed.

(** C10 (amended): whenever [addTypeNameToResult] returns, it returns the
    value it was given.  A value that is [null], not an object, or a
    function is left untouched.  A non-null object is changed in place and
    in its [__typename] property only, and ends with an own [__typename]
    holding the type name: a new property is non-writable, non-enumerable
    and non-configurable, an existing one keeps its attributes.  The call
    raises a [TypeError], changing nothing, when the object is not
    extensible and has no such property, or has one that is neither
    configurable nor writable and holds another value; in no other case
    does it raise. *)
Theorem C10_addTypeNameToResult_tags_in_place
    (result typename : JsValue) (h : Heap) :
  (forall l o,
     result = VRef l -> h !! l = Some o -> o_call o = None ->
     match jsGet "__typename" (o_props o) with
     | None => o_extensible o = false
     | Some q =>
         p_configurable q = false /\ p_writable q = false
         /\ JsValue_eqb (p_value q) typename = false
     end ->
     exists what,
       addTypeNameToResult result typename h = (Throw (TypeError what), h))
  /\ match addTypeNameToResult result typename h with
     | (Ok v, h') =>
         v = result
         /\ if isNonNullObject h result then
              exists l o o',
                result = VRef l /\ h !! l = Some o /\ h' = <[l := o']> h
                /\ (exists p,
                      jsGet "__typename" (o_props o') = Some p
                      /\ p_value p = typename
                      /\ match jsGet "__typename" (o_props o) with
                         | None =>
                             o_extensible o = true
                             /\ p = mkProperty typename false false false
                         | Some q =>
                             (p_configurable q = true \/ p_writable q = true
                              \/ JsValue_eqb (p_value q) typename = true)
                             /\ p_writable p = p_writable q
                             /\ p_enumerable p = p_enumerable q
                             /\ p_configurable p = p_configurable q
                         end)
                /\ (forall k, k <> "__typename" ->
                               jsGet k (o_props o') = jsGet k (o_props o))
                /\ o_extensible o' = o_extensible o
                /\ o_call o' = o_call o
                /\ o_promise o' = o_promise o
            else h' = h
     | (Throw e, h') =>
         h' = h
         /\ (exists what, e = TypeError what)
         /\ exists l o,
              result = VRef l /\ h !! l = Some o /\ o_call o = None
              /\ match jsGet "__typename" (o_props o) with
                 | None => o_extensible o = false
                 | Some q =>
                     p_configurable q = false /\ p_writable q = false
                     /\ JsValue_eqb (p_value q) typename = false
                 end
     end.
Proof.
  split.
  - intros l o -> Ho Hc Hrefuses.
    unfold addTypeNameToResult, defineValueProperty. rewrite Ho, Hc.
    cbn [isSome].
    destruct (jsGet "__typename" (o_props o)) as [q|].
    + destruct Hrefuses as (-> & -> & ->). cbn [orb]. eauto.
    + rewrite Hrefuses. eauto.
  - unfold addTypeNameToResult, isNonNullObject.
    destruct result as [| | | | |l]; try (split; reflexivity).
    destruct (h !! l) as [o|] eqn:Ho; [|split; reflexivity].
    destruct (o_call o) as [code|] eqn:Hc; cbn [isSome negb];
      [split; reflexivity|].
    unfold defineValueProperty.
    destruct (jsGet "__typename" (o_props o)) as [q|] eqn:Hq.
    + destruct (p_configurable q || p_writable q) eqn:Hcw.
      * split; [reflexivity|]. eexists l, o, _.
        split; [reflexivity|]. split; [exact Ho|]. split; [reflexivity|].
        cbn [withProps o_props o_extensible o_call o_promise].
        split; [|split; [|auto]].
        -- eexists. rewrite jsGet_jsSet_eq. split; [reflexivity|].
           split; [reflexivity|]. rewrite Hq. cbn.
           apply orb_true_iff in Hcw. repeat split; tauto.
        -- intros k Hk. apply jsGet_jsSet_ne. congruence.
      * destruct (JsValue_eqb (p_value q) typename) eqn:Heq.
        -- split; [reflexivity|]. exists l, o, o.
           split; [reflexivity|]. split; [exact Ho|]. split; [reflexivity|].
           split; [|auto].
           exists q. rewrite Hq. split; [reflexivity|].
           split; [now apply JsValue_eqb_eq|]. repeat split; auto.
        -- split; [reflexivity|]. split; [eauto|]. exists l, o. rewrite Hq.
           apply orb_false_iff in Hcw as [Hcfg Hwr]. repeat split; auto.
    + destruct (o_extensible o) eqn:Hext.
      * split; [reflexivity|]. eexists l, o, _.
        split; [reflexivity|]. split; [exact Ho|]. split; [reflexivity|].
        cbn [withProps o_props o_extensible o_call o_promise].
        split; [|split; [|auto]].
        -- eexists. rewrite jsGet_app, Hq. cbn. split; [reflexivity|].
           split; [reflexivity|]. split; [exact Hext|reflexivity].
        -- intros k Hk. rewrite jsGet_app.
           destruct (jsGet k (o_props o)); [reflexivity|]. cbn.
           destruct (String.eqb k "__typename") eqn:E; [|reflexivity].
           apply String.eqb_eq in E. congruence.
      * split; [reflexivity|]. split; [eauto|]. exists l, o. rewrite Hq. auto.
Qed.

(** The theorem at a frozen empty object: the call raises. *)
Lemma C10_frozen_object_witness :
  exists what,
    addTypeNameToResult (VRef 0) (VString "User") [frozenObject]
    = (Throw (TypeError what), [frozenObject]).
Proof.
  apply (proj1 (C10_addTypeNameToResult_tags_in_place (VRef 0) (VString "User")
                  [frozenObject]) 0 frozenObject); reflexivity.
Defined.

(* ================================================================== *)
(** ** Composition                                                     *)
(* ================================================================== *)


Lemma raisesOnly_bind {A B} (P : Thrown -> Prop) (r : Result A)
    (k : A -> Result B) :
  raisesOnly P r -> (forall a, r = Ok a -> raisesOnly P (k a)) ->
  raisesOnly P (rbind r k).
Proof. destruct r; simpl; auto. Qed.


Lemma extendSchema_assumeValid_raises rules s d :
  raisesOnly notCompositionError (extendSchema rules true s d).
Proof.
  unfold extendSchema, extendTypes.
  destruct (nothingToExtend d); [exact I|].
  destruct (rebuildsTypes s); [exact I|reflexivity].
Qed.

Lemma schemaWithQuery_raises s n t :
  raisesOnly notCompositionError (schemaWithQuery s n t).
Proof. unfold schemaWithQuery. destruct (jsHas n (s_types s)); simpl; reflexivity. Qed.

Lemma getFieldsOf_raises s n :
  raisesOnly notCompositionError (getFieldsOf s n).
Proof.
  unfold getFieldsOf, getFields. destruct (getType s n) as [t|]; simpl;
    [destruct (hasFieldMap (t_class t))|]; simpl; reflexivity.
Qed.

Lemma mapResult_raises {A B} (P : Thrown -> Prop) (f : A -> Result B) l :
  (forall a, raisesOnly P (f a)) -> raisesOnly P (mapResult f l).
Proof.
  intros Hf. induction l as [|x xs IH]; simpl; auto.
  apply raisesOnly_bind; auto. intros y _.
  apply raisesOnly_bind; auto. intros ys _. exact I.
Qed.

Lemma printSchema_raises s :
  raisesOnly notCompositionError (printSchema s).
Proof.
  unfold printSchema. apply raisesOnly_bind; [|intros; exact I].
  apply mapResult_raises. intros kv. unfold printType.
  apply raisesOnly_bind; [|intros; exact I].
  destruct (hasFieldMap (t_class (snd kv))); [|exact I].
  apply raisesOnly_bind; [|intros; exact I].
  apply mapResult_raises. intros f. unfold printField.
  destruct (gf_args (snd f)); simpl; reflexivity.
Qed.

Lemma First_addEntitiesResolver_raises rules s :
  raisesOnly notCompositionError (First.addEntitiesResolver rules s).
Proof.
  unfold First.addEntitiesResolver.
  apply raisesOnly_bind; [apply getFieldsOf_raises|]. intros fs _.
  destruct (entityTypesOf s); [exact I|].
  apply raisesOnly_bind; [|intros; exact I].
  destruct (jsHas "_entities" fs); [exact I|].
  apply raisesOnly_bind; [apply extendSchema_assumeValid_raises|]. intros s' _.
  apply raisesOnly_bind; [apply getFieldsOf_raises|]. intros; exact I.
Qed.

Lemma First_addServiceResolver_raises rules s :
  raisesOnly notCompositionError (First.addServiceResolver rules s).
Proof.
  unfold First.addServiceResolver.
  apply raisesOnly_bind; [apply getFieldsOf_raises|]. intros fs _.
  apply raisesOnly_bind.
  { destruct (jsHas "_service" fs); [exact I|].
    apply raisesOnly_bind; [apply extendSchema_assumeValid_raises|]. intros s' _.
    apply raisesOnly_bind; [apply getFieldsOf_raises|]. intros; exact I. }
  intros s' _. apply raisesOnly_bind; [apply printSchema_raises|].
  intros; exact I.
Qed.

Lemma First_mergeValidated_raises rules s d gw :
  raisesOnly notCompositionError (First.mergeValidated rules s d gw).
Proof.
  unfold First.mergeValidated.
  apply raisesOnly_bind; [apply extendSchema_assumeValid_raises|]. intros s1 _.
  apply raisesOnly_bind.
  { destruct (isSome (getType s1 "Query")); [exact I|].
    apply schemaWithQuery_raises. }
  intros s2 _. apply raisesOnly_bind; [|intros; exact I].
  destruct gw; [exact I|].
  apply raisesOnly_bind; [apply First_addEntitiesResolver_raises|]. intros s3 _.
  apply raisesOnly_bind; [apply First_addServiceResolver_raises|].
  intros; exact I.
Qed.

Lemma Second_getServiceSDL_raises s :
  raisesOnly notCompositionError (Second.getServiceSDL s).
Proof.
  unfold Second.getServiceSDL.
  destruct (jsGet "Query" _) as [query|]; [|reflexivity].
  apply raisesOnly_bind.
  { unfold Second.privateFields.
    destruct (hasFieldMap (t_class query)); simpl; reflexivity. }
  intros _ _. apply raisesOnly_bind; [apply printSchema_raises|].
  intros; exact I.
Qed.

Lemma Second_addEntitiesResolver_raises rules s :
  raisesOnly notCompositionError (Second.addEntitiesResolver rules s).
Proof.
  unfold Second.addEntitiesResolver.
  destruct (entityTypesOf s); [exact I|].
  apply raisesOnly_bind; [apply extendSchema_assumeValid_raises|]. intros s' _.
  apply raisesOnly_bind; [apply getFieldsOf_raises|]. intros; exact I.
Qed.

Lemma Second_mergeValidated_raises rules s d gw :
  raisesOnly notCompositionError (Second.mergeValidated rules s d gw).
Proof.
  unfold Second.mergeValidated.
  apply raisesOnly_bind; [apply extendSchema_assumeValid_raises|]. intros s1 _.
  destruct gw; [exact I|]. unfold Second.addServiceAndEntities.
  apply raisesOnly_bind.
  { destruct (isSome (getType s1 "Query")); [exact I|].
    apply schemaWithQuery_raises. }
  intros s2 _. apply raisesOnly_bind; [apply Second_getServiceSDL_raises|].
  intros p _. apply raisesOnly_bind.
  { unfold Second.addServiceResolver.
    apply raisesOnly_bind; [apply getFieldsOf_raises|]. intros; exact I. }
  intros s3 _. apply Second_addEntitiesResolver_raises.
Qed.

Lemma mergeValidatedOf_raises c rules s d gw :
  raisesOnly notCompositionError (mergeValidatedOf c rules s d gw).
Proof.
  destruct c; [apply First_mergeValidated_raises|apply Second_mergeValidated_raises].
Qed.

(** [extendFederationSchema] is the validator's verdict followed by the
    merge. *)
Lemma extendFederationSchemaOf_unfold c sdlRules compRules orig doc gw s0 d0 :
  validatorInputOf c sdlRules orig doc gw = Ok (s0, d0) ->
  extendFederationSchemaOf c sdlRules compRules orig doc gw =
  rbind (raiseCompositionErrors (validateSDL d0 s0 compRules))
        (fun _ => mergeValidatedOf c sdlRules s0 d0 gw).
Proof.
  destruct c; simpl.
  - unfold First.extendFederationSchema.
    destruct (First.schemaToValidate orig doc) as [s|e]; simpl; [|discriminate].
    intros [= <- <-]. reflexivity.
  - unfold Second.extendFederationSchema.
    destruct (Second.getStubTypes doc gw) as [parts|e]; simpl; [|discriminate].
    destruct (Second.schemaToValidate sdlRules orig parts) as [s|e]; simpl;
      [|discriminate].
    intros [= <- <-]. reflexivity.
Qed.

(** C2: with exactly one error the error itself is raised; with two or
    more, one error carrying the whole list in order; with none, the
    merge runs and whatever it may raise is not a composition error. *)
Theorem C2_composition_error_policy
    (c : Copy) (specifiedSDLRules compositionRules : Rules)
    (originalSchema : GraphQLSchema) (document : Document) (isGateway : bool)
    (extendedSchema : GraphQLSchema) (validated : Document) :
  validatorInputOf c specifiedSDLRules originalSchema document isGateway
    = Ok (extendedSchema, validated) ->
  match validateSDL validated extendedSchema compositionRules with
  | [] =>
      extendFederationSchemaOf c specifiedSDLRules compositionRules
        originalSchema document isGateway
      = mergeValidatedOf c specifiedSDLRules extendedSchema validated isGateway
      /\ forall e,
           extendFederationSchemaOf c specifiedSDLRules compositionRules
             originalSchema document isGateway = Throw e ->
           isCompositionError e = false
  | [e] =>
      extendFederationSchemaOf c specifiedSDLRules compositionRules
        originalSchema document isGateway = Throw (ThrownError e)
  | errors =>
      extendFederationSchemaOf c specifiedSDLRules compositionRules
        originalSchema document isGateway
      = Throw (ErrorWithErrors schemaIssuesMessage errors)
  end.
Proof.
  intros Hin.
  rewrite (extendFederationSchemaOf_unfold c _ compositionRules _ _ _ _ _ Hin).
  destruct (validateSDL validated extendedSchema compositionRules)
    as [|e1 [|e2 rest]]; simpl; auto.
  split; [reflexivity|]. intros e He.
  pose proof (mergeValidatedOf_raises c specifiedSDLRules extendedSchema
                validated isGateway) as Hr.
  rewrite He in Hr. exact Hr.
Qed.

(** The theorem at a rule set that reports two errors. *)
Lemma C2_two_errors_witness :
  extendFederationSchemaOf SecondCopy noErrors twoErrors gatewayBaseSchema
    [userExtension] true
  = Throw (ErrorWithErrors schemaIssuesMessage [firstIssue; secondIssue]).
Proof.
  exact (C2_composition_error_policy SecondCopy noErrors twoErrors
           gatewayBaseSchema [userExtension] true
           (fst userExtensionValidatorInput) (snd userExtensionValidatorInput)
           eq_refl).
Defined.

(** *** The [Query] root *)


Lemma jsGet_map_extendExisting doc n (m : JsMap GraphQLNamedType) :
  jsGet n (map (extendExisting doc) m)
  = option_map (extendNamedType (typeExtensionsOf doc n)) (jsGet n m).
Proof.
  induction m as [|[k t] m IH]; simpl; auto.
  destruct (String.eqb n k) eqn:E; auto.
  apply String.eqb_eq in E. now subst.
Qed.

Lemma jsHas_addTypeDefinition doc n m d :
  jsHas n m = true -> jsHas n (addTypeDefinition doc m d) = true.
Proof.
  intros H. unfold addTypeDefinition.
  destruct (def_name d) as [k|]; auto.
  destruct (def_kind d) as [kd|]; auto.
  destruct (classOfKind kd); auto. now apply jsHas_jsSet.
Qed.

Lemma jsHas_fold_addTypeDefinition doc n defs m :
  jsHas n m = true ->
  jsHas n (fold_left (addTypeDefinition doc) defs m) = true.
Proof.
  revert m. induction defs as [|d defs IH]; simpl; auto.
  intros m H. apply IH. now apply jsHas_addTypeDefinition.
Qed.

Lemma hasType_extendSchemaImpl s doc n :
  hasType s n = true -> hasType (extendSchemaImpl s doc) n = true.
Proof.
  unfold hasType, extendSchemaImpl. intros H.
  destruct (nothingToExtend doc); auto. simpl.
  apply jsHas_fold_addTypeDefinition. unfold jsHas in *.
  rewrite jsGet_map_extendExisting. destruct (jsGet n (s_types s)); auto.
Qed.

Lemma hasType_extendSchema rules b s doc s' n :
  extendSchema rules b s doc = Ok s' ->
  hasType s n = true -> hasType s' n = true.
Proof.
  intros H. apply extendSchema_Ok in H as ->. apply hasType_extendSchemaImpl.
Qed.

Lemma hasType_updateFields k f s n :
  hasType (updateFields k f s) n = hasType s n.
Proof.
  unfold hasType, updateFields.
  destruct (jsGet k (s_types s)) as [t|] eqn:E; auto. simpl.
  unfold jsHas. rewrite jsGet_jsSet.
  destruct (String.eqb k n) eqn:Ek; auto.
  apply String.eqb_eq in Ek. subst. now rewrite E.
Qed.

Lemma getFieldsOf_hasType s n fs :
  getFieldsOf s n = Ok fs -> hasType s n = true.
Proof.
  unfold getFieldsOf, hasType, jsHas, getType.
  destruct (jsGet n (s_types s)); [reflexivity|discriminate].
Qed.

Lemma hasType_schemaWithQuery s n t s' :
  schemaWithQuery s n t = Ok s' -> hasType s' n = true.
Proof.
  unfold schemaWithQuery. destruct (jsHas n (s_types s)) eqn:E; [discriminate|].
  intros [= <-]. unfold hasType, jsHas in *. simpl.
  rewrite jsGet_app. destruct (jsGet n (s_types s)); [discriminate|].
  simpl. now rewrite String.eqb_refl.
Qed.

(** After the synthesis step a type named [Query] exists. *)
Lemma hasType_after_synthesis s s' :
  (if isSome (getType s "Query") then Ok s
   else schemaWithQuery s "Query" emptyObjectType) = Ok s' ->
  hasType s' "Query" = true.
Proof.
  unfold getType, hasType, jsHas.
  destruct (jsGet "Query" (s_types s)) as [t|] eqn:E; simpl.
  - intros [= <-]. now rewrite E.
  - intros H. now apply hasType_schemaWithQuery in H.
Qed.

Lemma First_addEntitiesResolver_hasQuery rules s s' :
  First.addEntitiesResolver rules s = Ok s' -> hasType s' "Query" = true.
Proof.
  unfold First.addEntitiesResolver.
  destruct (getFieldsOf s "Query") as [fs|e] eqn:Ef; simpl; [|discriminate].
  apply getFieldsOf_hasType in Ef.
  destruct (entityTypesOf s) as [|n ns]; [now intros [= <-]|].
  destruct (jsHas "_entities" fs); simpl.
  - intros [= <-]. now rewrite hasType_updateFields.
  - destruct (extendSchema rules true s (entitiesDocument (n :: ns)))
      as [sx|e]; simpl; [|discriminate].
    destruct (getFieldsOf sx "Query") as [fs'|e] eqn:Ef'; simpl; [|discriminate].
    intros [= <-]. rewrite hasType_updateFields.
    now apply getFieldsOf_hasType in Ef'.
Qed.

Lemma First_addServiceResolver_hasQuery rules s s' sdl :
  First.addServiceResolver rules s = Ok (s', sdl) -> hasType s' "Query" = true.
Proof.
  unfold First.addServiceResolver.
  destruct (getFieldsOf s "Query") as [fs|e] eqn:Ef; simpl; [|discriminate].
  apply getFieldsOf_hasType in Ef.
  destruct (jsHas "_service" fs); simpl.
  - destruct (printSchema s); simpl; [|discriminate].
    intros [= <- _]. now rewrite hasType_updateFields.
  - destruct (extendSchema rules true s [serviceFieldExtension])
      as [sx|e]; simpl; [|discriminate].
    destruct (getFieldsOf sx "Query") as [fs'|e] eqn:Ef'; simpl; [|discriminate].
    destruct (printSchema _); simpl; [|discriminate].
    intros [= <- _]. rewrite hasType_updateFields.
    now apply getFieldsOf_hasType in Ef'.
Qed.

Lemma First_mergeValidated_root rules s0 doc gw s :
  First.mergeValidated rules s0 doc gw = Ok s ->
  exists x, s = schemaWithRootsByName x /\ hasType x "Query" = true.
Proof.
  unfold First.mergeValidated.
  destruct (extendSchema rules true s0 doc) as [s1|e]; simpl; [|discriminate].
  destruct (if isSome (getType s1 "Query") then _ else _)
    as [s2|e] eqn:E2; simpl; [|discriminate].
  apply hasType_after_synthesis in E2.
  destruct gw; simpl.
  - intros [= <-]. eauto.
  - destruct (First.addEntitiesResolver rules s2) as [s3|e] eqn:E3; simpl;
      [|discriminate].
    destruct (First.addServiceResolver rules s3) as [[s4 sdl]|e] eqn:E4; simpl;
      [|discriminate].
    intros [= <-]. apply First_addServiceResolver_hasQuery in E4. eauto.
Qed.

Lemma Second_getServiceSDL_hasType s sdl s' n :
  Second.getServiceSDL s = Ok (sdl, s') -> hasType s' n = hasType s n.
Proof.
  unfold Second.getServiceSDL.
  destruct (jsGet "Query" _) as [query|]; [|discriminate].
  destruct (Second.privateFields query); simpl; [|discriminate].
  destruct (printSchema _); simpl; [|discriminate].
  intros [= _ <-]. apply hasType_updateFields.
Qed.

Lemma Second_addEntitiesResolver_hasQuery rules s s' :
  Second.addEntitiesResolver rules s = Ok s' ->
  hasType s "Query" = true -> hasType s' "Query" = true.
Proof.
  unfold Second.addEntitiesResolver.
  destruct (entityTypesOf s) as [|n ns]; [now intros [= <-]|].
  destruct (extendSchema rules true s _) as [sx|e]; simpl; [|discriminate].
  destruct (getFieldsOf _ "Query") as [fs|e] eqn:Ef; simpl; [|discriminate].
  intros [= <-] _. rewrite hasType_updateFields.
  now apply getFieldsOf_hasType in Ef.
Qed.

Lemma Second_addServiceAndEntities_hasQuery rules s s' :
  Second.addServiceAndEntities rules s = Ok s' -> hasType s' "Query" = true.
Proof.
  unfold Second.addServiceAndEntities.
  destruct (if isSome (getType s "Query") then _ else _) as [s2|e] eqn:E2;
    simpl; [|discriminate].
  apply hasType_after_synthesis in E2.
  destruct (Second.getServiceSDL s2) as [[sdl s3]|e] eqn:E3; simpl;
    [|discriminate].
  rewrite <- (Second_getServiceSDL_hasType _ _ _ "Query" E3) in E2.
  unfold Second.addServiceResolver.
  destruct (getFieldsOf s3 "Query"); simpl; [|discriminate].
  intros H. eapply Second_addEntitiesResolver_hasQuery; [exact H|].
  now rewrite hasType_updateFields.
Qed.

Lemma getQueryType_schemaWithRootsByName x :
  getQueryType (schemaWithRootsByName x)
  = getType (schemaWithRootsByName x) "Query".
Proof.
  unfold getQueryType, schemaWithRootsByName, rootNamed, getType, jsHas. simpl.
  destruct (jsGet "Query" (s_types x)) eqn:E; simpl; auto.
Qed.

Lemma query_root_schemaWithRootsByName x :
  hasType x "Query" = true ->
  exists t, getQueryType (schemaWithRootsByName x) = Some t
            /\ s_query (schemaWithRootsByName x) = Some "Query".
Proof.
  unfold hasType, getQueryType, schemaWithRootsByName, rootNamed, getType, jsHas.
  simpl. destruct (jsGet "Query" (s_types x)) as [t|] eqn:E; [|discriminate].
  intros _. exists t. simpl. now rewrite E.
Qed.

(** Every schema a copy builds takes its roots from its type map; when the
    copy synthesizes [Query] in the mode at hand, the type is there. *)
Lemma buildFederationSchemaOf_roots c sdlRules compRules schema gw s :
  buildFederationSchemaOf c sdlRules compRules schema gw = Ok s ->
  exists x, s = schemaWithRootsByName x
            /\ (synthesizesQuery c gw = true -> hasType x "Query" = true).
Proof.
  destruct c; simpl.
  - unfold First.buildFederationSchema, First.extendFederationSchema.
    destruct (extendSchema sdlRules false emptySchema _) as [s0|e]; simpl;
      [|discriminate].
    destruct (First.schemaToValidate s0 (parse schema)) as [s1|e]; simpl;
      [|discriminate].
    destruct (raiseCompositionErrors _); simpl; [|discriminate].
    intros H. apply First_mergeValidated_root in H as (x & -> & Hx). eauto.
  - unfold Second.buildFederationSchema, Second.extendFederationSchema.
    destruct (extendSchema sdlRules false emptySchema _) as [s0|e]; simpl;
      [|discriminate].
    destruct (Second.getStubTypes (parse schema) gw) as [parts|e]; simpl;
      [|discriminate].
    destruct (Second.schemaToValidate sdlRules s0 parts) as [s1|e]; simpl;
      [|discriminate].
    destruct (raiseCompositionErrors _); simpl; [|discriminate].
    unfold Second.mergeValidated.
    destruct (extendSchema sdlRules true s1 _) as [s1'|e]; simpl;
      [|discriminate].
    destruct gw; simpl.
    + intros [= <-]. eexists. split; [reflexivity|discriminate].
    + destruct (Second.addServiceAndEntities sdlRules _) as [s2|e] eqn:E;
        simpl; [|discriminate].
      intros [= <-]. eexists. split; [reflexivity|]. intros _.
      now apply Second_addServiceAndEntities_hasQuery in E.
Qed.

(** C1, as stated, fails on the second copy in gateway mode: for a
    document that declares no [Query] type the schema it builds has no
    query root. *)
Lemma C1_second_copy_gateway_without_query :
  buildFederationSchemaOf SecondCopy noErrors noErrors userOnlySDL true
    = Ok secondGatewayUserSchema
  /\ s_query secondGatewayUserSchema = None
  /\ getQueryType secondGatewayUserSchema = None.
Proof. repeat split; reflexivity. Qed.

(** C1 (amended): the query root of every schema [buildFederationSchema]
    returns is the type named [Query] of its type map.  In the first copy
    (both modes) and in service mode of the second copy a missing [Query]
    type is synthesized, so the root is not null; in gateway mode of the
    second copy nothing is synthesized and the root is null when the
    merged schema has no type named [Query]. *)
Theorem C1_query_root_of_built_schema
    (c : Copy) (specifiedSDLRules compositionRules : Rules)
    (schema : SDL) (isGateway : bool) (s : GraphQLSchema) :
  buildFederationSchemaOf c specifiedSDLRules compositionRules schema isGateway
    = Ok s ->
  getQueryType s = getType s "Query"
  /\ (synthesizesQuery c isGateway = true ->
      exists t, getQueryType s = Some t /\ s_query s = Some "Query").
Proof.
  intros H. apply buildFederationSchemaOf_roots in H as (x & -> & Hx).
  split; [apply getQueryType_schemaWithRootsByName|].
  intros Hs. apply query_root_schemaWithRootsByName. auto.
Qed.

(** The theorem at the first copy in gateway mode, for a document that
    declares no [Query] type. *)
Lemma C1_query_root_witness :
  buildFederationSchemaOf FirstCopy noErrors noErrors userOnlySDL true
    = Ok firstGatewayUserSchema
  /\ getQueryType firstGatewayUserSchema = getType firstGatewayUserSchema "Query"
  /\ (synthesizesQuery FirstCopy true = true ->
      exists t, getQueryType firstGatewayUserSchema = Some t
                /\ s_query firstGatewayUserSchema = Some "Query").
Proof.
  split; [reflexivity|].
  apply (C1_query_root_of_built_schema FirstCopy noErrors noErrors
           userOnlySDL true).
  reflexivity.
Defined.

(** In gateway mode of the first copy, a merge that yields no [Query] type
    ends with the synthesized one as query root: an object type without
    fields. *)
Theorem First_gateway_synthesizes_empty_query
    (specifiedSDLRules compositionRules : Rules)
    (originalSchema extendedSchema : GraphQLSchema) (document : Document)
    (s : GraphQLSchema) :
  First.schemaToValidate originalSchema document = Ok extendedSchema ->
  First.extendFederationSchema specifiedSDLRules compositionRules
    originalSchema document true = Ok s ->
  getType (extendSchemaImpl extendedSchema document) "Query" = None ->
  s_query s = Some "Query" /\ getQueryType s = Some emptyObjectType.
Proof.
  intros H0 H Hnone. unfold First.extendFederationSchema in H.
  rewrite H0 in H. simpl in H.
  destruct (raiseCompositionErrors _); simpl in H; [|discriminate].
  unfold First.mergeValidated in H. extendSchema_in H. rewrite Hnone in H.
  simpl in H. unfold schemaWithQuery in H.
  unfold getType in Hnone. unfold jsHas in H. rewrite Hnone in H.
  simpl in H. injection H as <-.
  unfold getQueryType, schemaWithRootsByName, rootNamed, getType, jsHas.
  cbn [s_query s_types]. rewrite !jsGet_app, !Hnone.
  cbn [jsGet String.eqb Ascii.eqb Bool.eqb]. cbn [s_types].
  rewrite !jsGet_app, !Hnone. split; reflexivity.
Qed.

(** The theorem at [type User @key(fields: "id") { id: ID }]. *)
Lemma First_gateway_synthesizes_empty_query_witness :
  s_query firstGatewayUserSchema = Some "Query"
  /\ getQueryType firstGatewayUserSchema = Some emptyObjectType.
Proof.
  apply (First_gateway_synthesizes_empty_query noErrors noErrors
           gatewayBaseSchema gatewayBaseSchema [userDefinition]
           firstGatewayUserSchema); reflexivity.
Defined.

(** *** The SDL behind [_service] *)

Lemma typeDefinitionVisitor_spec node node' :
  First.typeDefinitionVisitor node = Some node' ->
  def_kind node' = def_kind node /\ def_name node' = def_name node
  /\ (nameIs "Query" node = true ->
      exists fs, def_fields node' = Some fs /\ fs <> []
                 /\ forall f, In f fs -> isFederationField f = false).
Proof.
  unfold First.typeDefinitionVisitor.
  destruct (nameIs "Query" node) eqn:Eq.
  - destruct (def_fields node) as [fs|]; [|discriminate].
    destruct (List.filter _ fs) as [|f0 fs'] eqn:Ef; [discriminate|].
    intros [= <-]. simpl. repeat split; auto. intros _.
    exists (f0 :: fs'). repeat split; [discriminate|].
    intros f Hf. rewrite <- Ef in Hf. apply filter_In in Hf as [_ Hf].
    now apply negb_true_iff in Hf.
  - destruct (nameIs "_Service" node); [discriminate|].
    intros [= <-]. repeat split; auto. discriminate.
Qed.

Lemma nameIs_same n node node' :
  def_name node' = def_name node -> nameIs n node' = nameIs n node.
Proof. unfold nameIs. now intros ->. Qed.

Lemma kindIs_same k node node' :
  def_kind node' = def_kind node -> kindIs k node' = kindIs k node.
Proof. unfold kindIs. now intros ->. Qed.

(** What survives [stripCommonPrimitives] carries no federation artifact. *)
Lemma stripCommonPrimitives_clean (document : Document) :
  withoutFederationArtifacts (First.stripCommonPrimitives document).
Proof.
  intros node Hin. unfold First.stripCommonPrimitives in Hin.
  apply list_elem_of_In, list_elem_of_omap in Hin as (src & _ & Hv).
  unfold First.stripVisitor in Hv.
  destruct (def_kind src) as [k|] eqn:Ek.
  2:{ injection Hv as <-. unfold isObjectNodeNamed, kindIs. rewrite Ek.
      repeat split; discriminate. }
  destruct k;
    try (injection Hv as <-; unfold isObjectNodeNamed, kindIs; rewrite Ek;
         simpl; repeat split; discriminate).
  - destruct (nameIs "_Any" src || nameIs "_FieldSet" src) eqn:En;
      [discriminate|]. injection Hv as <-.
    apply orb_false_iff in En.
    unfold isObjectNodeNamed, kindIs. rewrite Ek. simpl.
    repeat split; try discriminate; tauto.
  - apply typeDefinitionVisitor_spec in Hv as (Hk & Hn & Hq).
    unfold isObjectNodeNamed.
    rewrite !(kindIs_same _ _ _ Hk), !(nameIs_same _ _ _ Hn).
    unfold kindIs. rewrite Ek. simpl. repeat split; try discriminate. exact Hq.
  - destruct (nameIs "_Entity" src) eqn:En; [discriminate|].
    injection Hv as <-. unfold isObjectNodeNamed, kindIs. rewrite Ek. simpl.
    repeat split; try discriminate; auto.
  - apply typeDefinitionVisitor_spec in Hv as (Hk & Hn & Hq).
    unfold isObjectNodeNamed.
    rewrite !(kindIs_same _ _ _ Hk), !(nameIs_same _ _ _ Hn).
    unfold kindIs. rewrite Ek. simpl. repeat split; try discriminate. exact Hq.
Qed.

(** When the object nodes named [Query] hold nothing but [_service] and
    [_entities], no object node named [Query] survives. *)
Lemma stripCommonPrimitives_drops_empty_query (document : Document) :
  (forall src f, In src document -> isObjectNodeNamed "Query" src = true ->
                 In f (fieldsOfNode src) -> isFederationField f = true) ->
  forall node, In node (First.stripCommonPrimitives document) ->
               isObjectNodeNamed "Query" node = false.
Proof.
  intros Honly node Hin. unfold First.stripCommonPrimitives in Hin.
  apply list_elem_of_In, list_elem_of_omap in Hin as (src & Hsrc & Hv).
  apply list_elem_of_In in Hsrc.
  destruct (isObjectNodeNamed "Query" node) eqn:Eo; [|reflexivity].
  exfalso. unfold First.stripVisitor in Hv.
  assert (Hobj : isObjectNodeNamed "Query" src = true
                 /\ First.typeDefinitionVisitor src = Some node).
  { unfold isObjectNodeNamed, kindIs in *.
    destruct (def_kind src) as [k|] eqn:Ek.
    2:{ injection Hv as <-. rewrite Ek in Eo. discriminate. }
    destruct k;
      try (injection Hv as <-; rewrite Ek in Eo; discriminate).
    - destruct (_ || _); [discriminate|]. injection Hv as <-.
      rewrite Ek in Eo. discriminate.
    - pose proof Hv as Hs. apply typeDefinitionVisitor_spec in Hs as (Hk & Hn & _).
      rewrite Hk, Ek, (nameIs_same _ _ _ Hn) in Eo. auto.
    - destruct (nameIs "_Entity" src); [discriminate|]. injection Hv as <-.
      rewrite Ek in Eo. discriminate.
    - pose proof Hv as Hs. apply typeDefinitionVisitor_spec in Hs as (Hk & Hn & _).
      rewrite Hk, Ek, (nameIs_same _ _ _ Hn) in Eo. auto. }
  destruct Hobj as [Hq Hvis].
  unfold First.typeDefinitionVisitor in Hvis.
  assert (Hname : nameIs "Query" src = true).
  { unfold isObjectNodeNamed in Hq. now apply andb_true_iff in Hq. }
  rewrite Hname in Hvis.
  destruct (def_fields src) as [fs|] eqn:Efs; [|discriminate].
  destruct (List.filter _ fs) as [|f0 fs'] eqn:Ef; [discriminate|].
  assert (Hf0 : In f0 (List.filter
                         (fun fieldDefinition =>
                            negb (inb (fd_name fieldDefinition)
                                      ["_service"; "_entities"])) fs)).
  { rewrite Ef. now left. }
  apply filter_In in Hf0 as [Hin0 Hneg].
  apply negb_true_iff in Hneg.
  assert (isFederationField f0 = true).
  { apply (Honly src f0 Hsrc Hq). unfold fieldsOfNode. now rewrite Efs. }
  unfold isFederationField in *. congruence.
Qed.

Lemma jsGet_setResolve n r fs :
  exists f, jsGet n (setResolve n r fs) = Some f /\ gf_resolve f = Some r.
Proof.
  unfold setResolve. rewrite jsGet_jsSet_eq.
  destruct (jsGet n fs); eexists; split; reflexivity.
Qed.

Lemma serviceSDLOf_updateFields s sdl :
  hasType s "Query" = true ->
  serviceSDLOf (updateFields "Query" (setResolve "_service" (ServiceResolve sdl)) s)
  = Some sdl.
Proof.
  unfold hasType, jsHas, serviceSDLOf, updateFields, getType.
  destruct (jsGet "Query" (s_types s)) as [t|] eqn:E; [|discriminate].
  intros _. simpl. rewrite jsGet_jsSet_eq. simpl.
  destruct (jsGet_setResolve "_service" (ServiceResolve sdl) (t_fields t))
    as (f & -> & ->). reflexivity.
Qed.

Lemma serviceSDLOf_schemaWithRootsByName s :
  serviceSDLOf (schemaWithRootsByName s) = serviceSDLOf s.
Proof. reflexivity. Qed.

(** In the first copy the [_service] resolver answers with a document
    passed through [stripCommonPrimitives]. *)
Lemma First_addServiceResolver_sdl rules s s' sdl :
  First.addServiceResolver rules s = Ok (s', sdl) ->
  serviceSDLOf s' = Some sdl
  /\ exists printed, sdl = print (First.stripCommonPrimitives printed).
Proof.
  unfold First.addServiceResolver.
  destruct (getFieldsOf s "Query") as [fs|e] eqn:Ef; simpl; [|discriminate].
  apply getFieldsOf_hasType in Ef.
  destruct (jsHas "_service" fs); simpl.
  - destruct (printSchema s) as [printed|e]; simpl; [|discriminate].
    intros [= <- <-]. split; [now apply serviceSDLOf_updateFields|eauto].
  - extendSchema_goal.
    destruct (getFieldsOf (extendSchemaImpl s [serviceFieldExtension]) "Query")
      as [fs'|e] eqn:Ef'; simpl; [|discriminate].
    apply getFieldsOf_hasType in Ef'.
    destruct (printSchema _) as [printed|e]; simpl; [|discriminate].
    intros [= <- <-]. split; [now apply serviceSDLOf_updateFields|eauto].
Qed.

(** The first copy does what C6 says: in every service mode schema it
    composes, the SDL behind [_service], read back by [parse], holds no
    [_Any] or [_FieldSet] scalar, no [_Entity] union, and no object node
    named [Query] that is empty or has a [_service] or [_entities] field. *)
Theorem First_service_sdl_is_stripped
    (specifiedSDLRules compositionRules : Rules)
    (originalSchema : GraphQLSchema) (document : Document) (s : GraphQLSchema) :
  First.extendFederationSchema specifiedSDLRules compositionRules
    originalSchema document false = Ok s ->
  exists sdl, serviceSDLOf s = Some sdl
              /\ withoutFederationArtifacts (parse sdl).
Proof.
  unfold First.extendFederationSchema, First.mergeValidated.
  destruct (First.schemaToValidate originalSchema document) as [s0|e]; simpl;
    [|discriminate].
  destruct (raiseCompositionErrors _); simpl; [|discriminate].
  extendSchema_goal.
  destruct (if isSome _ then _ else _) as [s2|e]; simpl; [|discriminate].
  destruct (First.addEntitiesResolver specifiedSDLRules s2) as [s3|e]; simpl;
    [|discriminate].
  destruct (First.addServiceResolver specifiedSDLRules s3) as [[s4 sdl]|e] eqn:E;
    simpl; [|discriminate].
  intros [= <-]. apply First_addServiceResolver_sdl in E as (Hs & printed & ->).
  exists (print (First.stripCommonPrimitives printed)).
  split; [exact Hs|]. apply stripCommonPrimitives_clean.
Qed.

(** The theorem at [type Profile { id: ID }] composed onto a schema whose
    [Query] holds [_service] only. *)
Lemma First_service_sdl_witness :
  exists sdl,
    serviceSDLOf
      (match First.extendFederationSchema noErrors noErrors serviceBaseSchema
               [profileDefinition] false with
       | Ok s => s
       | Throw _ => emptySchema
       end) = Some sdl
    /\ withoutFederationArtifacts (parse sdl).
Proof.
  apply (First_service_sdl_is_stripped noErrors noErrors serviceBaseSchema
           [profileDefinition]).
  reflexivity.
Defined.

(** C6 fails on the second copy.  Composing [type Profile { id: ID }] in
    service mode onto a schema whose [Query] holds only [_service], the
    SDL bound to the [_service] resolver still prints [Query], as an empty
    type, and the [_service] field itself is left without a type. *)
Lemma C6_second_copy_prints_empty_query :
  exists s sdl,
    Second.extendFederationSchema noErrors noErrors serviceBaseSchema
      [profileDefinition] false = Ok s
    /\ serviceSDLOf s = Some sdl
    /\ In (objectDefinition "Query" [] []) (parse sdl)
    /\ ~ withoutFederationArtifacts (parse sdl).
Proof.
  eexists. eexists. split; [vm_compute; reflexivity|].
  split; [reflexivity|]. split; [simpl; tauto|].
  intros H.
  destruct (H (objectDefinition "Query" [] [])) as (_ & _ & Hq);
    [simpl; tauto|].
  destruct (Hq eq_refl) as (fs & Hfs & Hne & _).
  injection Hfs as <-. now apply Hne.
Qed.

(** The lemma at a printed schema whose [Query] holds [_service] only. *)
Lemma stripCommonPrimitives_drops_empty_query_witness :
  List.Forall (fun node => isObjectNodeNamed "Query" node = false)
    (First.stripCommonPrimitives [serviceQueryDefinition; profileDefinition]).
Proof.
  apply List.Forall_forall.
  apply (stripCommonPrimitives_drops_empty_query
           [serviceQueryDefinition; profileDefinition]).
  intros src f [<-|[<-|[]]] Hq [<-|[]]; try discriminate; reflexivity.
Defined.

(** The second copy does not remove an [_Entity] union either: composing
    onto a schema that holds one, the SDL bound to [_service] prints it. *)
Example Second_service_sdl_keeps_entity_union :
  exists s sdl,
    Second.extendFederationSchema noErrors noErrors schemaWithEntityUnion
      [reviewDefinition] false = Ok s
    /\ serviceSDLOf s = Some sdl
    /\ In (unionDefinition "_Entity" ["Profile"]) (parse sdl).
Proof.
  eexists. eexists. split; [vm_compute; reflexivity|].
  split; [reflexivity|]. simpl. tauto.
Qed.

(* ================================================================== *)
(** ** Stubs and their merge (second copy)                             *)
(* ================================================================== *)

Lemma jsKeys_jsSet {A} (k : string) (v : A) (m : JsMap A) :
  jsKeys (jsSet k v m)
  = if jsHas k m then jsKeys m else jsKeys m ++ [k].
Proof.
  unfold jsHas. induction m as [|[k' v'] m IH]; simpl; auto.
  destruct (String.eqb k k') eqn:E; simpl; auto.
  rewrite IH. destruct (jsGet k m); auto.
Qed.

Lemma jsHas_In_keys {A} (k : string) (m : JsMap A) :
  jsHas k m = true <-> In k (jsKeys m).
Proof.
  unfold jsHas. induction m as [|[k' v'] m IH]; simpl.
  - split; [discriminate|tauto].
  - destruct (String.eqb k k') eqn:E.
    + apply String.eqb_eq in E. subst. tauto.
    + apply String.eqb_neq in E. rewrite IH. split; auto.
      intros [H|H]; [congruence|auto].
Qed.

Lemma NoDup_jsKeys_jsSet {A} (k : string) (v : A) (m : JsMap A) :
  List.NoDup (jsKeys m) -> List.NoDup (jsKeys (jsSet k v m)).
Proof.
  intros H. rewrite jsKeys_jsSet. destruct (jsHas k m) eqn:E; auto.
  apply List.NoDup_app; auto.
  - repeat constructor. intros [].
  - intros x Hx [<-|[]]. apply jsHas_In_keys in Hx. congruence.
Qed.

Lemma NoDup_jsKeys_literalSet {A} (k : string) (v : A) (m : JsMap A) :
  List.NoDup (jsKeys m) -> List.NoDup (jsKeys (literalSet k v m)).
Proof.
  unfold literalSet. destruct (String.eqb k "__proto__"); auto.
  apply NoDup_jsKeys_jsSet.
Qed.


Lemma PartitionInv_empty doc : PartitionInv doc emptyPartition.
Proof.
  split; simpl.
  - intros kv [].
  - constructor.
  - intros k stub H. discriminate.
  - intros k H. discriminate.
  - intros v [].
  - intros v [].
Qed.

Lemma jsGet_literalSet {A} k k' (v : A) m :
  jsGet k' (literalSet k v m)
  = if String.eqb k "__proto__" then jsGet k' m
    else if String.eqb k k' then Some v else jsGet k' m.
Proof.
  unfold literalSet. destruct (String.eqb k "__proto__"); auto.
  apply jsGet_jsSet.
Qed.

Lemma In_jsValues_jsSet {A} k (v : A) m x :
  In x (jsValues (jsSet k v m)) -> x = v \/ In x (jsValues m).
Proof.
  unfold jsValues. intros H. apply in_map_iff in H as ([k' v'] & <- & H).
  apply In_jsSet in H as [[= -> ->]|H]; auto.
  right. apply in_map_iff. exists (k', v'). auto.
Qed.

Lemma Second_partitionStep_inv doc gw st d st' :
  In d doc ->
  PartitionInv doc st ->
  Second.partitionStep gw st d = Ok st' ->
  PartitionInv doc st'.
Proof.
  intros Hd [Hnamed Hnodup Hext Hdef Hvals Hdirs].
  unfold Second.partitionStep, nameOfDefinition, classify.
  destruct (def_name d) as [n|] eqn:En; simpl; [|discriminate].
  destruct (isTypeDefinitionNode d && negb (hasExtendsDirective d)) eqn:Edef.
  { intros [= <-]. split; simpl; auto.
    - intros k Hk. unfold jsHas in Hk. rewrite jsGet_literalSet in Hk.
      destruct (String.eqb n "__proto__"); [now apply Hdef|].
      destruct (String.eqb n k) eqn:Enk; [|now apply Hdef].
      apply String.eqb_eq in Enk. subst k. exists d. auto.
    - intros v Hv. unfold literalSet in Hv.
      destruct (String.eqb n "__proto__"); [now apply Hvals|].
      apply In_jsValues_jsSet in Hv as [->|Hv]; auto. }
  destruct (isTypeExtensionNode d
            || isTypeDefinitionNode d && hasExtendsDirective d) eqn:Eext.
  { destruct (if gw then _ else _) as [pushed|e]; simpl; [|discriminate].
    intros [= <-]. split; simpl; auto.
    - now apply keysNamed_literalSet.
    - now apply NoDup_jsKeys_literalSet.
    - intros k stub Hk. rewrite jsGet_literalSet in Hk.
      destruct (String.eqb n "__proto__"); [now apply Hext|].
      destruct (String.eqb n k) eqn:Enk; [|now apply Hext].
      apply String.eqb_eq in Enk. subst k. injection Hk as <-.
      exists d. repeat split; auto.
      unfold classifiedAsExtension. now rewrite Edef, Eext. }
  destruct (kindIs DIRECTIVE_DEFINITION d) eqn:Edir; intros [= <-];
    split; simpl; auto.
  intros v Hv. apply in_app_or in Hv as [Hv|[<-|[]]]; auto.
Qed.

Lemma Second_partitionLoop_inv doc gw defs st st' :
  (forall d, In d defs -> In d doc) ->
  PartitionInv doc st ->
  Second.partitionLoop gw defs st = Ok st' ->
  PartitionInv doc st'.
Proof.
  revert st. induction defs as [|d defs IH]; simpl; intros st Hsub Hinv.
  - now intros [= <-].
  - destruct (Second.partitionStep gw st d) as [st1|e] eqn:E; simpl;
      [|discriminate].
    apply IH; auto. eapply Second_partitionStep_inv; eauto.
Qed.

(** A name with an extension declaration ends up in the extensions map. *)
Lemma Second_partitionStep_has gw st d st' k :
  Second.partitionStep gw st d = Ok st' ->
  k <> "__proto__" ->
  jsHas k (extensionsMap st) = true
  \/ (def_name d = Some k /\ classifiedAsExtension d = true) ->
  jsHas k (extensionsMap st') = true.
Proof.
  unfold Second.partitionStep, nameOfDefinition, classify, classifiedAsExtension.
  destruct (def_name d) as [n|] eqn:En; simpl; [|discriminate].
  destruct (isTypeDefinitionNode d && negb (hasExtendsDirective d)) eqn:Edef;
    simpl.
  { intros [= <-] _ [H|[_ H]]; [exact H|discriminate]. }
  destruct (isTypeExtensionNode d
            || isTypeDefinitionNode d && hasExtendsDirective d) eqn:Eext.
  { destruct (if gw then _ else _) as [pushed|e]; simpl; [|discriminate].
    intros [= <-] Hk H. simpl. unfold jsHas. rewrite jsGet_literalSet.
    destruct (String.eqb n "__proto__") eqn:Ep.
    - apply String.eqb_eq in Ep. subst n.
      destruct H as [H|[[= <-] _]]; [exact H|congruence].
    - destruct (String.eqb n k) eqn:Enk; auto.
      destruct H as [H|[[= <-] _]]; [exact H|].
      now rewrite String.eqb_refl in Enk. }
  destruct (kindIs DIRECTIVE_DEFINITION d); intros [= <-] _ [H|[_ H]];
    auto; discriminate.
Qed.

Lemma Second_partitionLoop_has gw defs st st' k :
  Second.partitionLoop gw defs st = Ok st' ->
  k <> "__proto__" ->
  jsHas k (extensionsMap st) = true
  \/ (exists d, In d defs /\ def_name d = Some k
                /\ classifiedAsExtension d = true) ->
  jsHas k (extensionsMap st') = true.
Proof.
  revert st. induction defs as [|d defs IH]; simpl; intros st.
  - intros [= <-] _ [H|(d & [] & _)]. exact H.
  - destruct (Second.partitionStep gw st d) as [st1|e] eqn:E; simpl;
      [|discriminate].
    intros Hloop Hk H. apply (IH st1 Hloop Hk).
    destruct H as [H|(d' & [<-|Hin] & Hn & Hc)].
    + left. eapply Second_partitionStep_has; eauto.
    + left. eapply Second_partitionStep_has; eauto.
    + right. eauto.
Qed.

Lemma keysNamed_tail kv (m : JsMap DefinitionNode) :
  keysNamed (kv :: m) -> keysNamed m.
Proof. intros H x Hx. apply H. now right. Qed.

Lemma nameIs_of_name n k v : def_name v = Some k -> nameIs n v = String.eqb n k.
Proof. unfold nameIs. now intros ->. Qed.

Lemma filter_named_absent n (keep : string -> bool) (m : JsMap DefinitionNode) :
  ~ In n (jsKeys m) -> keysNamed m ->
  List.filter (nameIs n)
    (map snd (List.filter (fun kv => keep (fst kv)) m)) = [].
Proof.
  induction m as [|[k v] m IH]; simpl; auto.
  intros Hnot Hnamed.
  assert (Hv : def_name v = Some k) by (apply (Hnamed (k, v)); now left).
  assert (Hkn : String.eqb n k = false).
  { apply String.eqb_neq. intros ->. apply Hnot. now left. }
  specialize (IH (fun H => Hnot (or_intror H)) (keysNamed_tail _ _ Hnamed)).
  destruct (keep k); simpl; auto.
  now rewrite (nameIs_of_name n k v Hv), Hkn.
Qed.

(** The stub of a name the filter keeps is the only stub of that name. *)
Lemma filter_named_unique n stub (keep : string -> bool)
    (m : JsMap DefinitionNode) :
  List.NoDup (jsKeys m) -> keysNamed m ->
  jsGet n m = Some stub -> keep n = true ->
  List.filter (nameIs n)
    (map snd (List.filter (fun kv => keep (fst kv)) m)) = [stub].
Proof.
  induction m as [|[k v] m IH]; simpl; [discriminate|].
  intros Hnd Hnamed Hget Hkeep.
  assert (Hv : def_name v = Some k) by (apply (Hnamed (k, v)); now left).
  apply NoDup_cons_iff in Hnd as [Hk Hnd].
  destruct (String.eqb n k) eqn:E.
  - apply String.eqb_eq in E. subst k. injection Hget as ->.
    rewrite Hkeep. simpl. rewrite (nameIs_of_name n n stub Hv), String.eqb_refl.
    f_equal. apply filter_named_absent; auto.
    now apply keysNamed_tail in Hnamed.
  - specialize (IH Hnd (keysNamed_tail _ _ Hnamed) Hget Hkeep).
    destruct (keep k); simpl; auto.
    now rewrite (nameIs_of_name n k v Hv), E.
Qed.

Lemma properExtension_facts d :
  properExtension d = true ->
  classifiedAsExtension d = true
  /\ classifiedAsDefinition d = false
  /\ isTypeExtensionNode (rewrittenKind d) = true
  /\ exists k c, stubKind d = Some k /\ classOfKind k = Some c.
Proof.
  unfold properExtension, classifiedAsExtension, classifiedAsDefinition,
    rewrittenKind, stubKind, isTypeExtensionNode, isTypeDefinitionNode.
  destruct (hasExtendsDirective d); destruct (def_kind d) as [[]|] eqn:Ek;
    simpl; try discriminate; try rewrite Ek; simpl; intros _;
    repeat split; eauto.
Qed.

Lemma classifiedAsExtension_is_type d :
  classifiedAsExtension d = true ->
  isTypeDefinitionNode d || isTypeExtensionNode d = true.
Proof.
  unfold classifiedAsExtension.
  destruct (isTypeDefinitionNode d), (isTypeExtensionNode d),
    (hasExtendsDirective d); simpl; auto.
Qed.

Lemma classifiedAsDefinition_is_type d :
  classifiedAsDefinition d = true ->
  isTypeDefinitionNode d = true /\ isTypeExtensionNode d = false.
Proof.
  unfold classifiedAsDefinition, isTypeDefinitionNode, isTypeExtensionNode.
  destruct (def_kind d) as [[]|]; simpl; auto; discriminate.
Qed.

Lemma classifiedAsExtension_rewritten d :
  classifiedAsExtension d = true ->
  isTypeDefinitionNode (rewrittenKind d) = false.
Proof.
  unfold classifiedAsExtension, rewrittenKind, isTypeDefinitionNode,
    isTypeExtensionNode.
  destruct (hasExtendsDirective d); destruct (def_kind d) as [[]|] eqn:Ek;
    simpl; try discriminate; try rewrite Ek; auto.
Qed.

Lemma Forall2_In_left {A B} (R : A -> B -> Prop) l1 l2 x :
  Forall2 R l1 l2 -> In x l1 -> exists y, In y l2 /\ R x y.
Proof.
  induction 1 as [|a b l1 l2 Hab _ IH]; simpl; [tauto|].
  intros [<-|Hin]; [eauto|]. destruct (IH Hin) as (y & Hy & Hr). eauto.
Qed.

Lemma Forall2_In_right {A B} (R : A -> B -> Prop) l1 l2 y :
  Forall2 R l1 l2 -> In y l2 -> exists x, In x l1 /\ R x y.
Proof.
  induction 1 as [|a b l1 l2 Hab _ IH]; simpl; [tauto|].
  intros [<-|Hin]; [eauto|]. destruct (IH Hin) as (x & Hx & Hr). eauto.
Qed.

(** *** The engine on a name *)

Lemma jsGet_fold_addTypeDefinition_other doc n defs m :
  List.filter (nameIs n) defs = [] ->
  jsGet n (fold_left (addTypeDefinition doc) defs m) = jsGet n m.
Proof.
  revert m. induction defs as [|d defs IH]; simpl; auto.
  intros m. destruct (nameIs n d) eqn:E; [discriminate|].
  intros Hrest. rewrite (IH _ Hrest). unfold addTypeDefinition.
  unfold nameIs in E. destruct (def_name d) as [k|]; auto.
  destruct (def_kind d) as [kd|]; auto. destruct (classOfKind kd); auto.
  apply jsGet_jsSet_ne. apply String.eqb_neq in E. congruence.
Qed.

Lemma nameIs_true n d : nameIs n d = true -> def_name d = Some n.
Proof.
  unfold nameIs. destruct (def_name d) as [k|]; [|discriminate].
  intros E. apply String.eqb_eq in E. now subst.
Qed.

Lemma jsGet_fold_addTypeDefinition_unique doc n defs m d k c :
  List.filter (nameIs n) defs = [d] ->
  def_kind d = Some k -> classOfKind k = Some c ->
  jsGet n (fold_left (addTypeDefinition doc) defs m)
  = Some (buildType d c (typeExtensionsOf doc n)).
Proof.
  intros Hf Hk Hc. revert m Hf.
  induction defs as [|x defs IH]; simpl; [discriminate|].
  intros m. destruct (nameIs n x) eqn:E.
  - intros [= -> Hrest].
    rewrite (jsGet_fold_addTypeDefinition_other _ _ _ _ Hrest).
    unfold addTypeDefinition. rewrite (nameIs_true _ _ E), Hk, Hc.
    apply jsGet_jsSet_eq.
  - intros Hrest. now apply IH.
Qed.

Lemma filter_filter_comm {A} (p q : A -> bool) l :
  List.filter p (List.filter q l) = List.filter q (List.filter p l).
Proof.
  induction l as [|x l IH]; simpl; auto.
  destruct (p x) eqn:Ep, (q x) eqn:Eq; simpl; rewrite ?Ep, ?Eq, IH; auto.
Qed.

Lemma filter_andb {A} (p q : A -> bool) l :
  List.filter (fun x => p x && q x) l = List.filter p (List.filter q l).
Proof.
  induction l as [|x l IH]; simpl; auto.
  destruct (p x) eqn:Ep, (q x) eqn:Eq; simpl; rewrite ?Ep, IH; auto.
Qed.

Lemma nothingToExtend_false doc d :
  In d doc -> isTypeDefinitionNode d || isTypeExtensionNode d = true ->
  nothingToExtend doc = false.
Proof.
  intros Hin Hd. unfold nothingToExtend. apply negb_false_iff.
  apply existsb_exists. exists d. split; auto. now rewrite Hd.
Qed.

(** A type the document does not define is the existing one, extended. *)
Lemma getType_extendSchemaImpl_other s doc n :
  List.filter (nameIs n) (List.filter isTypeDefinitionNode doc) = [] ->
  getType (extendSchemaImpl s doc) n
  = if nothingToExtend doc then getType s n
    else option_map (extendNamedType (typeExtensionsOf doc n)) (getType s n).
Proof.
  intros Hf. unfold extendSchemaImpl, getType.
  destruct (nothingToExtend doc); auto. simpl.
  rewrite (jsGet_fold_addTypeDefinition_other _ _ _ _ Hf).
  apply jsGet_map_extendExisting.
Qed.

(** A type the document defines once is built from that definition. *)
Lemma getType_extendSchemaImpl_defined s doc n d k c :
  List.filter (nameIs n) (List.filter isTypeDefinitionNode doc) = [d] ->
  def_kind d = Some k -> classOfKind k = Some c ->
  getType (extendSchemaImpl s doc) n
  = Some (buildType d c (typeExtensionsOf doc n)).
Proof.
  intros Hf Hk Hc. unfold extendSchemaImpl, getType.
  assert (Hin : In d (List.filter (nameIs n) (List.filter isTypeDefinitionNode doc))).
  { rewrite Hf. now left. }
  apply filter_In in Hin as [Hin _]. apply filter_In in Hin as [Hin Hdef].
  rewrite (nothingToExtend_false doc d Hin) by now rewrite Hdef.
  simpl. eapply jsGet_fold_addTypeDefinition_unique; eauto.
Qed.

Lemma jsAssign_nil {A} (m : JsMap A) : jsAssign m [] = m.
Proof. reflexivity. Qed.

Lemma extendNamedType_class e t : t_class (extendNamedType e t) = t_class t.
Proof. reflexivity. Qed.

Lemma extendNamedType_fields e t :
  t_fields (extendNamedType e t)
  = if hasFieldMap (t_class t)
    then jsAssign (t_fields t) (nodeFieldEntries e)
    else t_fields t.
Proof. reflexivity. Qed.

Lemma extendNamedType_nil_fields t :
  t_fields (extendNamedType [] t) = t_fields t.
Proof.
  rewrite extendNamedType_fields. simpl. now destruct (hasFieldMap (t_class t)).
Qed.

Lemma getType_updateFields_ne k f s n :
  k <> n -> getType (updateFields k f s) n = getType s n.
Proof.
  intros Hne. unfold getType, updateFields.
  destruct (jsGet k (s_types s)); auto. simpl. now apply jsGet_jsSet_ne.
Qed.

Lemma filter_none {A} (p : A -> bool) l :
  (forall x, In x l -> p x = false) -> List.filter p l = [].
Proof.
  induction l as [|x l IH]; simpl; auto. intros H.
  rewrite (H x (or_introl eq_refl)). apply IH. intros y Hy. apply H. now right.
Qed.

Lemma classOfKind_definition k c :
  classOfKind k = Some c ->
  isTypeDefinitionKind k = true /\ isTypeExtensionKind k = false.
Proof. destruct k; simpl; intros H; try discriminate; auto. Qed.

Lemma kindIs_directive_not_type v :
  kindIs DIRECTIVE_DEFINITION v = true ->
  isTypeDefinitionNode v = false /\ isTypeExtensionNode v = false.
Proof.
  unfold kindIs, isTypeDefinitionNode, isTypeExtensionNode.
  destruct (def_kind v) as [[]|]; simpl; auto; discriminate.
Qed.

Section ExtensionOnly.

Variables (doc : Document) (gw : bool) (n : string).
Hypothesis Honly : declaredOnlyByExtension n doc.
Hypothesis Hroot : inb n rootTypeNames = false.
Hypothesis Hproto : inb n objectPrototypeKeys = false.

Lemma extensionOnly_not_proto : n <> "__proto__".
Proof using Hproto.
  intros E. pose proof Hproto as H. rewrite E in H. vm_compute in H.
  discriminate.
Qed.

Lemma extensionOnly_proper d :
  In d doc -> def_name d = Some n ->
  isTypeDefinitionNode d || isTypeExtensionNode d = true ->
  properExtension d = true.
Proof using Honly. intros. now apply Honly. Qed.

(** Exactly one stub is made for the name, with the kind recorded for one
    of its declarations. *)
Lemma Second_getStubTypes_stub parts :
  Second.getStubTypes doc gw = Ok parts ->
  exists d,
    In d doc /\ def_name d = Some n /\ properExtension d = true
    /\ List.filter (nameIs n) (typeStubs parts) = [kindAndName (stubKind d) n].
Proof using Honly Hroot Hproto.
  unfold Second.getStubTypes.
  destruct (Second.partitionLoop gw doc emptyPartition) as [st|e] eqn:E;
    simpl; [|discriminate].
  intros [= <-]. simpl.
  pose proof (Second_partitionLoop_inv doc gw doc emptyPartition st
                (fun d H => H) (PartitionInv_empty doc) E) as Hinv.
  destruct Honly as [(d0 & Hd0 & Hn0 & Hp0) _].
  assert (Hhas : jsHas n (extensionsMap st) = true).
  { eapply Second_partitionLoop_has; [exact E|apply extensionOnly_not_proto|].
    right. exists d0. repeat split; auto.
    now apply properExtension_facts in Hp0. }
  unfold jsHas in Hhas.
  destruct (jsGet n (extensionsMap st)) as [stub|] eqn:Hget; [|discriminate].
  destruct (inv_ext_from _ _ Hinv n stub Hget) as (d & Hd & Hn & Hc & ->).
  assert (Hp : properExtension d = true).
  { apply extensionOnly_proper; auto. now apply classifiedAsExtension_is_type. }
  exists d. split; [exact Hd|]. split; [exact Hn|]. split; [exact Hp|].
  apply filter_named_unique; auto.
  - apply (inv_ext_nodup _ _ Hinv).
  - apply (inv_ext_named _ _ Hinv).
  - unfold Second.keepStub. rewrite Hroot. simpl. rewrite andb_true_r.
    apply negb_true_iff. unfold literalTruthy. rewrite Hproto, orb_false_r.
    destruct (jsHas n (definitionsMap st)) eqn:Hdef; auto.
    destruct (inv_def_from _ _ Hinv n Hdef) as (d' & Hd' & Hn' & Hc').
    assert (Hp' : properExtension d' = true).
    { apply extensionOnly_proper; auto.
      apply classifiedAsDefinition_is_type in Hc' as [-> _]. reflexivity. }
    apply properExtension_facts in Hp' as (_ & Hno & _). congruence.
Qed.

(** The definitions document neither extends nor defines the name. *)
Lemma Second_getStubTypes_definitions parts :
  Second.getStubTypes doc gw = Ok parts ->
  typeExtensionsOf (definitions parts) n = []
  /\ List.filter (nameIs n) (List.filter isTypeDefinitionNode (definitions parts))
     = [].
Proof using Honly.
  unfold Second.getStubTypes.
  destruct (Second.partitionLoop gw doc emptyPartition) as [st|e] eqn:E;
    simpl; [|discriminate].
  intros [= <-]. simpl.
  pose proof (Second_partitionLoop_inv doc gw doc emptyPartition st
                (fun d H => H) (PartitionInv_empty doc) E) as Hinv.
  assert (Hall : forall v,
             In v (directiveDefinitions st ++ jsValues (definitionsMap st)) ->
             isTypeExtensionNode v = false
             /\ (isTypeDefinitionNode v = true -> nameIs n v = false)).
  { intros v Hv. apply in_app_or in Hv as [Hv|Hv].
    - apply (inv_directives _ _ Hinv) in Hv.
      apply kindIs_directive_not_type in Hv as [Hd He]. split; auto.
      rewrite Hd. discriminate.
    - apply (inv_def_values _ _ Hinv) in Hv as [Hin Hc].
      pose proof (classifiedAsDefinition_is_type v Hc) as [Hd He].
      split; auto. intros _.
      destruct (nameIs n v) eqn:En; auto.
      apply nameIs_true in En.
      assert (Hp : properExtension v = true).
      { apply extensionOnly_proper; auto. now rewrite Hd. }
      apply properExtension_facts in Hp as (_ & Hno & _). congruence. }
  split.
  - unfold typeExtensionsOf. apply filter_none. intros v Hv.
    destruct (Hall v Hv) as [-> _]. reflexivity.
  - apply filter_none. intros v Hv. apply filter_In in Hv as [Hv Hd].
    now apply (Hall v Hv).
Qed.

(** The extensions document defines no type and extends the name. *)
Lemma Second_getStubTypes_extensions parts :
  Second.getStubTypes doc gw = Ok parts ->
  List.filter isTypeDefinitionNode (extensions parts) = []
  /\ nothingToExtend (extensions parts) = false
  /\ forall d, In d doc -> def_name d = Some n ->
               isTypeDefinitionNode d || isTypeExtensionNode d = true ->
               exists e, In e (typeExtensionsOf (extensions parts) n)
                         /\ collectedFrom gw d e.
Proof using Honly.
  intros Hparts.
  pose proof (Second_getStubTypes_collected doc gw parts Hparts) as HF.
  assert (Hcollected : forall d, In d doc -> def_name d = Some n ->
             isTypeDefinitionNode d || isTypeExtensionNode d = true ->
             exists e, In e (typeExtensionsOf (extensions parts) n)
                       /\ collectedFrom gw d e).
  { intros d Hd Hn Ht.
    pose proof (extensionOnly_proper d Hd Hn Ht) as Hp.
    destruct (properExtension_facts d Hp) as (Hc & _ & Hext & _).
    assert (Hin : In d (List.filter classifiedAsExtension doc))
      by (apply filter_In; auto).
    destruct (Forall2_In_left _ _ _ _ HF Hin) as (e & He & Hcol).
    exists e. split; auto. unfold typeExtensionsOf. apply filter_In.
    split; auto. destruct Hcol as (Hname & _ & Hkind & _).
    unfold isTypeExtensionNode, nameIs in *. rewrite Hkind, Hname, Hn.
    rewrite Hext. simpl. apply String.eqb_refl. }
  split; [|split; auto].
  - apply filter_none. intros e He.
    destruct (Forall2_In_right _ _ _ _ HF He) as (d & Hd & Hcol).
    apply filter_In in Hd as [_ Hc].
    destruct Hcol as (_ & _ & Hkind & _).
    pose proof (classifiedAsExtension_rewritten d Hc) as Hr.
    unfold isTypeDefinitionNode in *. now rewrite Hkind.
  - destruct Honly as [(d0 & Hd0 & Hn0 & Hp0) _].
    assert (Ht0 : isTypeDefinitionNode d0 || isTypeExtensionNode d0 = true).
    { apply classifiedAsExtension_is_type. now apply properExtension_facts. }
    destruct (Hcollected d0 Hd0 Hn0 Ht0) as (e & He & _).
    apply filter_In in He as [He Hk].
    apply andb_true_iff in Hk as [Hk _].
    apply (nothingToExtend_false _ e He). rewrite Hk. apply orb_true_r.
Qed.

End ExtensionOnly.



(** The type a stub becomes once definitions and extensions are merged. *)
Lemma Second_merged_type sdlRules orig parts n k c s2 :
  classOfKind k = Some c ->
  List.filter (nameIs n) (typeStubs parts) = [kindAndName (Some k) n] ->
  typeExtensionsOf (definitions parts) n = [] ->
  List.filter (nameIs n) (List.filter isTypeDefinitionNode (definitions parts))
    = [] ->
  List.filter isTypeDefinitionNode (extensions parts) = [] ->
  nothingToExtend (extensions parts) = false ->
  Second.schemaToValidate sdlRules orig parts = Ok s2 ->
  exists t,
    getType (extendSchemaImpl s2 (extensions parts)) n = Some t
    /\ t_class t = c
    /\ t_fields t
       = if hasFieldMap c
         then buildFieldMap (typeExtensionsOf (extensions parts) n)
         else [].
Proof.
  intros Hc Hstub Hdefext Hdefdef Hextdef Hext.
  destruct (classOfKind_definition k c Hc) as [Hkd Hke].
  unfold Second.schemaToValidate.
  destruct (extendSchema sdlRules false orig (typeStubs parts)) as [s1|e] eqn:E1;
    cbn [rbind]; [|discriminate].
  apply extendSchema_Ok in E1. intros E2. apply extendSchema_Ok in E2.
  assert (H1 : exists t1, getType s1 n = Some t1 /\ t_class t1 = c
                          /\ t_fields t1 = []).
  { subst s1. eexists. split.
    - apply (getType_extendSchemaImpl_defined orig (typeStubs parts) n
               (kindAndName (Some k) n) k c); [|reflexivity|exact Hc].
      rewrite filter_filter_comm, Hstub. simpl.
      unfold isTypeDefinitionNode. simpl. now rewrite Hkd.
    - split; [reflexivity|].
      unfold typeExtensionsOf. rewrite filter_andb, Hstub. simpl.
      unfold isTypeExtensionNode. simpl. rewrite Hke. simpl.
      now destruct (hasFieldMap c). }
  destruct H1 as (t1 & Ht1 & Hc1 & Hf1).
  assert (H2 : exists t2, getType s2 n = Some t2 /\ t_class t2 = c
                          /\ t_fields t2 = []).
  { subst s2. rewrite getType_extendSchemaImpl_other by assumption.
    destruct (nothingToExtend (definitions parts)); [eauto|].
    rewrite Ht1, Hdefext. simpl. eexists. split; [reflexivity|].
    split; [exact Hc1|]. now rewrite extendNamedType_nil_fields. }
  destruct H2 as (t2 & Ht2 & Hc2 & Hf2).
  rewrite getType_extendSchemaImpl_other by now rewrite Hextdef.
  rewrite Hext, Ht2. simpl. eexists. split; [reflexivity|].
  split; [exact Hc2|]. rewrite extendNamedType_fields, Hc2, Hf2. reflexivity.
Qed.

(** The service mode tail touches [Query] and [_Entity] only. *)
Lemma Second_addEntitiesResolver_other rules s s' n t :
  Second.addEntitiesResolver rules s = Ok s' ->
  n <> "Query" -> n <> "_Entity" ->
  getType s n = Some t ->
  exists t', getType s' n = Some t'
             /\ t_class t' = t_class t /\ t_fields t' = t_fields t.
Proof.
  unfold Second.addEntitiesResolver. intros H Hq He Ht.
  destruct (entityTypesOf s) as [|x xs]; [injection H as <-; eauto|].
  extendSchema_in H.
  destruct (getFieldsOf _ "Query"); simpl in H; [|discriminate].
  injection H as <-.
  rewrite getType_updateFields_ne by congruence.
  assert (Hnq : String.eqb n "Query" = false) by now apply String.eqb_neq.
  assert (Hne : String.eqb n "_Entity" = false) by now apply String.eqb_neq.
  rewrite getType_extendSchemaImpl_other.
  2:{ simpl. unfold nameIs. simpl. now rewrite Hne. }
  simpl. rewrite Ht. simpl. eexists. split; [reflexivity|].
  split; [reflexivity|].
  unfold typeExtensionsOf. simpl. unfold nameIs. simpl. rewrite Hnq.
  apply extendNamedType_nil_fields.
Qed.

Lemma Second_addServiceAndEntities_other rules s s' n t :
  Second.addServiceAndEntities rules s = Ok s' ->
  n <> "Query" -> n <> "_Entity" ->
  getType s n = Some t ->
  exists t', getType s' n = Some t'
             /\ t_class t' = t_class t /\ t_fields t' = t_fields t.
Proof.
  unfold Second.addServiceAndEntities. intros H Hq He Ht.
  destruct (if isSome (getType s "Query") then _ else _) as [s2|e] eqn:E2;
    simpl in H; [|discriminate].
  assert (Ht2 : getType s2 n = Some t).
  { destruct (isSome (getType s "Query")); [now injection E2 as <-|].
    unfold schemaWithQuery in E2.
    destruct (jsHas "Query" (s_types s)); [discriminate|].
    injection E2 as <-. unfold getType in *. simpl.
    now rewrite jsGet_app, Ht. }
  destruct (Second.getServiceSDL s2) as [[sdl s3]|e] eqn:E3; simpl in H;
    [|discriminate].
  assert (Ht3 : getType s3 n = Some t).
  { unfold Second.getServiceSDL in E3.
    destruct (jsGet "Query" _); [|discriminate].
    destruct (Second.privateFields _); simpl in E3; [|discriminate].
    destruct (printSchema _); simpl in E3; [|discriminate].
    injection E3 as _ <-. rewrite getType_updateFields_ne by congruence.
    exact Ht2. }
  unfold Second.addServiceResolver in H.
  destruct (getFieldsOf s3 "Query"); simpl in H; [|discriminate].
  eapply Second_addEntitiesResolver_other in H; eauto.
  rewrite getType_updateFields_ne by congruence. exact Ht3.
Qed.

Lemma jsHas_jsAssign_target {A} k (target source : JsMap A) :
  jsHas k target = true -> jsHas k (jsAssign target source) = true.
Proof.
  unfold jsAssign. revert target.
  induction source as [|[k' v'] source IH]; simpl; auto.
  intros target H. apply IH. now apply jsHas_jsSet.
Qed.

Lemma jsHas_jsAssign_source {A} k v (target source : JsMap A) :
  In (k, v) source -> jsHas k (jsAssign target source) = true.
Proof.
  unfold jsAssign. revert target.
  induction source as [|[k' v'] source IH]; simpl; [tauto|].
  intros target [[= -> ->]|Hin].
  - apply (jsHas_jsAssign_target k (jsSet k v target) source).
    unfold jsHas. now rewrite jsGet_jsSet_eq.
  - now apply IH.
Qed.

Lemma buildFieldMap_has nodes e f :
  In e nodes -> In f (fieldsOfNode e) ->
  jsHas (fd_name f) (buildFieldMap nodes) = true.
Proof.
  intros He Hf. unfold buildFieldMap.
  apply jsHas_jsAssign_source with (v := fieldOfNode f).
  unfold nodeFieldEntries. apply in_flat_map. exists e. split; auto.
  apply in_map_iff. exists f. auto.
Qed.

Lemma collectedFrom_fields gw d e f :
  collectedFrom gw d e ->
  In f (fieldsOfNode d) ->
  (gw = true -> isExternalField f = false) ->
  In f (fieldsOfNode e).
Proof.
  intros (_ & _ & _ & Hfs) Hf Hext. unfold fieldsOfNode in *.
  destruct gw.
  - destruct Hfs as (fs & Hd & He). rewrite Hd in Hf. rewrite He.
    apply withoutExternal_spec. auto.
  - now rewrite Hfs.
Qed.

(* ================================================================== *)
(** ** More on the partitioner                                         *)
(* ================================================================== *)

Lemma jsHas_jsGet {A} (k : string) (m : JsMap A) :
  jsHas k m = true <-> exists v, jsGet k m = Some v.
Proof.
  unfold jsHas. destruct (jsGet k m) as [v|]; split; eauto.
  - discriminate.
  - intros (v & H). discriminate.
Qed.

Lemma In_jsGet_NoDup {A} (k : string) (v : A) (m : JsMap A) :
  List.NoDup (jsKeys m) -> In (k, v) m -> jsGet k m = Some v.
Proof.
  induction m as [|[k' v'] m IH]; simpl; [tauto|].
  intros Hnd [H|H].
  - injection H as -> ->. now rewrite String.eqb_refl.
  - inversion Hnd as [|? ? Hnotin Hnd']; subst.
    destruct (String.eqb k k') eqn:E; auto.
    apply String.eqb_eq in E. subst k'. exfalso. apply Hnotin.
    apply in_map_iff. exists (k, v). auto.
Qed.

Lemma classified_exclusive d :
  classifiedAsDefinition d = true -> classifiedAsExtension d = false.
Proof.
  unfold classifiedAsDefinition, classifiedAsExtension. now intros ->.
Qed.

(** A name with a base definition ends up in the definitions map. *)
Lemma Second_partitionStep_has_def gw st d st' k :
  Second.partitionStep gw st d = Ok st' ->
  k <> "__proto__" ->
  jsHas k (definitionsMap st) = true
  \/ (def_name d = Some k /\ classifiedAsDefinition d = true) ->
  jsHas k (definitionsMap st') = true.
Proof.
  unfold Second.partitionStep, nameOfDefinition, classify, classifiedAsDefinition.
  destruct (def_name d) as [n|] eqn:En; simpl; [|discriminate].
  destruct (isTypeDefinitionNode d && negb (hasExtendsDirective d)) eqn:Edef;
    simpl.
  { intros [= <-] Hk H. simpl. unfold jsHas. rewrite jsGet_literalSet.
    destruct (String.eqb n "__proto__") eqn:Ep.
    - apply String.eqb_eq in Ep. subst n.
      destruct H as [H|[[= <-] _]]; [exact H|congruence].
    - destruct (String.eqb n k) eqn:Enk; auto.
      destruct H as [H|[[= <-] _]]; [exact H|].
      now rewrite String.eqb_refl in Enk. }
  destruct (isTypeExtensionNode d
            || isTypeDefinitionNode d && hasExtendsDirective d) eqn:Eext.
  { destruct (if gw then _ else _) as [pushed|e]; simpl; [|discriminate].
    intros [= <-] _ [H|[_ H]]; [exact H|discriminate]. }
  destruct (kindIs DIRECTIVE_DEFINITION d); intros [= <-] _ [H|[_ H]];
    auto; discriminate.
Qed.

Lemma Second_partitionLoop_has_def gw defs st st' k :
  Second.partitionLoop gw defs st = Ok st' ->
  k <> "__proto__" ->
  jsHas k (definitionsMap st) = true
  \/ (exists d, In d defs /\ def_name d = Some k
                /\ classifiedAsDefinition d = true) ->
  jsHas k (definitionsMap st') = true.
Proof.
  revert st. induction defs as [|d defs IH]; simpl; intros st.
  - intros [= <-] _ [H|(d & [] & _)]. exact H.
  - destruct (Second.partitionStep gw st d) as [st1|e] eqn:E; simpl;
      [|discriminate].
    intros Hloop Hk H. apply (IH st1 Hloop Hk).
    destruct H as [H|(d' & [<-|Hin] & Hn & Hc)].
    + left. eapply Second_partitionStep_has_def; eauto.
    + left. eapply Second_partitionStep_has_def; eauto.
    + right. eauto.
Qed.

Lemma not_proto_key n : inb n objectPrototypeKeys = false -> n <> "__proto__".
Proof. intros H ->. vm_compute in H. discriminate. Qed.

(** The names that get a stub, in the second copy: those the document
    extends without defining, the three roots and the names every object
    literal inherits apart.  (The document is to declare nothing named
    [__proto__]: such a declaration would replace the prototype of the map
    the stub filter reads.) *)
Theorem Second_typeStubs_characterization
    (schemaDefinitions : Document) (isGateway : bool) (out : StubTypes)
    (n : string) :
  Second.getStubTypes schemaDefinitions isGateway = Ok out ->
  (forall d, In d schemaDefinitions -> def_name d <> Some "__proto__") ->
  (exists stub, In stub (typeStubs out) /\ def_name stub = Some n)
  <-> ((exists d, In d schemaDefinitions /\ def_name d = Some n
                  /\ classifiedAsExtension d = true)
       /\ (forall d, In d schemaDefinitions -> def_name d = Some n ->
                     classifiedAsDefinition d = false)
       /\ inb n rootTypeNames = false
       /\ inb n objectPrototypeKeys = false).
Proof.
  unfold Second.getStubTypes.
  destruct (Second.partitionLoop isGateway schemaDefinitions emptyPartition)
    as [st|e] eqn:E; cbn [rbind]; [|discriminate].
  intros [= <-] _. cbn [typeStubs stubTypesOf].
  pose proof (Second_partitionLoop_inv schemaDefinitions isGateway
                schemaDefinitions emptyPartition st (fun d H => H)
                (PartitionInv_empty schemaDefinitions) E)
    as [Hnamed Hnodup Hext Hdef _ _].
  split.
  - intros (stub & Hin & Hn).
    apply in_map_iff in Hin as ([k v] & <- & Hin).
    apply filter_In in Hin as [Hin Hkeep]. cbn [fst snd] in *.
    pose proof (Hnamed _ Hin) as Hk. cbn [fst snd] in Hk.
    assert (k = n) by congruence. subst k.
    unfold Second.keepStub, literalTruthy in Hkeep.
    apply andb_true_iff in Hkeep as [Hlit Hroot].
    apply negb_true_iff in Hlit, Hroot.
    apply orb_false_iff in Hlit as [Hnodef Hproto].
    apply (In_jsGet_NoDup _ _ _ Hnodup) in Hin.
    destruct (Hext _ _ Hin) as (d & Hd & Hdn & Hdc & _).
    repeat split; eauto.
    intros d' Hd' Hn'.
    destruct (classifiedAsDefinition d') eqn:Ec; auto.
    assert (jsHas n (definitionsMap st) = true); [|congruence].
    eapply Second_partitionLoop_has_def;
      [exact E|now apply not_proto_key|]. right. eauto.
  - intros ((d & Hd & Hdn & Hdc) & Hnone & Hroot & Hproto).
    assert (Hhas : jsHas n (extensionsMap st) = true).
    { eapply Second_partitionLoop_has;
        [exact E|now apply not_proto_key|]. right. eauto. }
    apply jsHas_jsGet in Hhas as (stub & Hget).
    exists stub. split.
    + apply in_map_iff. exists (n, stub). split; auto.
      apply filter_In. split; [now apply jsGet_In|]. cbn [fst snd].
      unfold Second.keepStub, literalTruthy. rewrite Hroot, Hproto.
      destruct (jsHas n (definitionsMap st)) eqn:Hd'; auto.
      destruct (Hdef _ Hd') as (d' & Hin' & Hn' & Hc').
      rewrite (Hnone d' Hin' Hn') in Hc'. discriminate.
    + apply jsGet_In in Hget. exact (Hnamed _ Hget).
Qed.

(** *** The [definitions] output *)

Lemma app_snoc_split {A} (seen pre post : list A) (d v : A) :
  seen ++ [d] = pre ++ v :: post ->
  (post = [] /\ v = d /\ pre = seen)
  \/ exists post0, post = post0 ++ [d] /\ seen = pre ++ v :: post0.
Proof.
  destruct (exists_last (l := v :: post)) as (l' & x & E); [discriminate|].
  destruct post as [|p post].
  - intros H. apply app_inj_tail in H as [-> ->]. auto.
  - intros H. destruct (exists_last (l := p :: post)) as (post0 & y & E');
      [discriminate|].
    rewrite E' in H.
    change (seen ++ [d] = pre ++ [v] ++ post0 ++ [y]) in H.
    rewrite !app_assoc in H. apply app_inj_tail in H as [-> ->].
    right. exists post0. rewrite E'. split; auto.
    now rewrite <- app_assoc.
Qed.

Lemma lastDefinitionOf_snoc_other k seen d v :
  (classifiedAsDefinition d = true -> def_name d <> Some k) ->
  lastDefinitionOf k (seen ++ [d]) v <-> lastDefinitionOf k seen v.
Proof.
  intros Hd. unfold lastDefinitionOf. split.
  - intros (Hn & Hc & pre & post & Hsplit & Hpost).
    split; [|split]; auto.
    apply app_snoc_split in Hsplit as [(-> & -> & ->)|(post0 & -> & ->)].
    + exfalso. now apply Hd.
    + exists pre, post0. split; auto.
      intros d' Hd'. apply Hpost. apply in_or_app. now left.
  - intros (Hn & Hc & pre & post & -> & Hpost).
    split; [|split]; auto.
    exists pre, (post ++ [d]). split.
    + now rewrite <- app_assoc.
    + intros d' Hd'. apply in_app_or in Hd' as [Hd'|[<-|[]]]; auto.
Qed.

Lemma lastDefinitionOf_snoc_same k seen d v :
  classifiedAsDefinition d = true -> def_name d = Some k ->
  lastDefinitionOf k (seen ++ [d]) v <-> v = d.
Proof.
  intros Hc Hn. unfold lastDefinitionOf. split.
  - intros (_ & _ & pre & post & Hsplit & Hpost).
    apply app_snoc_split in Hsplit as [(-> & -> & ->)|(post0 & -> & ->)]; auto.
    exfalso. apply (Hpost d); auto. apply in_or_app. right. now left.
  - intros ->. split; [|split]; auto.
    exists seen, []. split; [reflexivity|]. intros d' [].
Qed.

Lemma filter_snoc {A} (p : A -> bool) l x :
  List.filter p (l ++ [x]) = List.filter p l ++ (if p x then [x] else []).
Proof. rewrite List.filter_app. simpl. now destruct (p x). Qed.

Lemma classifiedAsDefinition_not_directive d :
  isTypeDefinitionNode d || isTypeExtensionNode d = true ->
  kindIs DIRECTIVE_DEFINITION d = false.
Proof.
  unfold isTypeDefinitionNode, isTypeExtensionNode, kindIs.
  destruct (def_kind d) as [[]|]; simpl; auto; discriminate.
Qed.

Lemma Second_partitionStep_definitions gw seen st d st' :
  DefinitionsInv seen st ->
  Second.partitionStep gw st d = Ok st' ->
  DefinitionsInv (seen ++ [d]) st'.
Proof.
  intros (Hdirs & Hnodup & Hlast).
  unfold Second.partitionStep, nameOfDefinition, classify.
  destruct (def_name d) as [n|] eqn:En; simpl; [|discriminate].
  destruct (isTypeDefinitionNode d && negb (hasExtendsDirective d)) eqn:Edef.
  { intros [= <-]. unfold DefinitionsInv. simpl.
    assert (Hnd : kindIs DIRECTIVE_DEFINITION d = false).
    { apply classifiedAsDefinition_not_directive.
      apply andb_true_iff in Edef as [-> _]. reflexivity. }
    split; [|split].
    - rewrite filter_snoc, Hnd, app_nil_r. exact Hdirs.
    - now apply NoDup_jsKeys_literalSet.
    - intros k v. rewrite jsGet_literalSet.
      destruct (String.eqb n "__proto__") eqn:Ep.
      + apply String.eqb_eq in Ep. subst n. rewrite Hlast.
        split; intros [Hk H]; (split; [exact Hk|]);
          [apply lastDefinitionOf_snoc_other
          |apply lastDefinitionOf_snoc_other in H]; auto; congruence.
      + apply String.eqb_neq in Ep.
        destruct (String.eqb n k) eqn:Enk.
        * apply String.eqb_eq in Enk. subst k.
          rewrite lastDefinitionOf_snoc_same by assumption.
          split; [intros [= <-]; auto|intros [_ ->]; auto].
        * apply String.eqb_neq in Enk. rewrite Hlast.
          rewrite lastDefinitionOf_snoc_other; [tauto|].
          intros _. congruence. }
  assert (Hother : forall k v,
             lastDefinitionOf k (seen ++ [d]) v <-> lastDefinitionOf k seen v).
  { intros k v. apply lastDefinitionOf_snoc_other.
    unfold classifiedAsDefinition. rewrite Edef. discriminate. }
  destruct (isTypeExtensionNode d
            || isTypeDefinitionNode d && hasExtendsDirective d) eqn:Eext.
  { destruct (if gw then _ else _) as [pushed|e]; simpl; [|discriminate].
    intros [= <-]. unfold DefinitionsInv. simpl.
    assert (Hnd : kindIs DIRECTIVE_DEFINITION d = false).
    { apply classifiedAsDefinition_not_directive.
      apply orb_true_iff in Eext as [->|H]; [apply orb_true_r|].
      apply andb_true_iff in H as [-> _]. reflexivity. }
    split; [|split]; auto.
    - rewrite filter_snoc, Hnd, app_nil_r. exact Hdirs.
    - intros k v. now rewrite Hlast, Hother. }
  destruct (kindIs DIRECTIVE_DEFINITION d) eqn:Edir; intros [= <-];
    unfold DefinitionsInv; simpl; split; [|split| |split]; auto.
  - rewrite filter_snoc, Edir. now rewrite Hdirs.
  - intros k v. now rewrite Hlast, Hother.
  - rewrite filter_snoc, Edir, app_nil_r. exact Hdirs.
  - intros k v. now rewrite Hlast, Hother.
Qed.

Lemma Second_partitionLoop_definitions gw defs seen st st' :
  DefinitionsInv seen st ->
  Second.partitionLoop gw defs st = Ok st' ->
  DefinitionsInv (seen ++ defs) st'.
Proof.
  revert seen st. induction defs as [|d defs IH]; simpl; intros seen st Hinv.
  - intros [= <-]. now rewrite app_nil_r.
  - destruct (Second.partitionStep gw st d) as [st1|e] eqn:E; simpl;
      [|discriminate].
    intros Hloop.
    change (d :: defs) with ([d] ++ defs). rewrite app_assoc.
    eapply IH; [|exact Hloop].
    eapply Second_partitionStep_definitions; eauto.
Qed.

Lemma DefinitionsInv_empty : DefinitionsInv [] emptyPartition.
Proof.
  unfold DefinitionsInv. simpl. split; [reflexivity|]. split; [constructor|].
  intros k v. split; [discriminate|].
  intros (_ & _ & _ & pre & post & H & _). now destruct pre.
Qed.

Lemma NoDup_map_Some {A} (l : list A) :
  List.NoDup l -> List.NoDup (map Some l).
Proof.
  induction 1 as [|x l Hx Hnd IH]; simpl; constructor; auto.
  intros H. apply in_map_iff in H as (y & [= ->] & Hy). auto.
Qed.

(** The [definitions] output of the second copy: the directive
    definitions in source order, then one base definition per type name,
    the last one the document holds for that name.  An earlier definition
    of the same name is dropped without a word. *)
Theorem Second_getStubTypes_definitions_last_wins
    (schemaDefinitions : Document) (isGateway : bool) (out : StubTypes) :
  Second.getStubTypes schemaDefinitions isGateway = Ok out ->
  exists typeDefinitions,
    definitions out
    = List.filter (kindIs DIRECTIVE_DEFINITION) schemaDefinitions
      ++ typeDefinitions
    /\ List.NoDup (map def_name typeDefinitions)
    /\ forall v, In v typeDefinitions <->
                 exists n, n <> "__proto__"
                           /\ lastDefinitionOf n schemaDefinitions v.
Proof.
  unfold Second.getStubTypes.
  destruct (Second.partitionLoop isGateway schemaDefinitions emptyPartition)
    as [st|e] eqn:E; cbn [rbind]; [|discriminate].
  intros [= <-]. cbn [definitions stubTypesOf].
  pose proof (Second_partitionLoop_definitions _ _ [] _ _
                DefinitionsInv_empty E) as (Hdirs & Hnodup & Hlast).
  simpl in Hdirs, Hlast.
  exists (jsValues (definitionsMap st)). split; [now rewrite Hdirs|].
  assert (Hnamed : forall kv, In kv (definitionsMap st) ->
                              def_name (snd kv) = Some (fst kv)).
  { intros [k v] Hin. apply (In_jsGet_NoDup _ _ _ Hnodup) in Hin.
    apply Hlast in Hin as (_ & Hn & _). exact Hn. }
  split.
  - unfold jsValues. rewrite map_map.
    rewrite (map_ext_in _ (fun kv => Some (fst kv))) by exact Hnamed.
    rewrite <- (map_map fst Some). now apply NoDup_map_Some.
  - intros v. unfold jsValues. rewrite in_map_iff. split.
    + intros ([k v'] & <- & Hin). exists k. apply Hlast.
      now apply In_jsGet_NoDup.
    + intros (n & Hn). apply Hlast in Hn. apply jsGet_In in Hn.
      exists (n, v). auto.
Qed.

(** *** Errors of the partitioner *)

Lemma isTypeError_inv e : isTypeError e = true -> exists what, e = TypeError what.
Proof. destruct e; simpl; try discriminate. eauto. Qed.

Lemma classify_raises gw n b d st e :
  classify gw n b d st = Throw e -> isTypeError e = true.
Proof.
  unfold classify.
  destruct (isTypeDefinitionNode d && negb b); [discriminate|].
  destruct (isTypeExtensionNode d || isTypeDefinitionNode d && b).
  - destruct gw; simpl; [|discriminate].
    unfold removeExternalFields.
    destruct (def_fields (if b then _ else _)); simpl; [discriminate|].
    now intros [= <-].
  - destruct (kindIs DIRECTIVE_DEFINITION d); discriminate.
Qed.

Lemma Second_partitionStep_raises gw st d e :
  Second.partitionStep gw st d = Throw e -> isTypeError e = true.
Proof.
  unfold Second.partitionStep, nameOfDefinition.
  destruct (def_name d); simpl; [apply classify_raises|now intros [= <-]].
Qed.

Lemma First_partitionStep_raises gw st d e :
  First.partitionStep gw st d = Throw e -> isTypeError e = true.
Proof.
  unfold First.partitionStep, nameOfDefinition.
  destruct (def_name d); simpl; [apply classify_raises|now intros [= <-]].
Qed.

Lemma Second_partitionLoop_nameless gw defs st :
  (exists d, In d defs /\ def_name d = None) ->
  exists e, Second.partitionLoop gw defs st = Throw e /\ isTypeError e = true.
Proof.
  revert st. induction defs as [|d defs IH]; intros st (d0 & Hin & Hn).
  - destruct Hin.
  - simpl. destruct (Second.partitionStep gw st d) as [st1|e] eqn:E; simpl.
    + destruct Hin as [<-|Hin]; [|eauto].
      unfold Second.partitionStep, nameOfDefinition in E. rewrite Hn in E.
      discriminate.
    + exists e. split; auto. eapply Second_partitionStep_raises; eauto.
Qed.

Lemma First_partitionLoop_nameless gw defs st :
  (exists d, In d defs /\ def_name d = None) ->
  exists e, First.partitionLoop gw defs st = Throw e /\ isTypeError e = true.
Proof.
  revert st. induction defs as [|d defs IH]; intros st (d0 & Hin & Hn).
  - destruct Hin.
  - simpl. destruct (First.partitionStep gw st d) as [st1|e] eqn:E; simpl.
    + destruct Hin as [<-|Hin]; [|eauto].
      unfold First.partitionStep, nameOfDefinition in E. rewrite Hn in E.
      discriminate.
    + exists e. split; auto. eapply First_partitionStep_raises; eauto.
Qed.

(** A document that holds a declaration without a name (a [schema] block)
    makes the partitioner of either copy raise a [TypeError]; the second
    copy's [extendFederationSchema], which starts with the partitioner,
    raises it before anything is validated or merged. *)
Theorem nameless_declaration_raises_TypeError
    (c : Copy) (schemaDefinitions : Document) (isGateway : bool) :
  (exists d, In d schemaDefinitions /\ def_name d = None) ->
  (exists what,
     getStubTypesOf c schemaDefinitions isGateway = Throw (TypeError what))
  /\ forall (specifiedSDLRules compositionRules : Rules)
            (originalSchema : GraphQLSchema),
       exists what,
         extendFederationSchemaOf SecondCopy specifiedSDLRules compositionRules
           originalSchema schemaDefinitions isGateway
         = Throw (TypeError what).
Proof.
  intros Hnameless. split.
  - destruct c; simpl.
    + unfold First.getStubTypes.
      destruct (First_partitionLoop_nameless isGateway schemaDefinitions
                  emptyPartition Hnameless) as (e & -> & He).
      apply isTypeError_inv in He as (what & ->). simpl. eauto.
    + unfold Second.getStubTypes.
      destruct (Second_partitionLoop_nameless isGateway schemaDefinitions
                  emptyPartition Hnameless) as (e & -> & He).
      apply isTypeError_inv in He as (what & ->). simpl. eauto.
  - intros sdlRules compRules originalSchema. simpl.
    unfold Second.extendFederationSchema, Second.getStubTypes.
    destruct (Second_partitionLoop_nameless isGateway schemaDefinitions
                emptyPartition Hnameless) as (e & -> & He).
    apply isTypeError_inv in He as (what & ->). simpl. eauto.
Qed.

(** The theorem at [schema { query: Query }] followed by a type. *)
Lemma nameless_declaration_witness :
  (exists what,
     getStubTypesOf FirstCopy [schemaBlock; userDefinition] true
     = Throw (TypeError what))
  /\ forall (specifiedSDLRules compositionRules : Rules)
            (originalSchema : GraphQLSchema),
       exists what,
         extendFederationSchemaOf SecondCopy specifiedSDLRules compositionRules
           originalSchema [schemaBlock; userDefinition] true
         = Throw (TypeError what).
Proof.
  apply (nameless_declaration_raises_TypeError FirstCopy
           [schemaBlock; userDefinition] true).
  exists schemaBlock. split; [now left|reflexivity].
Defined.

(** *** Kinds of the collected extensions *)

Lemma rewrittenKind_kind d :
  classifiedAsExtension d = true ->
  isTypeDefinitionNode (rewrittenKind d) = false
  /\ (def_kind (rewrittenKind d) = None
      <-> isTypeExtensionNode d = true /\ hasExtendsDirective d = true)
  /\ (def_kind (rewrittenKind d) <> None ->
      isTypeExtensionNode (rewrittenKind d) = true).
Proof.
  unfold classifiedAsExtension, rewrittenKind, isTypeDefinitionNode,
    isTypeExtensionNode.
  destruct (hasExtendsDirective d); destruct (def_kind d) as [[]|] eqn:Ek;
    simpl; rewrite ?Ek; simpl; try discriminate; intros _;
    (split; [reflexivity|]); (split; [|congruence]);
    split; try discriminate; auto; intros [? ?]; discriminate.
Qed.

(** No node of the second copy's extensions list is of a definition kind:
    a base definition with [@extends] is collected as an extension.  A
    declaration that is in extension syntax and carries [@extends] as well
    is collected without any kind: the rewrite of its kind looks an
    extension kind up in the table of the definition kinds. *)
Theorem Second_collected_extension_kinds
    (schemaDefinitions : Document) (isGateway : bool) (out : StubTypes) :
  Second.getStubTypes schemaDefinitions isGateway = Ok out ->
  Forall2 (fun d e =>
             def_name e = def_name d
             /\ isTypeDefinitionNode e = false
             /\ (def_kind e = None
                 <-> isTypeExtensionNode d = true
                     /\ hasExtendsDirective d = true)
             /\ (def_kind e <> None -> isTypeExtensionNode e = true))
          (List.filter classifiedAsExtension schemaDefinitions)
          (extensions out).
Proof.
  intros Hout. apply Second_getStubTypes_collected in Hout.
  assert (Hall : Forall (fun d => classifiedAsExtension d = true)
                        (List.filter classifiedAsExtension schemaDefinitions)).
  { apply List.Forall_forall. intros d Hd. now apply filter_In in Hd. }
  revert Hall.
  induction Hout as [|d e ds es (Hn & _ & Hk & _) _ IH]; intros Hall;
    constructor.
  - inversion Hall as [|? ? Hc _]; subst.
    destruct (rewrittenKind_kind d Hc) as (Hdef & Hnone & Hext).
    unfold isTypeDefinitionNode, isTypeExtensionNode in *.
    rewrite Hk. auto.
  - apply IH. now inversion Hall.
Qed.

(** The theorem at [extend type User @extends { posts: Int }]. *)
Lemma Second_collected_extension_kinds_witness :
  Forall2 (fun d e =>
             def_name e = def_name d
             /\ isTypeDefinitionNode e = false
             /\ (def_kind e = None
                 <-> isTypeExtensionNode d = true
                     /\ hasExtendsDirective d = true)
             /\ (def_kind e <> None -> isTypeExtensionNode e = true))
          (List.filter classifiedAsExtension [userExtendedTwice])
          [withKind None userExtendedTwice].
Proof.
  apply (Second_collected_extension_kinds [userExtendedTwice] false
           (mkStubTypes [kindAndName (Some OBJECT_TYPE_EXTENSION) "User"]
              [withKind None userExtendedTwice] [])).
  reflexivity.
Defined.

(** *** The two copies side by side *)

Lemma partitionLoop_service_mode defs st :
  First.partitionLoop false defs st = Second.partitionLoop false defs st.
Proof.
  revert st. induction defs as [|d defs IH]; intros st; simpl; auto.
  assert (E : First.partitionStep false st d = Second.partitionStep false st d).
  { reflexivity. }
  rewrite E. destruct (Second.partitionStep false st d); simpl; auto.
Qed.

Lemma filter_map_snd {A B} (p : B -> bool) (l : list (A * B)) :
  List.filter p (map snd l) = map snd (List.filter (fun kv => p (snd kv)) l).
Proof.
  induction l as [|[k v] l IH]; simpl; auto.
  destruct (p v); simpl; now rewrite IH.
Qed.

(** In service mode the two partitioners differ in one thing only: they
    raise on the same documents, return the same extensions and
    definitions, and the second copy's stubs are the first copy's without
    those named after a root. *)
Theorem getStubTypes_copies_agree_in_service_mode
    (schemaDefinitions : Document) :
  match getStubTypesOf FirstCopy schemaDefinitions false,
        getStubTypesOf SecondCopy schemaDefinitions false with
  | Ok first, Ok second =>
      extensions second = extensions first
      /\ definitions second = definitions first
      /\ typeStubs second
         = List.filter (fun stub => negb (isRootStub stub)) (typeStubs first)
  | Throw e1, Throw e2 => e1 = e2
  | _, _ => False
  end.
Proof.
  simpl. unfold First.getStubTypes, Second.getStubTypes.
  rewrite partitionLoop_service_mode.
  destruct (Second.partitionLoop false schemaDefinitions emptyPartition)
    as [st|e] eqn:E; simpl; auto.
  repeat split.
  assert (Hnamed : keysNamed (extensionsMap st)).
  { eapply Second_partitionLoop_keysNamed; [|exact E]. intros kv []. }
  rewrite filter_map_snd. f_equal.
  rewrite <- filter_andb. apply filter_ext_in.
  intros [k v] Hin. apply Hnamed in Hin. simpl in *.
  unfold Second.keepStub, First.keepStub, isRootStub. rewrite Hin.
  apply andb_comm.
Qed.

(** *** [removeExternalFields] *)

(** [removeExternalFields] raises exactly on a node without a field list.
    Otherwise it touches nothing but the fields, leaves no field that
    carries [@external], and applying it again changes nothing. *)
Theorem removeExternalFields_spec (typeDefinition : DefinitionNode) :
  match removeExternalFields typeDefinition with
  | Ok node =>
      removeExternalFields node = Ok node
      /\ withFields (def_fields typeDefinition) node = typeDefinition
      /\ exists fs fs',
           def_fields typeDefinition = Some fs /\ def_fields node = Some fs'
           /\ forall f, In f fs' <-> In f fs /\ isExternalField f = false
  | Throw e => isTypeError e = true /\ def_fields typeDefinition = None
  end.
Proof.
  unfold removeExternalFields.
  destruct typeDefinition as [k n ds [fs|] ts args]; simpl; [|auto].
  unfold withFields. simpl. split; [|split; [reflexivity|]].
  - f_equal. f_equal. f_equal.
    induction fs as [|f fs IH]; simpl; auto.
    destruct (isExternalField f) eqn:E; simpl; rewrite ?E; simpl;
      now rewrite IH.
  - eexists _, _. split; [reflexivity|]. split; [reflexivity|].
    intros f. rewrite filter_In, negb_true_iff. tauto.
Qed.

(** The characterization of the stubs at a document whose [Query] and
    [User] appear only as extensions: [User] gets a stub. *)
Lemma Second_typeStubs_characterization_witness :
  (exists stub, In stub (typeStubs extensionOnlyParts)
                /\ def_name stub = Some "User")
  <-> ((exists d, In d extensionOnlyDocument /\ def_name d = Some "User"
                  /\ classifiedAsExtension d = true)
       /\ (forall d, In d extensionOnlyDocument -> def_name d = Some "User" ->
                     classifiedAsDefinition d = false)
       /\ inb "User" rootTypeNames = false
       /\ inb "User" objectPrototypeKeys = false).
Proof.
  apply (Second_typeStubs_characterization extensionOnlyDocument true
           extensionOnlyParts "User").
  - reflexivity.
  - intros d [<-|[<-|[]]]; discriminate.
Defined.

(** The [definitions] output at [type User { id: ID }] followed by
    [type User { name: String }]: the second one alone is kept. *)
Lemma Second_definitions_last_wins_witness :
  exists typeDefinitions,
    definitions (mkStubTypes [] [] [userLastDefinition])
    = List.filter (kindIs DIRECTIVE_DEFINITION)
        [userFirstDefinition; userLastDefinition]
      ++ typeDefinitions
    /\ List.NoDup (map def_name typeDefinitions)
    /\ forall v, In v typeDefinitions <->
                 exists n, n <> "__proto__"
                           /\ lastDefinitionOf n
                                [userFirstDefinition; userLastDefinition] v.
Proof.
  apply (Second_getStubTypes_definitions_last_wins
           [userFirstDefinition; userLastDefinition] false
           (mkStubTypes [] [] [userLastDefinition])).
  reflexivity.
Defined.

(* ================================================================== *)
(** ** More on the [_entities] resolver                                *)
(* ================================================================== *)

Lemma JsValue_eqb_refl (v : JsValue) : JsValue_eqb v v = true.
Proof.
  destruct v; simpl; auto.
  - now destruct b.
  - apply Z.eqb_refl.
  - apply String.eqb_refl.
  - apply Nat.eqb_refl.
Qed.

Lemma jsSet_same {A} (k : string) (v : A) (m : JsMap A) :
  jsGet k m = Some v -> jsSet k v m = m.
Proof.
  induction m as [|[k' v'] m IH]; simpl; [discriminate|].
  destruct (String.eqb k k') eqn:E.
  - now intros [= ->].
  - intros H. now rewrite IH.
Qed.

(** Defining [__typename] with the value the property already holds
    changes nothing. *)
Lemma defineValueProperty_same (k : string) (o : JsObject) (p : Property) :
  jsGet k (o_props o) = Some p ->
  defineValueProperty k (p_value p) o = Some o.
Proof.
  intros Hp. unfold defineValueProperty. rewrite Hp.
  destruct (p_configurable p || p_writable p).
  - f_equal. destruct o as [ps ext call prom]. destruct p as [v w en c].
    unfold withProps. simpl in *. now rewrite jsSet_same.
  - now rewrite JsValue_eqb_refl.
Qed.

Lemma addTypeNameToResult_object (l : nat) (o : JsObject) (typename : JsValue)
    (h : Heap) :
  h !! l = Some o ->
  addTypeNameToResult (VRef l) typename h
  = if isSome (o_call o) then (Ok (VRef l), h)
    else match defineValueProperty "__typename" typename o with
         | Some o' => (Ok (VRef l), <[l := o']> h)
         | None => (Throw (TypeError "Cannot redefine property: __typename"), h)
         end.
Proof. intros Ho. unfold addTypeNameToResult. now rewrite Ho. Qed.

Lemma lookup_snoc_old {A} (h : list A) (x : A) (l : nat) (o : A) :
  h !! l = Some o -> (h ++ [x]) !! l = Some o.
Proof.
  intros H. rewrite lookup_app_l; auto. now apply lookup_lt_Some in H.
Qed.

(** A type without [resolveReference] resolves a representation to the
    representation itself: the element returned is the very object that
    was passed in, and the object is left as it was (its [__typename] is
    redefined with the value it holds).  The heap only gains the empty
    arguments object of the call. *)
Theorem default_resolver_returns_the_representation
    (callUser : nat -> JsValue -> list JsValue -> Exec JsValue)
    (unknownType : JsValue -> Thrown)
    (schema : GraphQLSchema) (context : JsValue) (l : nat) (o : JsObject)
    (p : Property) (type : GraphQLNamedType) (h : Heap) :
  h !! l = Some o ->
  jsGet "__typename" (o_props o) = Some p ->
  hasThen o = false ->
  getType schema (toStringJs (p_value p)) = Some type ->
  isObjectType type = true ->
  t_resolveReference type = None ->
  resolveRepresentation callUser unknownType schema context (VRef l) h
  = (Ok (VRef l), h ++ [emptyObject]).
Proof.
  intros Ho Hp Hthen Hty Hobj Hres.
  unfold resolveRepresentation, ebind, getProperty. rewrite Ho, Hp.
  rewrite Hty, Hobj, Hres. unfold alloc, eret.
  pose proof (lookup_snoc_old h emptyObject l o Ho) as Ho'.
  rewrite (tagResult_object callUser l o (p_value p) _ Ho'), Hthen.
  rewrite (addTypeNameToResult_object l o (p_value p) _ Ho').
  destruct (isSome (o_call o)); [reflexivity|].
  rewrite (defineValueProperty_same _ _ _ Hp).
  f_equal. apply list_insert_id. exact Ho'.
Qed.

(** The theorem at a representation of [Plain]. *)
Lemma default_resolver_witness :
  resolveRepresentation noUserCode unknownTypeSecond resolvingSchema
    VUndefined (VRef 0) heapPlain
  = (Ok (VRef 0), heapPlain ++ [emptyObject]).
Proof.
  apply (default_resolver_returns_the_representation noUserCode
           unknownTypeSecond resolvingSchema VUndefined 0
           (representation "Plain" 3) (plainProperty (VString "Plain"))
           (mkType ObjectType [] [] None [] None) heapPlain);
    reflexivity.
Defined.

(** A reference resolver that returns a falsy value ([null], [undefined],
    [false], [0] or the empty string) yields that value as the element:
    the deferred value test is skipped and nothing is tagged. *)
Theorem falsy_result_passes_through
    (callUser : nat -> JsValue -> list JsValue -> Exec JsValue)
    (unknownType : JsValue -> Thrown)
    (schema : GraphQLSchema) (context reference typename result : JsValue)
    (type : GraphQLNamedType) (resolveReference : Resolver) (h h' : Heap) :
  fst (getProperty reference "__typename" h) = Ok typename ->
  getType schema (toStringJs typename) = Some type ->
  isObjectType type = true ->
  t_resolveReference type = Some resolveReference ->
  resolveReference reference (VRef (length h)) context (h ++ [emptyObject])
    = (Ok result, h') ->
  truthy result = false ->
  resolveRepresentation callUser unknownType schema context reference h
  = (Ok result, h').
Proof.
  intros Hname Hty Hobj Hres Hcall Hfalsy.
  unfold resolveRepresentation, ebind.
  pose proof (getProperty_heap reference "__typename" h) as Hh.
  destruct (getProperty reference "__typename" h) as [r h0]. simpl in *.
  subst r h0. rewrite Hty, Hobj, Hres. unfold alloc. rewrite Hcall.
  rewrite tagResult_primitive by (destruct result; auto; discriminate).
  now rewrite Hfalsy.
Qed.

(** The theorem at a type whose resolver answers [null]. *)
Lemma falsy_result_witness :
  resolveRepresentation noUserCode unknownTypeFirst schemaWithMissing
    VUndefined (VRef 0) [representation "Missing" 9]
  = (Ok VNull, [representation "Missing" 9; emptyObject]).
Proof.
  apply (falsy_result_passes_through noUserCode unknownTypeFirst
           schemaWithMissing VUndefined (VRef 0) (VString "Missing") VNull
           (mkType ObjectType [] [] None [] (Some nullResolver)) nullResolver
           [representation "Missing" 9]
           [representation "Missing" 9; emptyObject]);
    reflexivity.
Defined.

(** A result that is a promise is not tagged at once.  The element is a
    new promise, made by [then] with the tagging closure; the promise the
    resolver returned is left as it was.  When the resolver's promise
    fulfils with a value, the new one settles to that value passed
    through [addTypeNameToResult]; when it rejects, the new one rejects
    with the same reason and nothing is tagged. *)
Theorem deferred_result_is_tagged_on_settlement
    (callUser : nat -> JsValue -> list JsValue -> Exec JsValue)
    (l : nat) (o : JsObject) (state : PromiseState) (typename : JsValue)
    (h : Heap) :
  h !! l = Some o ->
  o_promise o = Some state ->
  jsGet "then" (o_props o) = None ->
  let callback := mkObject [] true (Some (TypeNameCallback typename)) None in
  let chained := mkObject [] true None (Some (ThenOf l (length h))) in
  let h1 := h ++ [callback; chained] in
  tagResult callUser (VRef l) typename h = (Ok (VRef (S (length h))), h1)
  /\ h1 !! l = Some o
  /\ forall fuel,
       match state with
       | Fulfils v =>
           settle callUser (S (S fuel)) (S (length h)) h1
           = addTypeNameToResult v typename h1
       | Rejects v =>
           settle callUser (S (S fuel)) (S (length h)) h1
           = (Throw (UserThrow v), h1)
       | ThenOf _ _ => True
       end.
Proof.
  intros Ho Hprom Hthen. cbv zeta.
  set (cb := mkObject [] true (Some (TypeNameCallback typename)) None).
  set (np := mkObject [] true None (Some (ThenOf l (length h)))).
  assert (Hl : l < length h) by now apply lookup_lt_Some in Ho.
  assert (Ho1 : (h ++ [cb; np]) !! l = Some o)
    by (rewrite lookup_app_l; auto).
  assert (Hcb : (h ++ [cb; np]) !! length h = Some cb).
  { rewrite lookup_app_r by lia. now rewrite Nat.sub_diag. }
  assert (Hnp : (h ++ [cb; np]) !! S (length h) = Some np).
  { rewrite lookup_app_r by lia.
    replace (S (length h) - length h) with 1 by lia. reflexivity. }
  split; [|split; [exact Ho1|]].
  - rewrite (tagResult_object callUser l o typename h Ho).
    unfold hasThen, thenMethod, jsHas. rewrite Hthen, Hprom. simpl.
    unfold callThen, ebind, alloc. simpl.
    rewrite length_app. simpl. rewrite Nat.add_1_r.
    rewrite <- app_assoc. reflexivity.
  - intros fuel.
    destruct state as [v|v|parent cb0]; [| |exact I];
      cbn [settle]; unfold Heap in *; rewrite Hnp; cbn [o_promise np];
      rewrite Ho1, Hprom; [rewrite Hcb|]; reflexivity.
Qed.

(** The theorem at a promise that fulfils with the object at address 0. *)
Lemma deferred_result_witness :
  let callback :=
    mkObject [] true (Some (TypeNameCallback (VString "Post"))) None in
  let chained := mkObject [] true None (Some (ThenOf 1 (length heapPromises))) in
  let h1 := heapPromises ++ [callback; chained] in
  tagResult noUserCode (VRef 1) (VString "Post") heapPromises
  = (Ok (VRef (S (length heapPromises))), h1)
  /\ h1 !! 1 = Some (mkObject [] true None (Some (Fulfils (VRef 0))))
  /\ forall fuel,
       settle noUserCode (S (S fuel)) (S (length heapPromises)) h1
       = addTypeNameToResult (VRef 0) (VString "Post") h1.
Proof.
  apply (deferred_result_is_tagged_on_settlement noUserCode 1
           (mkObject [] true None (Some (Fulfils (VRef 0)))) (Fulfils (VRef 0))
           (VString "Post") heapPromises);
    reflexivity.
Defined.

(* ================================================================== *)
(** ** More on [stripCommonPrimitives] (first copy)                    *)
(* ================================================================== *)

Lemma filter_idempotent {A} (p : A -> bool) l :
  List.filter p (List.filter p l) = List.filter p l.
Proof.
  induction l as [|x l IH]; simpl; auto.
  destruct (p x) eqn:E; simpl; rewrite ?E, IH; auto.
Qed.

Lemma typeDefinitionVisitor_fixed node node' :
  First.typeDefinitionVisitor node = Some node' ->
  First.typeDefinitionVisitor node' = Some node'.
Proof.
  unfold First.typeDefinitionVisitor.
  destruct (nameIs "Query" node) eqn:Eq.
  - destruct (def_fields node) as [fs|]; [|discriminate].
    destruct (List.filter _ fs) as [|f0 fs'] eqn:Ef; [discriminate|].
    intros [= <-].
    assert (Hn : nameIs "Query" (withFields (Some (f0 :: fs')) node) = true)
      by exact Eq.
    rewrite Hn. cbn [def_fields withFields].
    rewrite <- Ef, filter_idempotent, Ef. reflexivity.
  - destruct (nameIs "_Service" node) eqn:Es; [discriminate|].
    intros [= <-]. now rewrite Eq, Es.
Qed.

Lemma typeDefinitionVisitor_kind node node' :
  First.typeDefinitionVisitor node = Some node' ->
  def_kind node' = def_kind node.
Proof.
  intros H. now apply typeDefinitionVisitor_spec in H as (Hk & _).
Qed.

Lemma stripVisitor_fixed node node' :
  First.stripVisitor node = Some node' ->
  First.stripVisitor node' = Some node'.
Proof.
  unfold First.stripVisitor.
  destruct (def_kind node) as [k|] eqn:Ek.
  2:{ intros [= <-]. now rewrite Ek. }
  destruct k; try (intros [= <-]; now rewrite Ek).
  - destruct (nameIs "_Any" node || nameIs "_FieldSet" node) eqn:En;
      [discriminate|]. intros [= <-]. now rewrite Ek, En.
  - intros H. rewrite (typeDefinitionVisitor_kind _ _ H), Ek.
    now apply typeDefinitionVisitor_fixed in H.
  - destruct (nameIs "_Entity" node) eqn:En; [discriminate|].
    intros [= <-]. now rewrite Ek, En.
  - intros H. rewrite (typeDefinitionVisitor_kind _ _ H), Ek.
    now apply typeDefinitionVisitor_fixed in H.
Qed.

(** Stripping a stripped document changes nothing: whatever the first
    pass keeps, a second pass keeps as it is. *)
Theorem stripCommonPrimitives_idempotent (document : Document) :
  First.stripCommonPrimitives (First.stripCommonPrimitives document)
  = First.stripCommonPrimitives document.
Proof.
  unfold First.stripCommonPrimitives.
  induction document as [|node document IH]; [reflexivity|].
  cbn [omap list_omap].
  destruct (First.stripVisitor node) as [node'|] eqn:E; [|exact IH].
  cbn [omap list_omap]. rewrite (stripVisitor_fixed _ _ E).
  f_equal. exact IH.
Qed.

Lemma stripVisitor_other node :
  isFederationNode node = false -> First.stripVisitor node = Some node.
Proof.
  unfold isFederationNode, First.stripVisitor, First.typeDefinitionVisitor,
    kindIs.
  destruct (def_kind node) as [[]|]; simpl; auto;
    rewrite ?orb_false_r; intros H; rewrite ?H; auto.
  - apply orb_false_iff in H as [-> ->]. reflexivity.
  - apply orb_false_iff in H as [-> ->]. reflexivity.
Qed.

Lemma stripVisitor_federation node node' :
  isFederationNode node = true -> First.stripVisitor node = Some node' ->
  isFederationNode node' = true.
Proof.
  unfold isFederationNode, First.stripVisitor, kindIs.
  destruct (def_kind node) as [[]|] eqn:Ek; simpl;
    rewrite ?orb_false_r; try discriminate.
  - intros ->. discriminate.
  - intros Hn Hv.
    pose proof (typeDefinitionVisitor_spec _ _ Hv) as (Hk & Hname & _).
    rewrite Hk, Ek. simpl. now rewrite !(nameIs_same _ _ _ Hname).
  - intros ->. discriminate.
  - intros Hn Hv.
    pose proof (typeDefinitionVisitor_spec _ _ Hv) as (Hk & Hname & _).
    rewrite Hk, Ek. simpl. now rewrite !(nameIs_same _ _ _ Hname).
Qed.

(** [stripCommonPrimitives] has a say on the federation nodes only.  Every
    other node of the document is kept as it is and in its place: the
    directive definitions (those of [@key], [@external] and the like
    included, which are not removed), interfaces, enums, input objects,
    and all object types but [Query] and [_Service]. *)
Theorem stripCommonPrimitives_keeps_other_nodes (document : Document) :
  List.filter (fun node => negb (isFederationNode node))
    (First.stripCommonPrimitives document)
  = List.filter (fun node => negb (isFederationNode node)) document.
Proof.
  unfold First.stripCommonPrimitives.
  induction document as [|node document IH]; [reflexivity|].
  cbn [omap list_omap List.filter].
  destruct (isFederationNode node) eqn:Ef; cbn [negb].
  - destruct (First.stripVisitor node) as [node'|] eqn:E; [|exact IH].
    cbn [List.filter]. rewrite (stripVisitor_federation _ _ Ef E). exact IH.
  - rewrite (stripVisitor_other _ Ef). cbn [List.filter]. rewrite Ef.
    cbn [negb]. f_equal. exact IH.
Qed.

(* ================================================================== *)
(** ** Which types a composed schema holds                             *)
(* ================================================================== *)

Lemma jsHas_jsSet_bool {A} (k n : string) (v : A) (m : JsMap A) :
  jsHas n (jsSet k v m) = String.eqb k n || jsHas n m.
Proof. unfold jsHas. rewrite jsGet_jsSet. now destruct (String.eqb k n). Qed.

Lemma jsHas_map_extendExisting doc n m :
  jsHas n (map (extendExisting doc) m) = jsHas n m.
Proof.
  unfold jsHas. rewrite jsGet_map_extendExisting. now destruct (jsGet n m).
Qed.

Lemma typeDefinition_class d :
  isTypeDefinitionNode d = true ->
  exists k c, def_kind d = Some k /\ classOfKind k = Some c.
Proof.
  unfold isTypeDefinitionNode.
  destruct (def_kind d) as [[]|]; simpl; try discriminate; eauto.
Qed.

Lemma jsHas_addTypeDefinition_bool doc n m d :
  isTypeDefinitionNode d = true ->
  jsHas n (addTypeDefinition doc m d) = jsHas n m || nameIs n d.
Proof.
  intros Hd. destruct (typeDefinition_class d Hd) as (k & c & Hk & Hc).
  unfold addTypeDefinition, nameIs. rewrite Hk, Hc.
  destruct (def_name d) as [k'|]; [|now rewrite orb_false_r].
  rewrite jsHas_jsSet_bool, String.eqb_sym. apply orb_comm.
Qed.

Lemma jsHas_fold_addTypeDefinition_bool doc n defs m :
  (forall d, In d defs -> isTypeDefinitionNode d = true) ->
  jsHas n (fold_left (addTypeDefinition doc) defs m)
  = jsHas n m || existsb (nameIs n) defs.
Proof.
  revert m. induction defs as [|d defs IH]; intros m Hall; simpl.
  - now rewrite orb_false_r.
  - rewrite IH by (intros d' Hd'; apply Hall; now right).
    rewrite jsHas_addTypeDefinition_bool by (apply Hall; now left).
    now rewrite orb_assoc.
Qed.

Lemma existsb_filter {A} (p q : A -> bool) l :
  existsb p (List.filter q l) = existsb (fun x => q x && p x) l.
Proof.
  induction l as [|x l IH]; simpl; auto.
  destruct (q x); simpl; now rewrite IH.
Qed.

Lemma existsb_false {A} (p : A -> bool) l :
  (forall x, In x l -> p x = false) -> existsb p l = false.
Proof.
  induction l as [|x l IH]; simpl; auto. intros H.
  rewrite (H x (or_introl eq_refl)). apply IH. intros y Hy. apply H. now right.
Qed.

Lemma nothingToExtend_no_definition doc n :
  nothingToExtend doc = true -> existsb (definesTypeNamed n) doc = false.
Proof.
  unfold nothingToExtend. intros H. apply negb_true_iff in H.
  apply existsb_false. intros d Hd. unfold definesTypeNamed.
  destruct (isTypeDefinitionNode d) eqn:E; auto.
  assert (existsb (fun d => isTypeDefinitionNode d || isTypeExtensionNode d
                            || kindIs DIRECTIVE_DEFINITION d
                            || kindIs SCHEMA_DEFINITION d
                            || kindIs SCHEMA_EXTENSION d) doc = true);
    [|congruence].
  apply existsb_exists. exists d. split; auto. now rewrite E.
Qed.

(** The type names after [extendSchema]: those the schema had and those
    the document defines. *)
Lemma hasType_extendSchemaImpl_bool s doc n :
  hasType (extendSchemaImpl s doc) n
  = hasType s n || existsb (definesTypeNamed n) doc.
Proof.
  unfold extendSchemaImpl, hasType.
  destruct (nothingToExtend doc) eqn:E.
  - now rewrite (nothingToExtend_no_definition doc n E), orb_false_r.
  - simpl. rewrite jsHas_fold_addTypeDefinition_bool
      by (intros d Hd; now apply filter_In in Hd).
    rewrite jsHas_map_extendExisting, existsb_filter. reflexivity.
Qed.

Lemma hasType_extendSchema_bool rules b s doc s' n :
  extendSchema rules b s doc = Ok s' ->
  hasType s' n = hasType s n || existsb (definesTypeNamed n) doc.
Proof.
  intros H. apply extendSchema_Ok in H. subst s'.
  apply hasType_extendSchemaImpl_bool.
Qed.

Lemma hasType_schemaWithQuery_other s t s' n :
  schemaWithQuery s "Query" t = Ok s' -> n <> "Query" ->
  hasType s' n = hasType s n.
Proof.
  unfold schemaWithQuery. destruct (jsHas "Query" (s_types s)); [discriminate|].
  intros [= <-] Hn. unfold hasType, jsHas. simpl. rewrite jsGet_app. simpl.
  destruct (jsGet n (s_types s)); auto.
  destruct (String.eqb n "Query") eqn:E; auto.
  apply String.eqb_eq in E. congruence.
Qed.

Lemma hasType_synthesis_other s s' n :
  (if isSome (getType s "Query") then Ok s
   else schemaWithQuery s "Query" emptyObjectType) = Ok s' ->
  n <> "Query" -> hasType s' n = hasType s n.
Proof.
  destruct (isSome (getType s "Query")).
  - now intros [= <-].
  - apply hasType_schemaWithQuery_other.
Qed.

Lemma entitiesDocument_defines ets n :
  n <> "_Entity" -> existsb (definesTypeNamed n) (entitiesDocument ets) = false.
Proof.
  intros Hn. unfold entitiesDocument, definesTypeNamed, nameIs. simpl.
  destruct (String.eqb n "_Entity") eqn:E; auto.
  apply String.eqb_eq in E. congruence.
Qed.

Lemma First_addEntitiesResolver_hasType rules s s' n :
  First.addEntitiesResolver rules s = Ok s' -> n <> "_Entity" ->
  hasType s' n = hasType s n.
Proof.
  unfold First.addEntitiesResolver. intros H Hn.
  destruct (getFieldsOf s "Query") as [fs|e]; simpl in H; [|discriminate].
  destruct (entityTypesOf s) as [|et ets]; [now injection H as <-|].
  destruct (jsHas "_entities" fs); simpl in H.
  - injection H as <-. apply hasType_updateFields.
  - extendSchema_in H.
    destruct (getFieldsOf (extendSchemaImpl s (entitiesDocument (et :: ets)))
                "Query") as [fs'|e]; simpl in H; [|discriminate].
    injection H as <-. rewrite hasType_updateFields.
    rewrite hasType_extendSchemaImpl_bool, entitiesDocument_defines by auto.
    apply orb_false_r.
Qed.

Lemma First_addServiceResolver_hasType rules s s' sdl n :
  First.addServiceResolver rules s = Ok (s', sdl) ->
  hasType s' n = hasType s n.
Proof.
  unfold First.addServiceResolver. intros H.
  destruct (getFieldsOf s "Query") as [fs|e]; simpl in H; [|discriminate].
  destruct (jsHas "_service" fs); simpl in H.
  - destruct (printSchema s) as [p|e]; simpl in H; [|discriminate].
    injection H as <- _. apply hasType_updateFields.
  - extendSchema_in H.
    destruct (getFieldsOf (extendSchemaImpl s [serviceFieldExtension]) "Query")
      as [fs'|e]; simpl in H; [|discriminate].
    destruct (printSchema (extendSchemaImpl s [serviceFieldExtension]))
      as [p|e]; simpl in H; [|discriminate].
    injection H as <- _. rewrite hasType_updateFields.
    rewrite hasType_extendSchemaImpl_bool. simpl. apply orb_false_r.
Qed.

Lemma hasType_schemaWithRootsByName s n :
  hasType (schemaWithRootsByName s) n = hasType s n.
Proof. reflexivity. Qed.

Lemma First_mergeValidated_hasType rules s0 doc gw s n :
  First.mergeValidated rules s0 doc gw = Ok s ->
  n <> "Query" -> n <> "_Entity" ->
  hasType s n = hasType s0 n || existsb (definesTypeNamed n) doc.
Proof.
  unfold First.mergeValidated. extendSchema_goal. intros H Hq He.
  destruct (if isSome (getType (extendSchemaImpl s0 doc) "Query") then _ else _)
    as [s2|e] eqn:E2; cbn [rbind] in H; [|discriminate].
  apply (hasType_synthesis_other _ _ n) in E2; auto.
  rewrite hasType_extendSchemaImpl_bool in E2.
  destruct gw; cbn [rbind] in H.
  - injection H as <-. now rewrite hasType_schemaWithRootsByName.
  - destruct (First.addEntitiesResolver rules s2) as [s3|e] eqn:E3;
      cbn [rbind] in H; [|discriminate].
    destruct (First.addServiceResolver rules s3) as [[s4 sdl]|e] eqn:E4;
      cbn [rbind] in H; [|discriminate].
    injection H as <-. rewrite hasType_schemaWithRootsByName.
    cbn [fst].
    rewrite (First_addServiceResolver_hasType _ _ _ _ n E4).
    rewrite (First_addEntitiesResolver_hasType _ _ _ n E3) by auto.
    exact E2.
Qed.

Lemma First_schemaToValidate_hasType orig doc s0 n :
  First.schemaToValidate orig doc = Ok s0 -> n <> "Query" ->
  hasType s0 n = hasType orig n.
Proof.
  unfold First.schemaToValidate.
  destruct (isSome (getType orig "Query")); [now intros [= <-]|].
  destruct (First.findNamed "Query" doc) as [[]|e]; simpl;
    [|now intros [= <-]|discriminate].
  apply hasType_schemaWithQuery_other.
Qed.

Lemma First_extendFederationSchema_hasType r1 r2 orig doc gw s n :
  First.extendFederationSchema r1 r2 orig doc gw = Ok s ->
  n <> "Query" -> n <> "_Entity" ->
  hasType s n = hasType orig n || existsb (definesTypeNamed n) doc.
Proof.
  unfold First.extendFederationSchema. intros H Hq He.
  destruct (First.schemaToValidate orig doc) as [s0|e] eqn:E0;
    cbn [rbind] in H; [|discriminate].
  destruct (raiseCompositionErrors _); cbn [rbind] in H; [|discriminate].
  rewrite (First_mergeValidated_hasType _ _ _ _ _ n H) by auto.
  now rewrite (First_schemaToValidate_hasType _ _ _ n E0).
Qed.

(** *** The second copy *)

Lemma Second_typeStubs_not_root doc gw out n :
  Second.getStubTypes doc gw = Ok out ->
  inb n rootTypeNames = true ->
  existsb (definesTypeNamed n) (typeStubs out) = false.
Proof.
  unfold Second.getStubTypes.
  destruct (Second.partitionLoop gw doc emptyPartition) as [st|e] eqn:E;
    cbn [rbind]; [|discriminate].
  intros [= <-] Hroot. cbn [typeStubs stubTypesOf].
  assert (Hnamed : keysNamed (extensionsMap st)).
  { eapply Second_partitionLoop_keysNamed; [|exact E]. intros kv []. }
  apply existsb_false. intros stub Hin.
  apply in_map_iff in Hin as ([k v] & <- & Hin).
  apply filter_In in Hin as [Hin Hkeep]. apply Hnamed in Hin.
  cbn [fst snd] in *. unfold definesTypeNamed, nameIs. rewrite Hin.
  destruct (String.eqb n k) eqn:Enk; [|apply andb_false_r].
  apply String.eqb_eq in Enk. subst k.
  unfold Second.keepStub in Hkeep. rewrite Hroot in Hkeep.
  now rewrite andb_false_r in Hkeep.
Qed.

Lemma Second_definitions_define doc gw out n :
  Second.getStubTypes doc gw = Ok out ->
  n <> "__proto__" ->
  existsb (definesTypeNamed n) (definitions out)
  = existsb (fun d => classifiedAsDefinition d && nameIs n d) doc.
Proof.
  unfold Second.getStubTypes.
  destruct (Second.partitionLoop gw doc emptyPartition) as [st|e] eqn:E;
    cbn [rbind]; [|discriminate].
  intros [= <-] Hn. cbn [definitions stubTypesOf].
  pose proof (Second_partitionLoop_definitions _ _ [] _ _
                DefinitionsInv_empty E) as (Hdirs & Hnodup & Hlast).
  simpl in Hdirs, Hlast.
  destruct (existsb (fun d => classifiedAsDefinition d && nameIs n d) doc)
    eqn:Edoc.
  - apply existsb_exists in Edoc as (d & Hd & Hp).
    apply andb_true_iff in Hp as [Hc Hname]. apply nameIs_true in Hname.
    assert (Hhas : jsHas n (definitionsMap st) = true).
    { eapply Second_partitionLoop_has_def; [exact E|exact Hn|]. right. eauto. }
    apply jsHas_jsGet in Hhas as (v & Hv).
    pose proof (proj1 (Hlast n v) Hv) as (_ & Hvn & Hvc & _).
    apply existsb_exists. exists v. split.
    + apply in_or_app. right. unfold jsValues. apply in_map_iff.
      exists (n, v). split; auto. now apply jsGet_In.
    + unfold definesTypeNamed, nameIs. rewrite Hvn, String.eqb_refl.
      apply classifiedAsDefinition_is_type in Hvc as [-> _]. reflexivity.
  - apply existsb_false. intros v Hv. unfold definesTypeNamed.
    apply in_app_or in Hv as [Hv|Hv].
    + rewrite Hdirs in Hv. apply filter_In in Hv as [_ Hv].
      apply kindIs_directive_not_type in Hv as [-> _]. reflexivity.
    + unfold jsValues in Hv. apply in_map_iff in Hv as ([k v'] & <- & Hin).
      apply (In_jsGet_NoDup _ _ _ Hnodup) in Hin.
      apply Hlast in Hin as (_ & Hvn & Hvc & pre & post & -> & _).
      cbn [snd]. destruct (nameIs n v') eqn:Ename; [|apply andb_false_r].
      exfalso.
      assert (existsb (fun d => classifiedAsDefinition d && nameIs n d)
                (pre ++ v' :: post) = true); [|congruence].
      apply existsb_exists. exists v'. split.
      * apply in_or_app. right. now left.
      * now rewrite Hvc, Ename.
Qed.

Lemma Second_extensions_define_nothing doc gw out n :
  Second.getStubTypes doc gw = Ok out ->
  existsb (definesTypeNamed n) (extensions out) = false.
Proof.
  intros Hout. apply Second_getStubTypes_collected in Hout.
  apply existsb_false. intros e He.
  destruct (Forall2_In_right _ _ _ _ Hout He) as (d & Hd & _ & _ & Hk & _).
  apply filter_In in Hd as [_ Hc].
  apply classifiedAsExtension_rewritten in Hc.
  unfold definesTypeNamed, isTypeDefinitionNode in *. rewrite Hk, Hc.
  reflexivity.
Qed.

Lemma Second_addEntitiesResolver_hasType rules s s' n :
  Second.addEntitiesResolver rules s = Ok s' -> n <> "_Entity" ->
  hasType s' n = hasType s n.
Proof.
  unfold Second.addEntitiesResolver. intros H Hn.
  destruct (entityTypesOf s) as [|et ets]; [now injection H as <-|].
  extendSchema_in H.
  destruct (getFieldsOf _ "Query") as [fs|e]; cbn [rbind] in H; [|discriminate].
  injection H as <-. rewrite hasType_updateFields.
  rewrite hasType_extendSchemaImpl_bool, entitiesDocument_defines by auto.
  apply orb_false_r.
Qed.

Lemma Second_addServiceAndEntities_hasType rules s s' n :
  Second.addServiceAndEntities rules s = Ok s' ->
  n <> "Query" -> n <> "_Entity" ->
  hasType s' n = hasType s n.
Proof.
  unfold Second.addServiceAndEntities. intros H Hq He.
  destruct (if isSome (getType s "Query") then _ else _) as [s1|e] eqn:E1;
    cbn [rbind] in H; [|discriminate].
  destruct (Second.getServiceSDL s1) as [[sdl s2]|e] eqn:E2;
    cbn [rbind fst snd] in H; [|discriminate].
  destruct (Second.addServiceResolver s2 sdl) as [s3|e] eqn:E3;
    cbn [rbind] in H; [|discriminate].
  rewrite (Second_addEntitiesResolver_hasType _ _ _ n H) by auto.
  unfold Second.addServiceResolver in E3.
  destruct (getFieldsOf s2 "Query"); cbn [rbind] in E3; [|discriminate].
  injection E3 as <-. rewrite hasType_updateFields.
  rewrite (Second_getServiceSDL_hasType _ _ _ n E2).
  now apply (hasType_synthesis_other _ _ n) in E1.
Qed.

Lemma Second_extendFederationSchema_hasType r1 r2 orig doc gw s n :
  Second.extendFederationSchema r1 r2 orig doc gw = Ok s ->
  inb n rootTypeNames = true -> n <> "Query" ->
  hasType s n
  = hasType orig n
    || existsb (fun d => classifiedAsDefinition d && nameIs n d) doc.
Proof.
  unfold Second.extendFederationSchema. intros H Hroot Hq.
  assert (He : n <> "_Entity") by (intros ->; discriminate).
  assert (Hp : n <> "__proto__") by (intros ->; discriminate).
  destruct (Second.getStubTypes doc gw) as [parts|e] eqn:Ep;
    cbn [rbind] in H; [|discriminate].
  destruct (Second.schemaToValidate r1 orig parts) as [s2|e] eqn:E2;
    cbn [rbind] in H; [|discriminate].
  destruct (raiseCompositionErrors _); cbn [rbind] in H; [|discriminate].
  unfold Second.schemaToValidate in E2.
  destruct (extendSchema r1 false orig (typeStubs parts)) as [s1|e] eqn:E1;
    cbn [rbind] in E2; [|discriminate].
  apply (hasType_extendSchema_bool _ _ _ _ _ n) in E1, E2.
  rewrite (Second_typeStubs_not_root _ _ _ n Ep Hroot), orb_false_r in E1.
  rewrite (Second_definitions_define _ _ _ n Ep Hp), E1 in E2.
  unfold Second.mergeValidated in H. extendSchema_in H.
  assert (E3 : hasType (extendSchemaImpl s2 (extensions parts)) n
               = hasType s2 n).
  { rewrite hasType_extendSchemaImpl_bool.
    rewrite (Second_extensions_define_nothing _ _ _ n Ep). apply orb_false_r. }
  destruct gw.
  - injection H as <-. now rewrite E3.
  - rewrite (Second_addServiceAndEntities_hasType _ _ _ n H) by auto.
    now rewrite E3.
Qed.

Lemma rootNamed_hasType s n :
  rootNamed s n = if hasType s n then Some n else None.
Proof. reflexivity. Qed.

Lemma existsb_ext_eq {A} (p q : A -> bool) l :
  (forall x, p x = q x) -> existsb p l = existsb q l.
Proof. intros H. induction l as [|x l IH]; simpl; congruence. Qed.

(** The mutation and subscription roots of a built schema.  The schema
    has a mutation root exactly when the document defines a type named
    [Mutation], and the root is that type; likewise for [Subscription].
    The definitions that count are those the copy enters as new types:
    every type definition in the first copy, the base definitions without
    [@extends] in the second. *)
Theorem operation_roots_come_from_definitions
    (c : Copy) (specifiedSDLRules compositionRules : Rules)
    (document : Document) (isGateway : bool) (s : GraphQLSchema) :
  buildFederationSchemaOf c specifiedSDLRules compositionRules
    (print document) isGateway = Ok s ->
  s_mutation s = rootDefinedBy c "Mutation" document
  /\ s_subscription s = rootDefinedBy c "Subscription" document.
Proof.
  intros H.
  assert (Hroots : forall n, n = "Mutation" \/ n = "Subscription" ->
            exists x, s = schemaWithRootsByName x
                      /\ hasType x n
                         = existsb (fun d => definesType c d && nameIs n d)
                             document).
  { intros n Hn.
    assert (Hq : n <> "Query") by (destruct Hn as [-> | ->]; discriminate).
    assert (He : n <> "_Entity") by (destruct Hn as [-> | ->]; discriminate).
    assert (Hr : inb n rootTypeNames = true)
      by (destruct Hn as [-> | ->]; reflexivity).
    destruct c; cbn [buildFederationSchemaOf] in H.
    - unfold First.buildFederationSchema in H. cbn [parse print] in H.
      destruct (extendSchema specifiedSDLRules false emptySchema _)
        as [s0|e] eqn:E0; cbn [rbind] in H; [|discriminate].
      apply (hasType_extendSchema_bool _ _ _ _ _ n) in E0.
      pose proof (First_extendFederationSchema_hasType _ _ _ _ _ _ n H Hq He)
        as Hs.
      unfold First.extendFederationSchema in H.
      destruct (First.schemaToValidate s0 document) as [s1|e]; cbn [rbind] in H;
        [|discriminate].
      destruct (raiseCompositionErrors _); cbn [rbind] in H; [|discriminate].
      apply First_mergeValidated_root in H as (x & -> & _).
      exists x. split; [reflexivity|].
      rewrite hasType_schemaWithRootsByName in Hs.
      assert (Hbase : hasType s0 n = false).
      { rewrite E0. destruct Hn as [-> | ->]; destruct isGateway; reflexivity. }
      rewrite Hs, Hbase. reflexivity.
    - unfold Second.buildFederationSchema in H. cbn [parse print] in H.
      destruct (extendSchema specifiedSDLRules false emptySchema _)
        as [s0|e] eqn:E0; cbn [rbind] in H; [|discriminate].
      apply (hasType_extendSchema_bool _ _ _ _ _ n) in E0.
      destruct (Second.extendFederationSchema _ _ s0 document isGateway)
        as [x|e] eqn:Ex; cbn [rbind] in H; [|discriminate].
      injection H as <-. exists x. split; [reflexivity|].
      rewrite (Second_extendFederationSchema_hasType _ _ _ _ _ _ n Ex Hr Hq).
      assert (Hbase : hasType s0 n = false).
      { rewrite E0. destruct Hn as [-> | ->]; destruct isGateway; reflexivity. }
      rewrite Hbase. reflexivity. }
  unfold rootDefinedBy. split.
  - destruct (Hroots "Mutation" (or_introl eq_refl)) as (x & -> & Hx).
    cbn [s_mutation schemaWithRootsByName]. now rewrite rootNamed_hasType, Hx.
  - destruct (Hroots "Subscription" (or_intror eq_refl)) as (x & -> & Hx).
    cbn [s_subscription schemaWithRootsByName].
    now rewrite rootNamed_hasType, Hx.
Qed.

(** The theorem at [type Query { version: String }] with
    [type Mutation { add: Int }], in gateway mode of the second copy: a
    mutation root and no subscription root. *)
Lemma operation_roots_witness :
  buildFederationSchemaOf SecondCopy noErrors noErrors
    (print operationsDocument) true = Ok secondGatewayOperationsSchema
  /\ s_mutation secondGatewayOperationsSchema = Some "Mutation"
  /\ s_subscription secondGatewayOperationsSchema = None.
Proof.
  split; [reflexivity|].
  apply (operation_roots_come_from_definitions SecondCopy noErrors noErrors
           operationsDocument true secondGatewayOperationsSchema).
  reflexivity.
Defined.

(* ================================================================== *)
(** ** What a composition never drops                                  *)
(* ================================================================== *)

Lemma keeps_refl s : keepsDeclarations s s.
Proof. split; auto. Qed.

Lemma keeps_trans s1 s2 s3 :
  keepsDeclarations s1 s2 -> keepsDeclarations s2 s3 ->
  keepsDeclarations s1 s3.
Proof. intros [H1 H2] [H3 H4]. split; auto. Qed.

Lemma keeps_extendSchemaImpl s doc :
  keepsDeclarations s (extendSchemaImpl s doc).
Proof.
  split.
  - intros n. apply hasType_extendSchemaImpl.
  - intros d Hd. unfold extendSchemaImpl.
    destruct (nothingToExtend doc); auto. simpl. apply in_or_app. now left.
Qed.

Lemma keeps_extendSchema rules b s doc s' :
  extendSchema rules b s doc = Ok s' -> keepsDeclarations s s'.
Proof.
  intros H. apply extendSchema_Ok in H. subst. apply keeps_extendSchemaImpl.
Qed.

Lemma keeps_updateFields k f s : keepsDeclarations s (updateFields k f s).
Proof.
  split.
  - intros n. now rewrite hasType_updateFields.
  - intros d. unfold updateFields. now destruct (jsGet k (s_types s)).
Qed.

Lemma keeps_schemaWithQuery s n t s' :
  schemaWithQuery s n t = Ok s' -> keepsDeclarations s s'.
Proof.
  unfold schemaWithQuery. destruct (jsHas n (s_types s)); [discriminate|].
  intros [= <-]. split; auto.
  intros k. unfold hasType, jsHas. simpl. rewrite jsGet_app.
  now destruct (jsGet k (s_types s)).
Qed.

Lemma keeps_synthesis s s' :
  (if isSome (getType s "Query") then Ok s
   else schemaWithQuery s "Query" emptyObjectType) = Ok s' ->
  keepsDeclarations s s'.
Proof.
  destruct (isSome (getType s "Query")).
  - intros [= <-]. apply keeps_refl.
  - apply keeps_schemaWithQuery.
Qed.

Lemma keeps_schemaWithRootsByName s :
  keepsDeclarations s (schemaWithRootsByName s).
Proof. split; auto. Qed.

Lemma First_addEntitiesResolver_keeps rules s s' :
  First.addEntitiesResolver rules s = Ok s' -> keepsDeclarations s s'.
Proof.
  unfold First.addEntitiesResolver. intros H.
  destruct (getFieldsOf s "Query") as [fs|e]; simpl in H; [|discriminate].
  destruct (entityTypesOf s) as [|et ets];
    [injection H as <-; apply keeps_refl|].
  destruct (jsHas "_entities" fs); simpl in H.
  - injection H as <-. apply keeps_updateFields.
  - extendSchema_in H.
    destruct (getFieldsOf (extendSchemaImpl s (entitiesDocument (et :: ets)))
                "Query") as [fs'|e]; simpl in H; [|discriminate].
    injection H as <-.
    eapply keeps_trans; [apply keeps_extendSchemaImpl|apply keeps_updateFields].
Qed.

Lemma First_addServiceResolver_keeps rules s s' sdl :
  First.addServiceResolver rules s = Ok (s', sdl) -> keepsDeclarations s s'.
Proof.
  unfold First.addServiceResolver. intros H.
  destruct (getFieldsOf s "Query") as [fs|e]; simpl in H; [|discriminate].
  destruct (jsHas "_service" fs); simpl in H.
  - destruct (printSchema s) as [p|e]; simpl in H; [|discriminate].
    injection H as <- _. apply keeps_updateFields.
  - extendSchema_in H.
    destruct (getFieldsOf (extendSchemaImpl s [serviceFieldExtension]) "Query")
      as [fs'|e]; simpl in H; [|discriminate].
    destruct (printSchema (extendSchemaImpl s [serviceFieldExtension]))
      as [p|e]; simpl in H; [|discriminate].
    injection H as <- _.
    eapply keeps_trans; [apply keeps_extendSchemaImpl|apply keeps_updateFields].
Qed.

Lemma First_mergeValidated_keeps rules s0 doc gw s :
  First.mergeValidated rules s0 doc gw = Ok s ->
  keepsDeclarations (extendSchemaImpl s0 doc) s.
Proof.
  unfold First.mergeValidated. extendSchema_goal. intros H.
  destruct (if isSome (getType (extendSchemaImpl s0 doc) "Query") then _ else _)
    as [s2|e] eqn:E2; cbn [rbind] in H; [|discriminate].
  apply keeps_synthesis in E2. eapply keeps_trans; [exact E2|].
  destruct gw; cbn [rbind] in H.
  - injection H as <-. apply keeps_schemaWithRootsByName.
  - destruct (First.addEntitiesResolver rules s2) as [s3|e] eqn:E3;
      cbn [rbind] in H; [|discriminate].
    destruct (First.addServiceResolver rules s3) as [[s4 sdl]|e] eqn:E4;
      cbn [rbind] in H; [|discriminate].
    injection H as <-. cbn [fst].
    eapply keeps_trans; [eapply First_addEntitiesResolver_keeps; eauto|].
    eapply keeps_trans; [eapply First_addServiceResolver_keeps; eauto|].
    apply keeps_schemaWithRootsByName.
Qed.

Lemma First_schemaToValidate_keeps orig doc s0 :
  First.schemaToValidate orig doc = Ok s0 -> keepsDeclarations orig s0.
Proof.
  unfold First.schemaToValidate.
  destruct (isSome (getType orig "Query"));
    [intros [= <-]; apply keeps_refl|].
  destruct (First.findNamed "Query" doc) as [[]|e]; simpl;
    [|intros [= <-]; apply keeps_refl|discriminate].
  apply keeps_schemaWithQuery.
Qed.

Lemma directive_in_extendSchemaImpl s doc d :
  In d doc -> kindIs DIRECTIVE_DEFINITION d = true ->
  In d (s_directives (extendSchemaImpl s doc)).
Proof.
  intros Hd Hk. unfold extendSchemaImpl.
  destruct (nothingToExtend doc) eqn:E.
  - exfalso. unfold nothingToExtend in E. apply negb_true_iff in E.
    assert (existsb (fun d => isTypeDefinitionNode d || isTypeExtensionNode d
                              || kindIs DIRECTIVE_DEFINITION d
                              || kindIs SCHEMA_DEFINITION d
                              || kindIs SCHEMA_EXTENSION d) doc = true);
      [|congruence].
    apply existsb_exists. exists d. split; auto.
    rewrite Hk. now rewrite !orb_true_r.
  - simpl. apply in_or_app. right. apply filter_In. auto.
Qed.

Lemma Second_getServiceSDL_keeps s sdl s' :
  Second.getServiceSDL s = Ok (sdl, s') -> keepsDeclarations s s'.
Proof.
  unfold Second.getServiceSDL.
  destruct (jsGet "Query" _) as [query|]; [|discriminate].
  destruct (Second.privateFields query); simpl; [|discriminate].
  destruct (printSchema _); simpl; [|discriminate].
  intros [= _ <-]. apply keeps_updateFields.
Qed.

Lemma Second_addEntitiesResolver_keeps rules s s' :
  Second.addEntitiesResolver rules s = Ok s' -> keepsDeclarations s s'.
Proof.
  unfold Second.addEntitiesResolver. intros H.
  destruct (entityTypesOf s) as [|et ets];
    [injection H as <-; apply keeps_refl|].
  extendSchema_in H.
  destruct (getFieldsOf _ "Query") as [fs|e]; cbn [rbind] in H; [|discriminate].
  injection H as <-.
  eapply keeps_trans; [apply keeps_extendSchemaImpl|apply keeps_updateFields].
Qed.

Lemma Second_addServiceAndEntities_keeps rules s s' :
  Second.addServiceAndEntities rules s = Ok s' -> keepsDeclarations s s'.
Proof.
  unfold Second.addServiceAndEntities. intros H.
  destruct (if isSome (getType s "Query") then _ else _) as [s1|e] eqn:E1;
    cbn [rbind] in H; [|discriminate].
  destruct (Second.getServiceSDL s1) as [[sdl s2]|e] eqn:E2;
    cbn [rbind fst snd] in H; [|discriminate].
  destruct (Second.addServiceResolver s2 sdl) as [s3|e] eqn:E3;
    cbn [rbind] in H; [|discriminate].
  eapply keeps_trans; [eapply keeps_synthesis; eauto|].
  eapply keeps_trans; [eapply Second_getServiceSDL_keeps; eauto|].
  eapply keeps_trans; [|eapply Second_addEntitiesResolver_keeps; eauto].
  unfold Second.addServiceResolver in E3.
  destruct (getFieldsOf s2 "Query"); cbn [rbind] in E3; [|discriminate].
  injection E3 as <-. apply keeps_updateFields.
Qed.

Lemma Second_definitions_directives doc gw out d :
  Second.getStubTypes doc gw = Ok out ->
  In d doc -> kindIs DIRECTIVE_DEFINITION d = true ->
  In d (definitions out).
Proof.
  unfold Second.getStubTypes.
  destruct (Second.partitionLoop gw doc emptyPartition) as [st|e] eqn:E;
    cbn [rbind]; [|discriminate].
  intros [= <-] Hd Hk. cbn [definitions stubTypesOf].
  pose proof (Second_partitionLoop_definitions _ _ [] _ _
                DefinitionsInv_empty E) as (Hdirs & _).
  simpl in Hdirs. apply in_or_app. left. rewrite Hdirs.
  apply filter_In. auto.
Qed.

(** Both copies, on the way from the schema handed in to the schema
    returned. *)
Lemma extendFederationSchemaOf_keeps c r1 r2 orig doc gw s :
  extendFederationSchemaOf c r1 r2 orig doc gw = Ok s ->
  keepsDeclarations orig s
  /\ (forall d, In d doc -> kindIs DIRECTIVE_DEFINITION d = true ->
                In d (s_directives s))
  /\ forall d n, In d doc -> definesType c d = true ->
                 def_name d = Some n -> n <> "__proto__" ->
                 hasType s n = true.
Proof.
  destruct c; cbn [extendFederationSchemaOf].
  - unfold First.extendFederationSchema. intros H.
    destruct (First.schemaToValidate orig doc) as [s0|e] eqn:E0;
      cbn [rbind] in H; [|discriminate].
    destruct (raiseCompositionErrors _); cbn [rbind] in H; [|discriminate].
    apply First_schemaToValidate_keeps in E0.
    apply First_mergeValidated_keeps in H. split; [|split].
    + eapply keeps_trans; [exact E0|].
      eapply keeps_trans; [apply keeps_extendSchemaImpl|exact H].
    + intros d Hd Hk. apply H. now apply directive_in_extendSchemaImpl.
    + intros d n Hd Hdef Hn _. apply H.
      rewrite hasType_extendSchemaImpl_bool. apply orb_true_iff. right.
      apply existsb_exists. exists d. split; auto.
      unfold definesTypeNamed, nameIs. cbn [definesType] in Hdef.
      now rewrite Hdef, Hn, String.eqb_refl.
  - unfold Second.extendFederationSchema. intros H.
    destruct (Second.getStubTypes doc gw) as [parts|e] eqn:Ep;
      cbn [rbind] in H; [|discriminate].
    destruct (Second.schemaToValidate r1 orig parts) as [s2|e] eqn:E2;
      cbn [rbind] in H; [|discriminate].
    destruct (raiseCompositionErrors _); cbn [rbind] in H; [|discriminate].
    unfold Second.schemaToValidate in E2.
    destruct (extendSchema r1 false orig (typeStubs parts)) as [s1|e] eqn:E1;
      cbn [rbind] in E2; [|discriminate].
    pose proof (extendSchema_Ok _ _ _ _ _ E2) as E2'.
    apply keeps_extendSchema in E1, E2.
    unfold Second.mergeValidated in H. extendSchema_in H.
    assert (Htail : keepsDeclarations s2 s).
    { eapply keeps_trans; [apply (keeps_extendSchemaImpl s2 (extensions parts))|].
      destruct gw; [injection H as <-; apply keeps_refl|].
      eapply Second_addServiceAndEntities_keeps; eauto. }
    split; [|split].
    + eapply keeps_trans; [exact E1|]. eapply keeps_trans; eauto.
    + intros d Hd Hk. apply Htail. subst s2.
      apply directive_in_extendSchemaImpl; auto.
      eapply Second_definitions_directives; eauto.
    + intros d n Hd Hdef Hn Hproto. apply Htail. subst s2.
      rewrite hasType_extendSchemaImpl_bool. apply orb_true_iff. right.
      rewrite (Second_definitions_define _ _ _ n Ep Hproto).
      apply existsb_exists. exists d. split; auto.
      cbn [definesType] in Hdef. unfold nameIs.
      now rewrite Hdef, Hn, String.eqb_refl.
Qed.

(** [extendFederationSchema] never drops a declaration: the schema it
    returns declares every type name and every directive of the schema it
    was given, every directive the document defines, and every type the
    document defines. *)
Theorem composition_never_drops_declarations
    (c : Copy) (specifiedSDLRules compositionRules : Rules)
    (originalSchema : GraphQLSchema) (document : Document) (isGateway : bool)
    (s : GraphQLSchema) :
  extendFederationSchemaOf c specifiedSDLRules compositionRules
    originalSchema document isGateway = Ok s ->
  (forall n, hasType originalSchema n = true -> hasType s n = true)
  /\ (forall d, In d (s_directives originalSchema) -> In d (s_directives s))
  /\ (forall d, In d document -> kindIs DIRECTIVE_DEFINITION d = true ->
                In d (s_directives s))
  /\ (forall d n, In d document -> definesType c d = true ->
                  def_name d = Some n -> n <> "__proto__" ->
                  hasType s n = true).
Proof.
  intros H.
  apply extendFederationSchemaOf_keeps in H as ([Ht Hd] & Hdoc & Hdef).
  repeat split; auto.
Qed.

(** The theorem at the first copy in gateway mode. *)
Lemma composition_never_drops_witness :
  (forall n, hasType gatewayBaseSchema n = true ->
             hasType firstGatewayExtendedSchema n = true)
  /\ (forall d, In d (s_directives gatewayBaseSchema) ->
                In d (s_directives firstGatewayExtendedSchema))
  /\ (forall d, In d [userDefinition] -> kindIs DIRECTIVE_DEFINITION d = true ->
                In d (s_directives firstGatewayExtendedSchema))
  /\ (forall d n, In d [userDefinition] -> definesType FirstCopy d = true ->
                  def_name d = Some n -> n <> "__proto__" ->
                  hasType firstGatewayExtendedSchema n = true).
Proof.
  apply (composition_never_drops_declarations FirstCopy noErrors noErrors
           gatewayBaseSchema [userDefinition] true firstGatewayExtendedSchema).
  reflexivity.
Defined.



(* ================================================================== *)
(** ** Installing the [_entities] resolver                             *)
(* ================================================================== *)

Lemma getFieldsOf_Ok schema n t :
  getType schema n = Some t -> hasFieldMap (t_class t) = true ->
  getFieldsOf schema n = Ok (t_fields t).
Proof.
  intros Ht Hc. unfold getFieldsOf, getFields. now rewrite Ht, Hc.
Qed.

Lemma getType_updateFields_eq k f s t :
  getType s k = Some t ->
  getType (updateFields k f s) k = Some (withTypeFields (f (t_fields t)) t).
Proof.
  unfold getType, updateFields. intros H. rewrite H. simpl.
  apply jsGet_jsSet_eq.
Qed.

Lemma jsGet_setResolve_ne n k r fs :
  k <> n -> jsGet k (setResolve n r fs) = jsGet k fs.
Proof. intros H. unfold setResolve. apply jsGet_jsSet_ne. congruence. Qed.

Lemma fieldsComplete_rebuildsTypes schema :
  fieldsComplete schema -> rebuildsTypes schema = true.
Proof.
  intros H. unfold rebuildsTypes. apply forallb_forall. intros [n t] Hin.
  cbn [snd]. unfold rebuildsType. apply orb_true_iff. right.
  apply forallb_forall. intros [k f] Hf. cbn [snd].
  destruct (H n t k f Hin Hf) as [Ht Ha]. unfold rebuildsField.
  destruct (gf_type f); [|congruence]. destruct (gf_args f); [|congruence].
  reflexivity.
Qed.

Lemma extendSchema_assumeValid_returns rules s doc :
  rebuildsTypes s = true ->
  extendSchema rules true s doc = Ok (extendSchemaImpl s doc).
Proof.
  intros H. unfold extendSchema, extendTypes, extendSchemaImpl.
  destruct (nothingToExtend doc); [reflexivity|]. now rewrite H.
Qed.

(** With at least one entity type, and a [Query] type that has no
    [_entities] field yet, [addEntitiesResolver] of either copy returns a
    schema in which [_Entity] is the union of the entity types, in type
    map order, and [Query] has gained the field
    [_entities(representations: [_Any!]!): [_Entity]!] with the resolver
    of that copy; the other fields of [Query] are as they were. *)
Theorem addEntitiesResolver_installs_union_and_field
    (c : Copy) (specifiedSDLRules : Rules) (schema : GraphQLSchema)
    (query : GraphQLNamedType) :
  getType schema "Query" = Some query ->
  hasFieldMap (t_class query) = true ->
  jsGet "_entities" (t_fields query) = None ->
  entityTypesOf schema <> [] ->
  hasType schema "_Any" = true ->
  fieldsComplete schema ->
  exists s' union query',
    addEntitiesResolverOf c specifiedSDLRules schema = Ok s'
    /\ getType s' "_Entity" = Some union
    /\ t_class union = UnionType
    /\ t_types union = entityTypesOf schema
    /\ getType s' "Query" = Some query'
    /\ jsGet "_entities" (t_fields query') = Some (entitiesField c)
    /\ forall k, k <> "_entities" ->
                 jsGet k (t_fields query') = jsGet k (t_fields query).
Proof.
  intros Hq Hclass Hnone Hets _ Hcomplete.
  apply fieldsComplete_rebuildsTypes in Hcomplete.
  set (ets := entityTypesOf schema) in *.
  set (extended := extendSchemaImpl schema (entitiesDocument ets)).
  assert (Hq1 : getType extended "Query"
                = Some (extendNamedType
                          (typeExtensionsOf (entitiesDocument ets) "Query")
                          query)).
  { unfold extended. rewrite getType_extendSchemaImpl_other by reflexivity.
    cbn [nothingToExtend]. rewrite Hq. reflexivity. }
  assert (Hu : getType extended "_Entity"
               = Some (buildType (unionDefinition "_Entity" ets) UnionType
                         (typeExtensionsOf (entitiesDocument ets) "_Entity"))).
  { unfold extended.
    apply (getType_extendSchemaImpl_defined schema (entitiesDocument ets)
             "_Entity" (unionDefinition "_Entity" ets) UNION_TYPE_DEFINITION
             UnionType); reflexivity. }
  set (q1 := extendNamedType (typeExtensionsOf (entitiesDocument ets) "Query")
               query) in *.
  assert (Hf1 : t_fields q1
                = jsSet "_entities"
                    (mkField (gf_type (entitiesField c))
                       (gf_args (entitiesField c)) None)
                    (t_fields query)).
  { unfold q1. rewrite extendNamedType_fields, Hclass. reflexivity. }
  assert (Hc1 : hasFieldMap (t_class q1) = true) by exact Hclass.
  set (resolve := EntitiesResolve (unknownTypeOf c)).
  set (final := updateFields "Query" (setResolve "_entities" resolve) extended).
  assert (Hrun : addEntitiesResolverOf c specifiedSDLRules schema = Ok final).
  { destruct c; cbn [addEntitiesResolverOf].
    - unfold First.addEntitiesResolver.
      rewrite (getFieldsOf_Ok _ _ _ Hq Hclass). cbn [rbind].
      fold ets. destruct ets as [|et ets']; [congruence|].
      unfold jsHas. rewrite Hnone.
      rewrite (extendSchema_assumeValid_returns _ _ _ Hcomplete). cbn [rbind].
      fold extended. rewrite (getFieldsOf_Ok _ _ _ Hq1 Hc1). reflexivity.
    - unfold Second.addEntitiesResolver.
      fold ets. destruct ets as [|et ets']; [congruence|].
      rewrite (extendSchema_assumeValid_returns _ _ _ Hcomplete). cbn [rbind].
      fold extended. rewrite (getFieldsOf_Ok _ _ _ Hq1 Hc1). reflexivity. }
  exists final, (buildType (unionDefinition "_Entity" ets) UnionType
                   (typeExtensionsOf (entitiesDocument ets) "_Entity")),
    (withTypeFields (setResolve "_entities" resolve (t_fields q1)) q1).
  split; [exact Hrun|]. split; [|split; [reflexivity|split]].
  - unfold final. rewrite getType_updateFields_ne by discriminate. exact Hu.
  - cbn. apply app_nil_r.
  - split; [apply (getType_updateFields_eq _ _ _ _ Hq1)|]. split.
    + cbn [t_fields withTypeFields]. unfold setResolve.
      rewrite jsGet_jsSet_eq, Hf1, jsGet_jsSet_eq. reflexivity.
    + intros k Hk. cbn [t_fields withTypeFields].
      rewrite jsGet_setResolve_ne by exact Hk.
      rewrite Hf1. apply jsGet_jsSet_ne. congruence.
Qed.

(** The theorem at the second copy, for a schema with
    [type Query { me: User }] and [type User @key(fields: "id") { id: ID }]. *)
Lemma addEntitiesResolver_installs_witness :
  exists s' union query',
    addEntitiesResolverOf SecondCopy noErrors keyedUserSchema = Ok s'
    /\ getType s' "_Entity" = Some union
    /\ t_class union = UnionType
    /\ t_types union = entityTypesOf keyedUserSchema
    /\ getType s' "Query" = Some query'
    /\ jsGet "_entities" (t_fields query') = Some (entitiesField SecondCopy)
    /\ forall k, k <> "_entities" ->
                 jsGet k (t_fields query') = jsGet k (t_fields keyedUserQuery).
Proof.
  apply (addEntitiesResolver_installs_union_and_field SecondCopy noErrors
           keyedUserSchema keyedUserQuery);
    try reflexivity.
  - vm_compute. discriminate.
  - intros n type k f Hn Hk. vm_compute in Hn.
    repeat (destruct Hn as [Hn|Hn];
            [injection Hn as <- <-; vm_compute in Hk;
             repeat (destruct Hk as [Hk|Hk];
                     [injection Hk as <- <-; split; discriminate|]);
             destruct Hk|]).
    destruct Hn.
Defined.

(* ================================================================== *)
(** ** [getServiceSDL] (second copy)                                   *)
(* ================================================================== *)

Lemma jsGet_jsDelete_ne {A} (k k' : string) (m : JsMap A) :
  k <> k' -> jsGet k' (jsDelete k m) = jsGet k' m.
Proof.
  intros Hne. induction m as [|[k0 v0] m IH]; simpl; auto.
  destruct (String.eqb k k0) eqn:E; simpl.
  - apply String.eqb_eq in E. subst k0.
    destruct (String.eqb k' k) eqn:E'; auto.
    apply String.eqb_eq in E'. congruence.
  - destruct (String.eqb k' k0); auto.
Qed.

Lemma jsGet_jsDelete_eq {A} (k : string) (m : JsMap A) :
  uniqueKeys m -> jsGet k (jsDelete k m) = None.
Proof.
  unfold uniqueKeys. induction m as [|[k0 v0] m IH]; simpl; auto.
  intros Hnd. inversion Hnd as [|? ? Hnotin Hnd']; subst.
  destruct (String.eqb k k0) eqn:E; simpl.
  - apply String.eqb_eq in E. subst k0.
    destruct (jsGet k m) eqn:Eg; auto.
    exfalso. apply Hnotin. apply jsGet_In in Eg.
    apply in_map_iff. exists (k, a). auto.
  - rewrite E. auto.
Qed.

Lemma jsKeys_jsDelete_incl {A} (k : string) (m : JsMap A) x :
  In x (jsKeys (jsDelete k m)) -> In x (jsKeys m).
Proof.
  induction m as [|[k0 v0] m IH]; simpl; auto.
  destruct (String.eqb k k0); simpl; auto. intros [H|H]; auto.
Qed.

Lemma uniqueKeys_jsDelete {A} (k : string) (m : JsMap A) :
  uniqueKeys m -> uniqueKeys (jsDelete k m).
Proof.
  unfold uniqueKeys. induction m as [|[k0 v0] m IH]; simpl; auto.
  intros Hnd. inversion Hnd as [|? ? Hnotin Hnd']; subst.
  destruct (String.eqb k k0); simpl; auto.
  constructor; auto. intros H. apply Hnotin.
  eapply jsKeys_jsDelete_incl; eauto.
Qed.

Lemma jsGet_filter_keep {A} (keep : string * A -> bool) (k : string)
    (m : JsMap A) :
  (forall v, keep (k, v) = true) ->
  jsGet k (List.filter keep m) = jsGet k m.
Proof.
  intros Hkeep. induction m as [|[k0 v0] m IH]; simpl; auto.
  destruct (String.eqb k k0) eqn:E.
  - apply String.eqb_eq in E. subst k0. rewrite Hkeep. simpl.
    now rewrite String.eqb_refl.
  - destruct (keep (k0, v0)); simpl; rewrite ?E; auto.
Qed.

(** What [getServiceSDL] leaves of the schema it is given. *)
Lemma Second_getServiceSDL_schema schema sdl stripped :
  Second.getServiceSDL schema = Ok (sdl, stripped) ->
  exists query,
    getType schema "Query" = Some query
    /\ hasFieldMap (t_class query) = true
    /\ stripped
       = updateFields "Query"
           (fun fs => jsDelete "_entities" (jsDelete "_service" fs)) schema.
Proof.
  unfold Second.getServiceSDL.
  rewrite jsGet_filter_keep by reflexivity.
  unfold getType. destruct (jsGet "Query" (s_types schema)) as [query|];
    [|discriminate].
  unfold Second.privateFields.
  destruct (hasFieldMap (t_class query)) eqn:Hc; cbn [rbind]; [|discriminate].
  destruct (printSchema _); cbn [rbind]; [|discriminate].
  intros [= _ <-]. eauto.
Qed.

(** [getServiceSDL] changes the schema it prints: the two [delete]s act
    on the field map of the schema's own [Query] type.  So, when
    [addServiceResolver] then installs the resolver, it spreads a field
    that is gone: the [_service] entry of the schema ends up with a
    [resolve] function and neither type nor arguments, whatever the field
    was declared as, and an [_entities] field is gone altogether. *)
Theorem Second_service_field_loses_its_type
    (schema : GraphQLSchema) (sdl : SDL) (stripped : GraphQLSchema)
    (query : GraphQLNamedType) :
  Second.getServiceSDL schema = Ok (sdl, stripped) ->
  getType schema "Query" = Some query ->
  uniqueKeys (t_fields query) ->
  exists s' query',
    Second.addServiceResolver stripped sdl = Ok s'
    /\ getType s' "Query" = Some query'
    /\ jsGet "_service" (t_fields query')
       = Some (mkField None None (Some (ServiceResolve sdl)))
    /\ jsGet "_entities" (t_fields query') = None
    /\ forall k, k <> "_service" -> k <> "_entities" ->
                 jsGet k (t_fields query') = jsGet k (t_fields query).
Proof.
  intros Hsdl Hq Huniq.
  apply Second_getServiceSDL_schema in Hsdl as (query0 & Hq0 & Hclass & ->).
  assert (query0 = query) by congruence. subst query0.
  set (deleted := jsDelete "_entities" (jsDelete "_service" (t_fields query))).
  set (stripped := updateFields "Query"
                     (fun fs => jsDelete "_entities" (jsDelete "_service" fs))
                     schema).
  assert (Hq1 : getType stripped "Query"
                = Some (withTypeFields deleted query)).
  { unfold stripped, deleted.
    exact (getType_updateFields_eq "Query"
             (fun fs => jsDelete "_entities" (jsDelete "_service" fs))
             schema query Hq). }
  assert (Hnone : jsGet "_service" deleted = None).
  { unfold deleted. rewrite jsGet_jsDelete_ne by discriminate.
    now apply jsGet_jsDelete_eq. }
  exists (updateFields "Query" (setResolve "_service" (ServiceResolve sdl))
            stripped),
    (withTypeFields (setResolve "_service" (ServiceResolve sdl) deleted)
       (withTypeFields deleted query)).
  split; [|split; [|split; [|split]]].
  - unfold Second.addServiceResolver.
    rewrite (getFieldsOf_Ok _ _ _ Hq1 Hclass). reflexivity.
  - apply (getType_updateFields_eq _ _ _ _ Hq1).
  - cbn [t_fields withTypeFields]. unfold setResolve.
    now rewrite jsGet_jsSet_eq, Hnone.
  - cbn [t_fields withTypeFields].
    rewrite jsGet_setResolve_ne by discriminate.
    unfold deleted. apply jsGet_jsDelete_eq.
    now apply uniqueKeys_jsDelete.
  - intros k Hs He. cbn [t_fields withTypeFields].
    rewrite jsGet_setResolve_ne by exact Hs.
    unfold deleted. now rewrite !jsGet_jsDelete_ne by congruence.
Qed.

(** The theorem at a schema whose [Query] was declared with
    [_service: _Service!]. *)
Lemma Second_service_field_witness :
  exists s' query',
    Second.addServiceResolver (snd serviceBaseSDL) (fst serviceBaseSDL) = Ok s'
    /\ getType s' "Query" = Some query'
    /\ jsGet "_service" (t_fields query')
       = Some (mkField None None (Some (ServiceResolve (fst serviceBaseSDL))))
    /\ jsGet "_entities" (t_fields query') = None
    /\ forall k, k <> "_service" -> k <> "_entities" ->
                 jsGet k (t_fields query') = jsGet k (t_fields serviceBaseQuery).
Proof.
  apply (Second_service_field_loses_its_type serviceBaseSchema
           (fst serviceBaseSDL) (snd serviceBaseSDL) serviceBaseQuery).
  - reflexivity.
  - reflexivity.
  - vm_compute. repeat constructor. intros [].
Defined.

(** *** What [getServiceSDL] prints *)

Lemma mapResult_In {A B} (f : A -> Result B) l out y :
  mapResult f l = Ok out -> In y out -> exists x, In x l /\ f x = Ok y.
Proof.
  revert out. induction l as [|x l IH]; simpl; intros out.
  - intros [= <-] [].
  - destruct (f x) as [y0|e] eqn:Ex; simpl; [|discriminate].
    destruct (mapResult f l) as [ys|e]; simpl; [|discriminate].
    intros [= <-] [<-|Hin]; eauto.
    destruct (IH ys eq_refl Hin) as (x' & Hx' & Hf). eauto.
Qed.

Lemma printType_node kv node :
  printType kv = Ok node ->
  def_kind node = Some (kindOfClass (t_class (snd kv)))
  /\ def_name node = Some (fst kv)
  /\ forall f, In f (fieldsOfNode node) ->
               In (fd_name f) (jsKeys (t_fields (snd kv))).
Proof.
  unfold printType.
  destruct (hasFieldMap (t_class (snd kv))); cbn [rbind].
  - destruct (mapResult printField (t_fields (snd kv))) as [fs|e] eqn:E;
      cbn [rbind]; [|discriminate].
    intros [= <-]. repeat split. intros f Hf. cbn in Hf.
    destruct (mapResult_In _ _ _ _ E Hf) as ([k fld] & Hin & Hp).
    unfold printField in Hp. cbn [fst snd] in Hp.
    destruct (gf_args fld); [|discriminate]. injection Hp as <-.
    cbn [fd_name]. apply in_map_iff. exists (k, fld). auto.
  - intros [= <-]. repeat split. intros f [].
Qed.

Lemma addReferenced_In universe m n kv :
  In kv (addReferenced universe m n) -> In kv m \/ In kv universe.
Proof.
  unfold addReferenced.
  destruct (jsGet n m); auto.
  destruct (jsGet n universe) as [t|] eqn:E; auto.
  intros H. apply in_app_or in H as [H|[<-|[]]]; auto.
  right. now apply jsGet_In.
Qed.

Lemma fold_addReferenced_In universe names m kv :
  In kv (fold_left (addReferenced universe) names m) ->
  In kv m \/ In kv universe.
Proof.
  revert m. induction names as [|n names IH]; simpl; intros m; auto.
  intros H. apply IH in H as [H|H]; auto.
  now apply addReferenced_In in H.
Qed.

Lemma iter_collectStep_In universe k seeds kv :
  In kv (Nat.iter k (collectStep universe) seeds) ->
  In kv seeds \/ In kv universe.
Proof.
  induction k as [|k IH]; simpl; auto.
  unfold collectStep at 1. intros H.
  apply fold_addReferenced_In in H as [H|H]; auto.
Qed.

(** The constructor makes up no type: every entry of the new type map is
    one of the types listed or one of the type objects they refer to. *)
Lemma newGraphQLSchema_In universe q m s types directives kv :
  In kv (s_types (newGraphQLSchema universe q m s types directives)) ->
  In kv types \/ In kv universe.
Proof.
  unfold newGraphQLSchema. cbn [s_types]. intros H.
  apply iter_collectStep_In in H as [H|H]; auto.
  now apply fold_addReferenced_In in H.
Qed.

Lemma kindOfClass_not_directive c :
  Kind_eqb DIRECTIVE_DEFINITION (kindOfClass c) = false.
Proof. now destruct c. Qed.

(** The SDL [getServiceSDL] prints holds no definition of a federation
    directive, and its [Query] type has neither a [_service] nor an
    [_entities] field. *)
Theorem Second_getServiceSDL_strips
    (schema : GraphQLSchema) (sdl : SDL) (stripped : GraphQLSchema) :
  Second.getServiceSDL schema = Ok (sdl, stripped) ->
  wellFormedSchema schema ->
  forall node, In node (parse sdl) ->
    isFederationDirective node = false
    /\ (isObjectNodeNamed "Query" node = true ->
        forall f, In f (fieldsOfNode node) -> isFederationField f = false).
Proof.
  intros Hsdl (Htypes & Hfields & Hdirs).
  pose proof (Second_getServiceSDL_schema _ _ _ Hsdl)
    as (query & Hq & Hclass & Hstripped).
  unfold Second.getServiceSDL in Hsdl.
  rewrite jsGet_filter_keep in Hsdl by reflexivity.
  unfold getType in Hq. rewrite Hq in Hsdl.
  unfold Second.privateFields in Hsdl. rewrite Hclass in Hsdl.
  cbn [rbind] in Hsdl. rewrite <- Hstripped in Hsdl.
  destruct (printSchema _) as [printed|e] eqn:Ep; cbn [rbind] in Hsdl;
    [|discriminate].
  injection Hsdl as <-.
  unfold printSchema in Ep.
  destruct (mapResult printType _) as [types|e] eqn:Et; cbn [rbind] in Ep;
    [|discriminate].
  injection Ep as <-. cbn [parse].
  intros node Hnode. apply in_app_or in Hnode as [Hnode|Hnode].
  - (* a directive that passed the filter *)
    cbn [s_directives newGraphQLSchema] in Hnode.
    apply filter_In in Hnode as [Hin Hkeep].
    apply negb_true_iff in Hkeep. split.
    + unfold isFederationDirective.
      destruct (kindIs DIRECTIVE_DEFINITION node); [exact Hkeep|reflexivity].
    + apply Hdirs in Hin. unfold isObjectNodeNamed, kindIs in *.
      destruct (def_kind node) as [[]|]; discriminate.
  - (* a printed type *)
    destruct (mapResult_In _ _ _ _ Et Hnode) as ([k t] & Hin & Hp).
    apply printType_node in Hp as (Hk & Hn & Hf). cbn [fst snd] in *.
    split.
    + unfold isFederationDirective, kindIs. rewrite Hk.
      now rewrite kindOfClass_not_directive.
    + intros Hobj f Hin_f.
      assert (k = "Query").
      { unfold isObjectNodeNamed, nameIs in Hobj. rewrite Hn in Hobj.
        apply andb_true_iff in Hobj as [_ Hobj].
        apply String.eqb_eq in Hobj. congruence. }
      subst k.
      assert (Hin' : In ("Query", t) (s_types stripped)).
      { apply newGraphQLSchema_In in Hin as [Hin|Hin]; auto.
        now apply filter_In in Hin. }
      assert (Ht : t = withTypeFields
                         (jsDelete "_entities"
                            (jsDelete "_service" (t_fields query))) query).
      { rewrite Hstripped in Hin'. unfold updateFields in Hin'.
        rewrite Hq in Hin'. cbn [s_types withTypes] in Hin'.
        apply In_jsGet_NoDup in Hin'; [|now apply NoDup_jsKeys_jsSet].
        rewrite jsGet_jsSet_eq in Hin'. congruence. }
      apply Hf in Hin_f. rewrite Ht in Hin_f.
      cbn [t_fields withTypeFields] in Hin_f.
      assert (Huniq : uniqueKeys (t_fields query)) by now apply Hfields.
      unfold isFederationField, inb. cbn [existsb].
      rewrite orb_false_r. apply orb_false_iff. split.
      * destruct (String.eqb (fd_name f) "_service") eqn:E; auto.
        apply String.eqb_eq in E. rewrite E in Hin_f. exfalso.
        revert Hin_f. apply jsGet_None_notin.
        rewrite jsGet_jsDelete_ne by discriminate.
        now apply jsGet_jsDelete_eq.
      * destruct (String.eqb (fd_name f) "_entities") eqn:E; auto.
        apply String.eqb_eq in E. rewrite E in Hin_f. exfalso.
        revert Hin_f. apply jsGet_None_notin.
        apply jsGet_jsDelete_eq. now apply uniqueKeys_jsDelete.
Qed.

(** The theorem at a schema whose [Query] holds [_service] only. *)
Lemma Second_getServiceSDL_strips_witness :
  List.Forall
    (fun node =>
       isFederationDirective node = false
       /\ (isObjectNodeNamed "Query" node = true ->
           forall f, In f (fieldsOfNode node) -> isFederationField f = false))
    (parse (fst serviceBaseSDL)).
Proof.
  apply List.Forall_forall.
  apply (Second_getServiceSDL_strips serviceBaseSchema (fst serviceBaseSDL)
           (snd serviceBaseSDL)).
  - reflexivity.
  - split; [|split].
    + vm_compute. repeat constructor; simpl; intuition discriminate.
    + intros query Hq. vm_compute in Hq. injection Hq as <-.
      vm_compute. repeat constructor. intros [].
    + intros d Hd. vm_compute in Hd.
      repeat (destruct Hd as [<-|Hd]; [reflexivity|]). destruct Hd.
Defined.

(* ================================================================== *)
(** ** A nameless declaration in the first copy                        *)
(* ================================================================== *)

Lemma findNamed_nameless n pre d post :
  def_name d = None ->
  (forall d', In d' pre -> exists m, def_name d' = Some m /\ m <> n) ->
  exists what, First.findNamed n (pre ++ d :: post) = Throw (TypeError what).
Proof.
  intros Hd. induction pre as [|p pre IH]; intros Hpre; simpl.
  - rewrite Hd. eauto.
  - destruct (Hpre p (or_introl eq_refl)) as (m & -> & Hm).
    destruct (String.eqb m n) eqn:E.
    + apply String.eqb_eq in E. congruence.
    + apply IH. intros d' Hd'. apply Hpre. now right.
Qed.

(** The first copy looks for a declaration named [Query] by reading the
    name of each declaration in turn.  When the schema it extends has no
    [Query] type and a declaration without a name (a [schema] block)
    comes before any declaration named [Query], [extendFederationSchema]
    raises a [TypeError]; nothing is validated. *)
Theorem First_nameless_declaration_before_Query
    (specifiedSDLRules compositionRules : Rules)
    (originalSchema : GraphQLSchema) (pre post : Document)
    (d : DefinitionNode) (isGateway : bool) :
  getType originalSchema "Query" = None ->
  def_name d = None ->
  (forall d', In d' pre -> exists m, def_name d' = Some m /\ m <> "Query") ->
  exists what,
    extendFederationSchemaOf FirstCopy specifiedSDLRules compositionRules
      originalSchema (pre ++ d :: post) isGateway
    = Throw (TypeError what).
Proof.
  intros Hq Hd Hpre. cbn [extendFederationSchemaOf].
  unfold First.extendFederationSchema, First.schemaToValidate.
  rewrite Hq. cbn [isSome].
  destruct (findNamed_nameless "Query" pre d post Hd Hpre) as (what & ->).
  cbn [rbind]. eauto.
Qed.

(** The theorem at [type User ...] followed by [schema { query: Query }]
    and [type Query { me: User }], on the gateway base schema. *)
Lemma First_nameless_declaration_witness :
  exists what,
    extendFederationSchemaOf FirstCopy noErrors noErrors gatewayBaseSchema
      ([userDefinition] ++ schemaBlock :: [meQueryDefinition]) true
    = Throw (TypeError what).
Proof.
  apply (First_nameless_declaration_before_Query noErrors noErrors
           gatewayBaseSchema [userDefinition] [meQueryDefinition] schemaBlock
           true).
  - reflexivity.
  - reflexivity.
  - intros d' [<-|[]]. exists "User". split; [reflexivity|discriminate].
Defined.

(* ================================================================== *)
(** ** Where resolvers are installed                                   *)
(* ================================================================== *)

Lemma In_jsAssign {A} (target source : JsMap A) kv :
  In kv (jsAssign target source) -> In kv target \/ In kv source.
Proof.
  unfold jsAssign. revert target.
  induction source as [|[k v] source IH]; simpl; intros target; auto.
  intros H. apply IH in H as [H|H]; auto.
  apply In_jsSet in H as [->|H]; auto.
Qed.

Lemma In_nodeFieldEntries nodes k f :
  In (k, f) (nodeFieldEntries nodes) -> gf_resolve f = None.
Proof.
  unfold nodeFieldEntries. intros H.
  apply in_flat_map in H as (node & _ & H).
  apply in_map_iff in H as (fd & [= _ <-] & _). reflexivity.
Qed.

Lemma In_fold_addTypeDefinition doc defs m n t :
  In (n, t) (fold_left (addTypeDefinition doc) defs m) ->
  In (n, t) m
  \/ exists d c, t = buildType d c (typeExtensionsOf doc n).
Proof.
  revert m. induction defs as [|d defs IH]; simpl; intros m; auto.
  intros H. apply IH in H as [H|H]; auto.
  unfold addTypeDefinition in H.
  destruct (def_name d) as [k|]; auto.
  destruct (def_kind d) as [kd|]; auto.
  destruct (classOfKind kd) as [c|]; auto.
  apply In_jsSet in H as [[= -> ->]|H]; eauto.
Qed.

(** A field of an extended schema is a field the schema had, under the
    same names, or a field built from a syntax node, without [resolve]. *)
Lemma extendSchemaImpl_field s doc n t k f :
  In (n, t) (s_types (extendSchemaImpl s doc)) -> In (k, f) (t_fields t) ->
  gf_resolve f = None
  \/ exists t0, In (n, t0) (s_types s) /\ In (k, f) (t_fields t0).
Proof.
  unfold extendSchemaImpl. destruct (nothingToExtend doc); [eauto|].
  cbn [s_types]. intros Ht Hf.
  apply In_fold_addTypeDefinition in Ht as [Ht|(d & c & ->)].
  - apply in_map_iff in Ht as ([n0 t0] & [= -> <-] & Hin).
    cbn [fst snd] in *. rewrite extendNamedType_fields in Hf.
    destruct (hasFieldMap (t_class t0)); [|eauto].
    apply In_jsAssign in Hf as [Hf|Hf]; [eauto|].
    left. eapply In_nodeFieldEntries; eauto.
  - left. unfold buildType in Hf. cbn [t_fields] in Hf.
    destruct (hasFieldMap c); [|destruct Hf].
    unfold buildFieldMap in Hf.
    apply In_jsAssign in Hf as [[]|Hf]. eapply In_nodeFieldEntries; eauto.
Qed.

Lemma resolversOnlyAt_extendSchemaImpl allowed s doc :
  resolversOnlyAt allowed s -> resolversOnlyAt allowed (extendSchemaImpl s doc).
Proof.
  intros H n t k f Ht Hf Hr.
  destruct (extendSchemaImpl_field _ _ _ _ _ _ Ht Hf) as [Hnone|(t0 & Ht0 & Hf0)];
    [congruence|eauto].
Qed.

Lemma resolversOnlyAt_extendSchema allowed rules b s doc s' :
  extendSchema rules b s doc = Ok s' ->
  resolversOnlyAt allowed s -> resolversOnlyAt allowed s'.
Proof.
  intros H. apply extendSchema_Ok in H. subst.
  apply resolversOnlyAt_extendSchemaImpl.
Qed.

Lemma resolversOnlyAt_schemaWithQuery allowed s n s' :
  schemaWithQuery s n emptyObjectType = Ok s' ->
  resolversOnlyAt allowed s -> resolversOnlyAt allowed s'.
Proof.
  unfold schemaWithQuery. destruct (jsHas n (s_types s)); [discriminate|].
  intros [= <-] H n' t k f Ht Hf. cbn [s_types] in Ht.
  apply in_app_or in Ht as [Ht|[[= <- <-]|[]]]; [eauto|destruct Hf].
Qed.

Lemma resolversOnlyAt_synthesis allowed s s' :
  (if isSome (getType s "Query") then Ok s
   else schemaWithQuery s "Query" emptyObjectType) = Ok s' ->
  resolversOnlyAt allowed s -> resolversOnlyAt allowed s'.
Proof.
  destruct (isSome (getType s "Query")).
  - now intros [= <-].
  - apply resolversOnlyAt_schemaWithQuery.
Qed.

Lemma resolversOnlyAt_weaken (allowed allowed' : string -> string -> bool) s :
  (forall n k, allowed n k = true -> allowed' n k = true) ->
  resolversOnlyAt allowed s -> resolversOnlyAt allowed' s.
Proof. intros Hw H n t k f Ht Hf Hr. eauto. Qed.

(** An in place update of the fields of one type. *)
Lemma resolversOnlyAt_updateFields allowed name g s :
  (forall fs k f, In (k, f) (g fs) -> gf_resolve f <> None ->
                  allowed name k = true
                  \/ (In (k, f) fs /\ gf_resolve f <> None)) ->
  resolversOnlyAt allowed s -> resolversOnlyAt allowed (updateFields name g s).
Proof.
  intros Hg H n t k f Ht Hf Hr. unfold updateFields in Ht.
  destruct (jsGet name (s_types s)) as [t0|] eqn:E; [|eauto].
  cbn [s_types withTypes] in Ht.
  apply In_jsSet in Ht as [[= -> ->]|Ht]; [|eauto].
  cbn [t_fields withTypeFields] in Hf.
  destruct (Hg _ _ _ Hf Hr) as [Ha|[Hold Hr']]; auto.
  apply jsGet_In in E. eauto.
Qed.

Lemma setResolve_fields name r fs k f :
  In (k, f) (setResolve name r fs) -> k = name \/ In (k, f) fs.
Proof.
  unfold setResolve. intros H. apply In_jsSet in H as [[= -> _]|H]; auto.
Qed.

Lemma In_jsDelete {A} (k : string) (m : JsMap A) kv :
  In kv (jsDelete k m) -> In kv m.
Proof.
  induction m as [|[k0 v0] m IH]; simpl; auto.
  destruct (String.eqb k k0); simpl; auto. intros [H|H]; auto.
Qed.

Lemma resolversOnlyAt_setResolve isGateway name r s :
  isGateway = false -> inb name ["_service"; "_entities"] = true ->
  resolversOnlyAt (federationResolvers isGateway) s ->
  resolversOnlyAt (federationResolvers isGateway)
    (updateFields "Query" (setResolve name r) s).
Proof.
  intros -> Hname. apply resolversOnlyAt_updateFields.
  intros fs k f Hin Hr. apply setResolve_fields in Hin as [->|Hin]; auto.
Qed.

Lemma First_addEntitiesResolver_resolvers rules s s' :
  First.addEntitiesResolver rules s = Ok s' ->
  resolversOnlyAt (federationResolvers false) s ->
  resolversOnlyAt (federationResolvers false) s'.
Proof.
  unfold First.addEntitiesResolver. intros H Hs.
  destruct (getFieldsOf s "Query") as [fs|e]; simpl in H; [|discriminate].
  destruct (entityTypesOf s) as [|et ets]; [now injection H as <-|].
  destruct (jsHas "_entities" fs); simpl in H.
  - injection H as <-. now apply resolversOnlyAt_setResolve.
  - extendSchema_in H.
    destruct (getFieldsOf (extendSchemaImpl s (entitiesDocument (et :: ets)))
                "Query") as [fs'|e]; simpl in H; [|discriminate].
    injection H as <-. apply resolversOnlyAt_setResolve; auto.
    now apply resolversOnlyAt_extendSchemaImpl.
Qed.

Lemma First_addServiceResolver_resolvers rules s s' sdl :
  First.addServiceResolver rules s = Ok (s', sdl) ->
  resolversOnlyAt (federationResolvers false) s ->
  resolversOnlyAt (federationResolvers false) s'.
Proof.
  unfold First.addServiceResolver. intros H Hs.
  destruct (getFieldsOf s "Query") as [fs|e]; simpl in H; [|discriminate].
  destruct (jsHas "_service" fs); simpl in H.
  - destruct (printSchema s) as [p|e]; simpl in H; [|discriminate].
    injection H as <- _. now apply resolversOnlyAt_setResolve.
  - extendSchema_in H.
    destruct (getFieldsOf (extendSchemaImpl s [serviceFieldExtension]) "Query")
      as [fs'|e]; simpl in H; [|discriminate].
    destruct (printSchema (extendSchemaImpl s [serviceFieldExtension]))
      as [p|e]; simpl in H; [|discriminate].
    injection H as <- _. apply resolversOnlyAt_setResolve; auto.
    now apply resolversOnlyAt_extendSchemaImpl.
Qed.

Lemma Second_addServiceAndEntities_resolvers rules s s' :
  Second.addServiceAndEntities rules s = Ok s' ->
  resolversOnlyAt (federationResolvers false) s ->
  resolversOnlyAt (federationResolvers false) s'.
Proof.
  unfold Second.addServiceAndEntities. intros H Hs.
  destruct (if isSome (getType s "Query") then _ else _) as [s1|e] eqn:E1;
    cbn [rbind] in H; [|discriminate].
  apply (resolversOnlyAt_synthesis _ _ _ E1) in Hs.
  destruct (Second.getServiceSDL s1) as [[sdl s2]|e] eqn:E2;
    cbn [rbind fst snd] in H; [|discriminate].
  apply Second_getServiceSDL_schema in E2 as (query & _ & _ & ->).
  destruct (Second.addServiceResolver _ sdl) as [s3|e] eqn:E3;
    cbn [rbind] in H; [|discriminate].
  unfold Second.addServiceResolver in E3.
  destruct (getFieldsOf _ "Query"); cbn [rbind] in E3; [|discriminate].
  injection E3 as <-.
  assert (H3 : resolversOnlyAt (federationResolvers false)
                 (updateFields "Query"
                    (setResolve "_service" (ServiceResolve sdl))
                    (updateFields "Query"
                       (fun fs => jsDelete "_entities" (jsDelete "_service" fs))
                       s1))).
  { apply resolversOnlyAt_setResolve; auto.
    apply resolversOnlyAt_updateFields; auto.
    intros fs k f Hin Hr. right. split; auto.
    now apply In_jsDelete, In_jsDelete in Hin. }
  unfold Second.addEntitiesResolver in H.
  destruct (entityTypesOf _) as [|et ets]; [now injection H as <-|].
  extendSchema_in H.
  destruct (getFieldsOf _ "Query") as [fs|e]; cbn [rbind] in H; [|discriminate].
  injection H as <-. apply resolversOnlyAt_setResolve; auto.
  now apply resolversOnlyAt_extendSchemaImpl.
Qed.

(** Where [extendFederationSchema] installs resolvers.  Composed onto a
    schema without resolvers, the schema returned has none in gateway
    mode; in service mode the only fields with a [resolve] function are
    [_service] and [_entities] of [Query]. *)
Theorem resolvers_are_installed_in_service_mode_only
    (c : Copy) (specifiedSDLRules compositionRules : Rules)
    (originalSchema : GraphQLSchema) (document : Document) (isGateway : bool)
    (s : GraphQLSchema) :
  extendFederationSchemaOf c specifiedSDLRules compositionRules
    originalSchema document isGateway = Ok s ->
  resolversOnlyAt nowhere originalSchema ->
  resolversOnlyAt (federationResolvers isGateway) s.
Proof.
  intros H Horig.
  assert (H0 : resolversOnlyAt (federationResolvers isGateway) originalSchema).
  { eapply resolversOnlyAt_weaken; [|exact Horig]. discriminate. }
  clear Horig. destruct c; cbn [extendFederationSchemaOf] in H.
  - unfold First.extendFederationSchema in H.
    destruct (First.schemaToValidate originalSchema document) as [s0|e] eqn:E0;
      cbn [rbind] in H; [|discriminate].
    destruct (raiseCompositionErrors _); cbn [rbind] in H; [|discriminate].
    assert (H1 : resolversOnlyAt (federationResolvers isGateway) s0).
    { unfold First.schemaToValidate in E0.
      destruct (isSome (getType originalSchema "Query"));
        [now injection E0 as <-|].
      destruct (First.findNamed "Query" document) as [[]|e];
        cbn [rbind] in E0; [|now injection E0 as <-|discriminate].
      eapply resolversOnlyAt_schemaWithQuery; eauto. }
    unfold First.mergeValidated in H. extendSchema_in H.
    destruct (if isSome (getType (extendSchemaImpl s0 document) "Query")
              then _ else _) as [s2|e] eqn:E2; cbn [rbind] in H;
      [|discriminate].
    assert (H2 : resolversOnlyAt (federationResolvers isGateway) s2).
    { eapply resolversOnlyAt_synthesis; [exact E2|].
      now apply resolversOnlyAt_extendSchemaImpl. }
    destruct isGateway; cbn [rbind] in H.
    + injection H as <-. exact H2.
    + destruct (First.addEntitiesResolver specifiedSDLRules s2) as [s3|e] eqn:E3;
        cbn [rbind] in H; [|discriminate].
      destruct (First.addServiceResolver specifiedSDLRules s3)
        as [[s4 sdl]|e] eqn:E4; cbn [rbind] in H; [|discriminate].
      injection H as <-. cbn [fst].
      apply (First_addServiceResolver_resolvers _ _ _ _ E4).
      now apply (First_addEntitiesResolver_resolvers _ _ _ E3).
  - unfold Second.extendFederationSchema in H.
    destruct (Second.getStubTypes document isGateway) as [parts|e];
      cbn [rbind] in H; [|discriminate].
    destruct (Second.schemaToValidate specifiedSDLRules originalSchema parts)
      as [s2|e] eqn:E2; cbn [rbind] in H; [|discriminate].
    destruct (raiseCompositionErrors _); cbn [rbind] in H; [|discriminate].
    unfold Second.schemaToValidate in E2.
    destruct (extendSchema specifiedSDLRules false originalSchema _)
      as [s1|e] eqn:E1; cbn [rbind] in E2; [|discriminate].
    apply (resolversOnlyAt_extendSchema _ _ _ _ _ _ E1) in H0.
    apply (resolversOnlyAt_extendSchema _ _ _ _ _ _ E2) in H0.
    unfold Second.mergeValidated in H. extendSchema_in H.
    apply (resolversOnlyAt_extendSchemaImpl _ _ (extensions parts)) in H0.
    destruct isGateway.
    + now injection H as <-.
    + now apply (Second_addServiceAndEntities_resolvers _ _ _ H).
Qed.

(** The theorem at [type Profile { id: ID }] composed in service mode. *)
Lemma resolvers_in_service_mode_witness :
  resolversOnlyAt nowhere serviceBaseSchema
  /\ resolversOnlyAt (federationResolvers false) secondServiceProfileSchema.
Proof.
  assert (H : resolversOnlyAt nowhere serviceBaseSchema).
  { intros n t k f Hn Hk Hr. exfalso. apply Hr. vm_compute in Hn.
    repeat (destruct Hn as [Hn|Hn];
            [injection Hn as <- <-; vm_compute in Hk;
             repeat (destruct Hk as [Hk|Hk];
                     [injection Hk as <- <-; reflexivity|]);
             destruct Hk|]).
    destruct Hn. }
  split; [exact H|].
  apply (resolvers_are_installed_in_service_mode_only SecondCopy noErrors
           noErrors serviceBaseSchema [profileDefinition] false
           secondServiceProfileSchema eq_refl H).
Defined.

(* ================================================================== *)
(** ** The partitioner in its two modes                                *)
(* ================================================================== *)

Lemma Second_partitionStep_modes st1 st2 d st2' :
  modesAgree st1 st2 ->
  Second.partitionStep true st2 d = Ok st2' ->
  exists st1', Second.partitionStep false st1 d = Ok st1'
               /\ modesAgree st1' st2'.
Proof.
  intros (Hd & He & Hdir & Hext).
  unfold Second.partitionStep, nameOfDefinition, classify.
  destruct (def_name d) as [n|]; cbn [rbind]; [|discriminate].
  destruct (isTypeDefinitionNode d && negb (hasExtendsDirective d)).
  { intros [= <-]. eexists. split; [reflexivity|].
    unfold modesAgree. cbn. now rewrite Hd. }
  destruct (isTypeExtensionNode d
            || isTypeDefinitionNode d && hasExtendsDirective d).
  { destruct (removeExternalFields _) as [pushed|e] eqn:Er; cbn [rbind];
      [|discriminate].
    intros [= <-]. eexists. split; [reflexivity|].
    unfold modesAgree. cbn. rewrite He. repeat split; auto.
    apply Forall2_app; auto. }
  destruct (kindIs DIRECTIVE_DEFINITION d); intros [= <-];
    eexists; (split; [reflexivity|]); unfold modesAgree; cbn;
    rewrite ?Hdir; auto.
Qed.

Lemma Second_partitionLoop_modes defs st1 st2 st2' :
  modesAgree st1 st2 ->
  Second.partitionLoop true defs st2 = Ok st2' ->
  exists st1', Second.partitionLoop false defs st1 = Ok st1'
               /\ modesAgree st1' st2'.
Proof.
  revert st1 st2. induction defs as [|d defs IH]; simpl; intros st1 st2 Hrel.
  - intros [= <-]. eauto.
  - destruct (Second.partitionStep true st2 d) as [st2a|e] eqn:E; cbn [rbind];
      [|discriminate].
    destruct (Second_partitionStep_modes _ _ _ _ Hrel E) as (st1a & -> & Hrel').
    cbn [rbind]. now apply IH.
Qed.

(** The mode changes the fields of the extensions and nothing else: when
    the second copy's partitioner returns in gateway mode, it returns in
    service mode too, with the same stubs and the same definitions, and
    each gateway extension is the service extension passed through
    [removeExternalFields]. *)
Theorem Second_getStubTypes_mode_changes_extension_fields_only
    (schemaDefinitions : Document) (gateway : StubTypes) :
  Second.getStubTypes schemaDefinitions true = Ok gateway ->
  exists service,
    Second.getStubTypes schemaDefinitions false = Ok service
    /\ typeStubs service = typeStubs gateway
    /\ definitions service = definitions gateway
    /\ Forall2 (fun e g => removeExternalFields e = Ok g)
               (extensions service) (extensions gateway).
Proof.
  unfold Second.getStubTypes.
  destruct (Second.partitionLoop true schemaDefinitions emptyPartition)
    as [st2|e] eqn:E; cbn [rbind]; [|discriminate].
  intros [= <-].
  assert (H0 : modesAgree emptyPartition emptyPartition).
  { unfold modesAgree. cbn. repeat split; auto. }
  destruct (Second_partitionLoop_modes _ _ _ _ H0 E)
    as (st1 & -> & Hd & He & Hdir & Hext).
  cbn [rbind]. eexists. split; [reflexivity|].
  unfold stubTypesOf, Second.keepStub. cbn. rewrite Hd, He, Hdir.
  repeat split; auto.
Qed.

(** The theorem at the document whose types appear only as extensions. *)
Lemma Second_getStubTypes_modes_witness :
  exists service,
    Second.getStubTypes extensionOnlyDocument false = Ok service
    /\ typeStubs service = typeStubs extensionOnlyParts
    /\ definitions service = definitions extensionOnlyParts
    /\ Forall2 (fun e g => removeExternalFields e = Ok g)
               (extensions service) (extensions extensionOnlyParts).
Proof.
  apply (Second_getStubTypes_mode_changes_extension_fields_only
           extensionOnlyDocument extensionOnlyParts).
  reflexivity.
Defined.

(* ================================================================== *)
(** ** Tagging an object twice                                         *)
(* ================================================================== *)

(** An object tagged once carries a [__typename] that can no longer be
    changed.  Tagging it again with the same type name changes nothing;
    tagging it with another type name (the same object returned for
    representations of two types) raises a [TypeError]. *)
Theorem addTypeNameToResult_twice
    (l : nat) (o : JsObject) (typename other : JsValue) (h : Heap) :
  h !! l = Some o ->
  o_call o = None ->
  o_extensible o = true ->
  jsGet "__typename" (o_props o) = None ->
  exists h1,
    addTypeNameToResult (VRef l) typename h = (Ok (VRef l), h1)
    /\ addTypeNameToResult (VRef l) typename h1 = (Ok (VRef l), h1)
    /\ (JsValue_eqb typename other = false ->
        exists what,
          addTypeNameToResult (VRef l) other h1 = (Throw (TypeError what), h1)).
Proof.
  intros Ho Hcall Hext Hnone.
  set (o1 := withProps (o_props o
                        ++ [("__typename", mkProperty typename false false false)])
               o).
  assert (Hl : l < length h) by now apply lookup_lt_Some in Ho.
  assert (Ho1 : (<[l := o1]> h) !! l = Some o1)
    by now apply list_lookup_insert_eq.
  assert (Hp1 : jsGet "__typename" (o_props o1)
                = Some (mkProperty typename false false false)).
  { unfold o1. cbn [o_props withProps]. rewrite jsGet_app, Hnone. reflexivity. }
  assert (Hc1 : o_call o1 = None) by exact Hcall.
  exists (<[l := o1]> h). split; [|split].
  - rewrite (addTypeNameToResult_object l o typename h Ho), Hcall.
    cbn [isSome]. unfold defineValueProperty. now rewrite Hnone, Hext.
  - rewrite (addTypeNameToResult_object l o1 typename _ Ho1), Hc1.
    cbn [isSome]. unfold defineValueProperty. rewrite Hp1.
    cbn [p_configurable p_writable p_value orb].
    rewrite JsValue_eqb_refl. f_equal. apply list_insert_id. exact Ho1.
  - intros Hne.
    rewrite (addTypeNameToResult_object l o1 other _ Ho1), Hc1.
    cbn [isSome]. unfold defineValueProperty. rewrite Hp1.
    cbn [p_configurable p_writable p_value orb]. rewrite Hne. eauto.
Qed.

(** The theorem at an object tagged [User], then [Post]. *)
Lemma addTypeNameToResult_twice_witness :
  exists h1,
    addTypeNameToResult (VRef 0) (VString "User") heapAda = (Ok (VRef 0), h1)
    /\ addTypeNameToResult (VRef 0) (VString "User") h1 = (Ok (VRef 0), h1)
    /\ (JsValue_eqb (VString "User") (VString "Post") = false ->
        exists what,
          addTypeNameToResult (VRef 0) (VString "Post") h1
          = (Throw (TypeError what), h1)).
Proof.
  apply (addTypeNameToResult_twice 0 (plainObject [("name", VString "Ada")])
           (VString "User") (VString "Post") heapAda);
    reflexivity.
Defined.

(* ================================================================== *)
(** ** The [_service] field in the first copy                          *)
(* ================================================================== *)

(** In the first copy the [_service] entry of [Query] keeps what it was
    declared with: [addServiceResolver] adds the field as
    [_service: _Service!] when [Query] has none, and in either case
    spreads the entry into the one that carries the resolver; the other
    fields of [Query] are as they were. *)
Theorem First_service_field_keeps_its_type
    (specifiedSDLRules : Rules) (schema s' : GraphQLSchema) (sdl : SDL)
    (query : GraphQLNamedType) :
  First.addServiceResolver specifiedSDLRules schema = Ok (s', sdl) ->
  getType schema "Query" = Some query ->
  exists query',
    getType s' "Query" = Some query'
    /\ jsGet "_service" (t_fields query')
       = Some (match jsGet "_service" (t_fields query) with
               | Some f => mkField (gf_type f) (gf_args f)
                             (Some (ServiceResolve sdl))
               | None => mkField (Some (NonNullType (NamedType "_Service")))
                           (Some []) (Some (ServiceResolve sdl))
               end)
    /\ forall k, k <> "_service" ->
                 jsGet k (t_fields query') = jsGet k (t_fields query).
Proof.
  unfold First.addServiceResolver. intros H Hq.
  unfold getFieldsOf at 1 in H. rewrite Hq in H. unfold getFields in H.
  destruct (hasFieldMap (t_class query)) eqn:Hclass; cbn [rbind] in H;
    [|discriminate].
  unfold jsHas in H.
  destruct (jsGet "_service" (t_fields query)) as [f|] eqn:Ef;
    cbn [rbind] in H.
  - destruct (printSchema schema) as [p|e]; cbn [rbind] in H; [|discriminate].
    injection H as <- <-.
    eexists. split; [apply (getType_updateFields_eq _ _ _ _ Hq)|].
    cbn [t_fields withTypeFields]. split.
    + unfold setResolve. now rewrite jsGet_jsSet_eq, Ef.
    + intros k Hk. now apply jsGet_setResolve_ne.
  - extendSchema_in H.
    set (extended := extendSchemaImpl schema [serviceFieldExtension]) in *.
    assert (Hq1 : getType extended "Query"
                  = Some (extendNamedType
                            (typeExtensionsOf [serviceFieldExtension] "Query")
                            query)).
    { unfold extended. rewrite getType_extendSchemaImpl_other by reflexivity.
      cbn [nothingToExtend]. rewrite Hq. reflexivity. }
    destruct (getFieldsOf extended "Query") as [fs'|e]; cbn [rbind] in H;
      [|discriminate].
    destruct (printSchema extended) as [p|e]; cbn [rbind] in H; [|discriminate].
    injection H as <- <-.
    eexists. split; [apply (getType_updateFields_eq _ _ _ _ Hq1)|].
    cbn [t_fields withTypeFields].
    assert (Hf1 : t_fields (extendNamedType
                              (typeExtensionsOf [serviceFieldExtension] "Query")
                              query)
                  = jsSet "_service"
                      (mkField (Some (NonNullType (NamedType "_Service")))
                         (Some []) None)
                      (t_fields query)).
    { rewrite extendNamedType_fields, Hclass. reflexivity. }
    rewrite Hf1. split.
    + unfold setResolve. now rewrite jsGet_jsSet_eq, jsGet_jsSet_eq.
    + intros k Hk. rewrite jsGet_setResolve_ne by exact Hk.
      apply jsGet_jsSet_ne. congruence.
Qed.

(** The theorem at a schema whose [Query] was declared with
    [_service: _Service!]. *)
Lemma First_service_field_witness :
  exists query',
    getType (fst firstServiceResolved) "Query" = Some query'
    /\ jsGet "_service" (t_fields query')
       = Some (match jsGet "_service" (t_fields serviceBaseQuery) with
               | Some f => mkField (gf_type f) (gf_args f)
                             (Some (ServiceResolve (snd firstServiceResolved)))
               | None => mkField (Some (NonNullType (NamedType "_Service")))
                           (Some [])
                           (Some (ServiceResolve (snd firstServiceResolved)))
               end)
    /\ forall k, k <> "_service" ->
                 jsGet k (t_fields query')
                 = jsGet k (t_fields serviceBaseQuery).
Proof.
  apply (First_service_field_keeps_its_type noErrors serviceBaseSchema
           (fst firstServiceResolved) (snd firstServiceResolved)
           serviceBaseQuery);
    reflexivity.
Defined.

(* ================================================================== *)
(** ** The first copy's partitioner in gateway mode                    *)
(* ================================================================== *)

Lemma First_partitionStep_gateway st d st' :
  First.partitionStep true st d = Ok st' ->
  exists es,
    extensionsList st' = extensionsList st ++ es
    /\ Forall2 gatewayCollected (if firstGatewayCollects d then [d] else []) es.
Proof.
  unfold First.partitionStep, nameOfDefinition, First.forceRootExtension,
    firstGatewayCollects.
  destruct (def_name d) as [n|] eqn:En; cbn [rbind]; [|discriminate].
  cbn [andb].
  assert (Hdone : forall l : list DefinitionNode,
            exists es : list DefinitionNode,
              l = l ++ es /\ Forall2 gatewayCollected [] es).
  { intros l. exists []. rewrite app_nil_r. split; auto. }
  destruct (inb n rootTypeNames) eqn:Eroot; cbn [fst snd].
  - (* named after a root: the kind is rewritten first *)
    unfold classify, isTypeDefinitionNode, isTypeExtensionNode, kindIs,
      hasExtendsDirective, removeExternalFields, gatewayCollected,
      withoutExternal.
    destruct d as [k nm ds fs ts args]. cbn in En. subst nm.
    destruct k as [[]|]; destruct ds as [ds|]; cbn;
      try destruct (hasDirectiveNamed "extends" ds); cbn;
      try (intros [= <-]; cbn; exists []; rewrite app_nil_r; split;
           [reflexivity|constructor]);
      destruct fs as [fs|]; cbn; try discriminate;
      intros [= <-]; cbn; eexists; (split; [reflexivity|]);
      constructor; auto; cbn; repeat split; eauto.
  - (* any other name: as in the second copy *)
    unfold classify, classifiedAsExtension.
    destruct (isTypeDefinitionNode d && negb (hasExtendsDirective d)); cbn.
    { intros [= <-]. cbn. apply Hdone. }
    destruct (isTypeExtensionNode d
              || isTypeDefinitionNode d && hasExtendsDirective d) eqn:Eext; cbn.
    2:{ destruct (kindIs DIRECTIVE_DEFINITION d); intros [= <-]; cbn;
        apply Hdone. }
    unfold removeExternalFields, gatewayCollected, withoutExternal,
      isTypeDefinitionNode, isTypeExtensionNode, hasExtendsDirective in *.
    destruct d as [k nm ds fs ts args]. cbn in *.
    destruct k as [[]|]; destruct ds as [ds|]; cbn in *;
      try destruct (hasDirectiveNamed "extends" ds); cbn in *;
      try discriminate;
      destruct fs as [fs|]; cbn; try discriminate;
      intros [= <-]; cbn; eexists; (split; [reflexivity|]);
      constructor; auto; cbn; repeat split; eauto.
Qed.

Lemma First_partitionLoop_gateway defs st st' :
  First.partitionLoop true defs st = Ok st' ->
  exists es,
    extensionsList st' = extensionsList st ++ es
    /\ Forall2 gatewayCollected (List.filter firstGatewayCollects defs) es.
Proof.
  revert st. induction defs as [|d defs IH]; simpl; intros st.
  - intros [= <-]. exists []. rewrite app_nil_r. split; auto.
  - destruct (First.partitionStep true st d) as [st1|e] eqn:E; cbn [rbind];
      [|discriminate].
    intros Hloop.
    apply First_partitionStep_gateway in E as (es1 & E1 & F1).
    apply IH in Hloop as (es2 & E2 & F2).
    exists (es1 ++ es2). split.
    + rewrite E2, E1. now rewrite app_assoc.
    + destruct (firstGatewayCollects d).
      * change (Forall2 gatewayCollected
                  ([d] ++ List.filter firstGatewayCollects defs) (es1 ++ es2)).
        apply Forall2_app; assumption.
      * inversion F1; subst. exact F2.
Qed.

(** In gateway mode the first copy's partitioner turns every type
    definition named [Query], [Mutation] or [Subscription] into an
    extension, and collects it with the declarations classified as
    extensions, without its [@external] fields.  A declaration of a root
    in extension syntax is not collected at all: the rewrite leaves it
    without a kind, and it reaches neither the extensions nor the
    definitions. *)
Theorem First_getStubTypes_gateway_collects
    (schemaDefinitions : Document) (out : StubTypes) :
  getStubTypesOf FirstCopy schemaDefinitions true = Ok out ->
  Forall2 gatewayCollected
          (List.filter firstGatewayCollects schemaDefinitions)
          (extensions out).
Proof.
  cbn [getStubTypesOf]. unfold First.getStubTypes.
  destruct (First.partitionLoop true schemaDefinitions emptyPartition)
    as [st|e] eqn:E; cbn [rbind]; [|discriminate].
  intros [= <-]. cbn [extensions stubTypesOf].
  apply First_partitionLoop_gateway in E as (es & -> & F). exact F.
Qed.

(** The theorem at [type Query { me: User }] followed by
    [extend type Query { me: User }]: one node is collected, for the
    definition. *)
Lemma First_getStubTypes_gateway_witness :
  Forall2 gatewayCollected
          (List.filter firstGatewayCollects queryTwiceDocument)
          (extensions queryTwiceParts).
Proof.
  apply (First_getStubTypes_gateway_collects queryTwiceDocument
           queryTwiceParts).
  reflexivity.
Defined.

(* ================================================================== *)
(** ** When the partitioner returns                                    *)
(* ================================================================== *)

(** A declaration on which the loop body stops: one without a name, or, in
    gateway mode, one classified as an extension that has no field list. *)
Lemma Second_partitionStep_stops gw st d :
  def_name d = None
  \/ (gw = true /\ classifiedAsExtension d = true /\ def_fields d = None) ->
  exists e, Second.partitionStep gw st d = Throw e /\ isTypeError e = true.
Proof.
  intros Hbad.
  destruct (Second.partitionStep gw st d) as [st1|e] eqn:E.
  - exfalso. destruct Hbad as [Hn|(-> & Hc & Hf)].
    + unfold Second.partitionStep, nameOfDefinition in E. rewrite Hn in E.
      discriminate.
    + apply Second_partitionStep_extensions in E as (es & _ & F).
      rewrite Hc in F. inversion F as [|? e ? ? Hcol]; subst.
      destruct Hcol as (_ & _ & _ & fs & Hfs & _). congruence.
  - exists e. split; [reflexivity|].
    eapply Second_partitionStep_raises; eauto.
Qed.

Lemma Second_partitionLoop_stops gw defs st d :
  In d defs ->
  def_name d = None
  \/ (gw = true /\ classifiedAsExtension d = true /\ def_fields d = None) ->
  exists e, Second.partitionLoop gw defs st = Throw e /\ isTypeError e = true.
Proof.
  revert st. induction defs as [|d0 defs IH]; intros st Hin Hbad.
  - destruct Hin.
  - simpl. destruct (Second.partitionStep gw st d0) as [st1|e] eqn:E; simpl.
    + destruct Hin as [->|Hin]; [|eauto].
      destruct (Second_partitionStep_stops gw st d Hbad) as (e & E' & _).
      congruence.
    + exists e. split; auto. eapply Second_partitionStep_raises; eauto.
Qed.

(** The partitioner of the second copy returns for every document whose
    declarations are all named and, in gateway mode, whose declarations
    classified as extensions all have a field list (object, interface and
    input object extensions).  On every other document it raises a
    [TypeError]: a declaration without a name has its [name.value] read,
    and, in gateway mode, an extension without a field list (a union,
    scalar or enum extension) has its [fields.filter] called. *)
Theorem Second_getStubTypes_returns
    (schemaDefinitions : Document) (isGateway : bool) :
  ((forall d, In d schemaDefinitions -> def_name d <> None) ->
   (isGateway = true ->
    forall d, In d schemaDefinitions -> classifiedAsExtension d = true ->
              def_fields d <> None) ->
   exists out, Second.getStubTypes schemaDefinitions isGateway = Ok out)
  /\ (forall d,
        In d schemaDefinitions ->
        def_name d = None
        \/ (isGateway = true /\ classifiedAsExtension d = true
            /\ def_fields d = None) ->
        exists what,
          Second.getStubTypes schemaDefinitions isGateway
          = Throw (TypeError what)).
Proof.
  split.
  - intros Hnames Hfields. unfold Second.getStubTypes.
    assert (Hloop : forall st,
               exists st', Second.partitionLoop isGateway schemaDefinitions st
                           = Ok st').
    { induction schemaDefinitions as [|d defs IH]; intros st; simpl; [eauto|].
      destruct (Second_partitionStep_returns isGateway st d) as (st1 & ->).
      - apply Hnames. now left.
      - intros Hg. apply (Hfields Hg). now left.
      - simpl. apply IH.
        + intros d' Hd'. apply Hnames. now right.
        + intros Hg d' Hd'. apply (Hfields Hg). now right. }
    destruct (Hloop emptyPartition) as (st & ->). simpl. eauto.
  - intros d Hin Hbad. unfold Second.getStubTypes.
    destruct (Second_partitionLoop_stops isGateway schemaDefinitions
                emptyPartition d Hin Hbad) as (e & -> & He).
    apply isTypeError_inv in He as (what & ->). simpl. eauto.
Qed.

(** The theorem in gateway mode: at a document whose [Query] and [User]
    appear only as object type extensions, which is partitioned, and at
    [extend union SearchResult = User], which is not. *)
Lemma Second_getStubTypes_returns_witness :
  (exists out, Second.getStubTypes extensionOnlyDocument true = Ok out)
  /\ (exists what,
        Second.getStubTypes [searchResultExtension] true
        = Throw (TypeError what)).
Proof.
  split.
  - apply (proj1 (Second_getStubTypes_returns extensionOnlyDocument true)).
    + intros d [<-|[<-|[]]]; discriminate.
    + intros _ d [<-|[<-|[]]] _; discriminate.
  - apply (proj2 (Second_getStubTypes_returns [searchResultExtension] true)
             searchResultExtension).
    + now left.
    + right. repeat split.
Defined.

(* ================================================================== *)
(** ** A type declared by extension only                               *)
(* ================================================================== *)

Lemma classOfKind_kindOfClass c : classOfKind (kindOfClass c) = Some c.
Proof. now destruct c. Qed.

(** The stub of a proper extension has the definition kind of the class
    the extension is about. *)
Lemma stubKind_declaredClass d c :
  properExtension d = true -> declaredClass d = Some c ->
  stubKind d = Some (kindOfClass c).
Proof.
  unfold properExtension, declaredClass, stubKind, isTypeExtensionNode,
    isTypeDefinitionNode.
  destruct (hasExtendsDirective d); destruct (def_kind d) as [[]|];
    simpl; try discriminate; intros _ [= <-]; reflexivity.
Qed.

Lemma jsGet_jsAssign_In {A} k (v : A) (target source : JsMap A) :
  jsGet k (jsAssign target source) = Some v ->
  In (k, v) target \/ In (k, v) source.
Proof. intros H. apply jsGet_In in H. now apply In_jsAssign. Qed.

(** An entry of the field map built from the extensions collected for
    [n] is a field one of the declarations of [n] contributes. *)
Lemma buildFieldMap_from_document doc gw parts n k g :
  Second.getStubTypes doc gw = Ok parts ->
  jsGet k (buildFieldMap (typeExtensionsOf (extensions parts) n)) = Some g ->
  exists f, contributedField gw n doc f /\ fd_name f = k /\ g = fieldOfNode f.
Proof.
  intros Hparts Hget.
  pose proof (Second_getStubTypes_collected doc gw parts Hparts) as HF.
  unfold buildFieldMap in Hget.
  apply jsGet_jsAssign_In in Hget as [[]|Hin].
  unfold nodeFieldEntries in Hin.
  apply in_flat_map in Hin as (e & He & Hin).
  apply in_map_iff in Hin as (f & [= <- <-] & Hf).
  unfold typeExtensionsOf in He. apply filter_In in He as [He Hk].
  apply andb_true_iff in Hk as [_ Hname]. apply nameIs_true in Hname.
  destruct (Forall2_In_right _ _ _ _ HF He) as (d & Hd & Hcol).
  apply filter_In in Hd as [Hd Hc].
  destruct Hcol as (Hn & _ & _ & Hfs).
  exists f. split; [|split; reflexivity].
  exists d. split; [exact Hd|]. split; [congruence|].
  split; [now apply classifiedAsExtension_is_type|].
  unfold fieldsOfNode in *. destruct gw.
  - destruct Hfs as (fs & Hdf & Hef). rewrite Hef in Hf. rewrite Hdf.
    apply withoutExternal_spec in Hf as [Hf Hx]. auto.
  - rewrite <- Hfs. split; [exact Hf|discriminate].
Qed.

(** C7, as stated, fails in gateway mode: for
    [extend type User @key(fields: "id") { id: ID @external }] the composed
    schema contains [User] as an empty type, the field the extension
    contributes having been dropped for its [@external]. *)
Lemma C7_gateway_external_only_type_is_empty :
  extendFederationSchemaOf SecondCopy noErrors noErrors gatewayBaseSchema
    [userExternalOnly] true = Ok gatewayExternalOnlySchema
  /\ (t_fields <$> getType gatewayExternalOnlySchema "User") = Some [].
Proof. split; reflexivity. Qed.

(** C7 (amended): take a name that is declared only by extensions
    (extension syntax, or definition syntax tagged [@extends]), all about
    one class of type (object, interface, ...), that is not a root name,
    not [_Entity], and not a property name inherited from
    [Object.prototype].  The partitioner makes exactly one stub for it, an
    empty definition of that class; and whenever the composition returns,
    the composed schema has under that name a type of that class whose
    fields are those the declarations contribute: in service mode every
    field they declare, in gateway mode every field not marked
    [@external] (so the type is empty when all of them are).  A field
    declared more than once is entered once, as one of its declarations
    has it. *)
Theorem C7_extension_only_type_is_stubbed_and_merged
    (specifiedSDLRules compositionRules : Rules)
    (originalSchema : GraphQLSchema) (document : Document) (isGateway : bool)
    (n : string) (c : TypeClass) (parts : StubTypes) (s : GraphQLSchema) :
  Second.getStubTypes document isGateway = Ok parts ->
  Second.extendFederationSchema specifiedSDLRules compositionRules
    originalSchema document isGateway = Ok s ->
  declaredOnlyByExtension n document ->
  (forall d, In d document -> def_name d = Some n ->
             isTypeDefinitionNode d || isTypeExtensionNode d = true ->
             declaredClass d = Some c) ->
  inb n rootTypeNames = false ->
  inb n objectPrototypeKeys = false ->
  n <> "_Entity" ->
  (forall d, In d document -> def_name d <> Some "__proto__") ->
  List.filter (nameIs n) (typeStubs parts)
  = [kindAndName (Some (kindOfClass c)) n]
  /\ exists t,
       getType s n = Some t
       /\ t_class t = c
       /\ t_fields t
          = (if hasFieldMap c
             then buildFieldMap (typeExtensionsOf (extensions parts) n)
             else [])
       /\ (hasFieldMap c = true ->
           (forall f,
              contributedField isGateway n document f ->
              exists f',
                contributedField isGateway n document f'
                /\ fd_name f' = fd_name f
                /\ jsGet (fd_name f) (t_fields t) = Some (fieldOfNode f'))
           /\ (forall k g,
                 jsGet k (t_fields t) = Some g ->
                 exists f,
                   contributedField isGateway n document f
                   /\ fd_name f = k /\ g = fieldOfNode f)).
Proof.
  intros Hparts Hext Honly Hclass Hroot Hproto Hentity _.
  destruct (Second_getStubTypes_stub document isGateway n Honly Hroot Hproto
              parts Hparts) as (d0 & Hd0 & Hn0 & Hp0 & Hstub).
  assert (Ht0 : isTypeDefinitionNode d0 || isTypeExtensionNode d0 = true).
  { apply classifiedAsExtension_is_type. now apply properExtension_facts. }
  rewrite (stubKind_declaredClass d0 c Hp0 (Hclass d0 Hd0 Hn0 Ht0)) in Hstub.
  split; [exact Hstub|].
  destruct (Second_getStubTypes_definitions document isGateway n Honly
              parts Hparts) as (Hdefext & Hdefdef).
  destruct (Second_getStubTypes_extensions document isGateway n Honly
              parts Hparts) as (Hextdef & Hnothing & Hcollected).
  unfold Second.extendFederationSchema in Hext. rewrite Hparts in Hext.
  cbn [rbind] in Hext.
  destruct (Second.schemaToValidate specifiedSDLRules originalSchema parts)
    as [s2|e] eqn:E2; cbn [rbind] in Hext; [|discriminate].
  destruct (raiseCompositionErrors _); cbn [rbind] in Hext; [|discriminate].
  destruct (Second_merged_type specifiedSDLRules originalSchema parts n
              (kindOfClass c) c s2 (classOfKind_kindOfClass c) Hstub
              Hdefext Hdefdef Hextdef Hnothing E2)
    as (t3 & Ht3 & Hc3 & Hf3).
  assert (Hq : n <> "Query").
  { intros ->. vm_compute in Hroot. discriminate. }
  assert (Hfinal : exists t, getType s n = Some t /\ t_class t = c
                             /\ t_fields t = t_fields t3).
  { unfold Second.mergeValidated in Hext. extendSchema_in Hext.
    destruct isGateway.
    - injection Hext as <-. eauto.
    - destruct (Second_addServiceAndEntities_other _ _ _ n t3 Hext Hq Hentity Ht3)
        as (t & Ht & Hct & Hft).
      exists t. repeat split; congruence. }
  destruct Hfinal as (t & Ht & Hct & Hft).
  exists t. split; [exact Ht|]. split; [exact Hct|].
  split; [congruence|].
  intros Hmap.
  assert (Hfields : t_fields t
                    = buildFieldMap (typeExtensionsOf (extensions parts) n)).
  { rewrite Hft, Hf3, Hmap. reflexivity. }
  assert (Hfrom : forall k g,
             jsGet k (t_fields t) = Some g ->
             exists f, contributedField isGateway n document f
                       /\ fd_name f = k /\ g = fieldOfNode f).
  { intros k g Hget. rewrite Hfields in Hget.
    eapply buildFieldMap_from_document; eauto. }
  split; [|exact Hfrom].
  intros f (d & Hd & Hn & Htype & Hf & Hexternal).
  destruct (Hcollected d Hd Hn Htype) as (e & He & Hcol).
  assert (Hhas : jsHas (fd_name f) (t_fields t) = true).
  { rewrite Hfields. apply buildFieldMap_has with (e := e); auto.
    eapply collectedFrom_fields; eauto. }
  apply jsHas_jsGet in Hhas as (g & Hget).
  destruct (Hfrom _ _ Hget) as (f' & Hf' & Hname & ->).
  exists f'. auto.
Qed.

(** The theorem at the name [User] of [type Query { me: User }] followed by
    [extend type User @key(fields: "id") { id: ID @external  posts: Int }],
    composed in gateway mode onto the gateway base schema: one stub, an
    object type definition, and an object type [User] whose one field is
    [posts: Int]. *)
Lemma C7_extension_only_witness :
  extendFederationSchemaOf SecondCopy noErrors noErrors gatewayBaseSchema
    queryAndUserExtension true = Ok gatewayQueryAndUserSchema
  /\ (t_fields <$> getType gatewayQueryAndUserSchema "User")
     = Some [("posts", fieldOfNode postsField)]
  /\ List.filter (nameIs "User") (typeStubs queryAndUserExtensionParts)
     = [kindAndName (Some OBJECT_TYPE_DEFINITION) "User"]
  /\ exists t,
       getType gatewayQueryAndUserSchema "User" = Some t
       /\ t_class t = ObjectType
       /\ t_fields t
          = buildFieldMap
              (typeExtensionsOf (extensions queryAndUserExtensionParts) "User")
       /\ (forall f,
             contributedField true "User" queryAndUserExtension f ->
             exists f',
               contributedField true "User" queryAndUserExtension f'
               /\ fd_name f' = fd_name f
               /\ jsGet (fd_name f) (t_fields t) = Some (fieldOfNode f'))
       /\ (forall k g,
             jsGet k (t_fields t) = Some g ->
             exists f,
               contributedField true "User" queryAndUserExtension f
               /\ fd_name f = k /\ g = fieldOfNode f).
Proof.
  split; [reflexivity|]. split; [reflexivity|].
  assert (Honly : declaredOnlyByExtension "User" queryAndUserExtension).
  { split.
    - exists userExtension. repeat split. simpl. tauto.
    - intros d [<-|[<-|[]]] Hn _; [discriminate|reflexivity]. }
  assert (Hclass : forall d,
             In d queryAndUserExtension -> def_name d = Some "User" ->
             isTypeDefinitionNode d || isTypeExtensionNode d = true ->
             declaredClass d = Some ObjectType).
  { intros d [<-|[<-|[]]] Hn _; [discriminate|reflexivity]. }
  assert (Hnames : forall d,
             In d queryAndUserExtension -> def_name d <> Some "__proto__").
  { intros d [<-|[<-|[]]]; discriminate. }
  destruct (C7_extension_only_type_is_stubbed_and_merged noErrors noErrors
              gatewayBaseSchema queryAndUserExtension true "User" ObjectType
              queryAndUserExtensionParts gatewayQueryAndUserSchema
              eq_refl eq_refl Honly Hclass eq_refl eq_refl
              ltac:(discriminate) Hnames)
    as (Hstub & t & Ht & Hc & Hf & Hfields).
  split; [exact Hstub|]. exists t.
  split; [exact Ht|]. split; [exact Hc|]. split; [exact Hf|].
  exact (Hfields eq_refl).
Defined.

(* ================================================================== *)
(** ** Service mode of the second copy and entity types                *)
(* ================================================================== *)

Lemma filter_jsSet_snd {A} (p : A -> bool) k v v0 (m : JsMap A) :
  jsGet k m = Some v0 -> p v = p v0 ->
  map fst (List.filter (fun kv => p (snd kv)) (jsSet k v m))
  = map fst (List.filter (fun kv => p (snd kv)) m).
Proof.
  induction m as [|[k' v'] m IH]; simpl; [discriminate|].
  destruct (String.eqb k k') eqn:E.
  - intros [= ->] Hp. simpl. rewrite Hp. now destruct (p v0).
  - intros Hget Hp. simpl. destruct (p v'); simpl; rewrite IH; auto.
Qed.

(** Changing the fields of a type changes no entity type. *)
Lemma entityTypesOf_updateFields k f s :
  entityTypesOf (updateFields k f s) = entityTypesOf s.
Proof.
  unfold entityTypesOf, updateFields.
  destruct (jsGet k (s_types s)) as [t|] eqn:E; [|reflexivity].
  cbn [s_types withTypes].
  exact (filter_jsSet_snd
           (fun t => isObjectType t && typeIncludesDirective t "key")
           k (withTypeFields (f (t_fields t)) t) t (s_types s) E eq_refl).
Qed.

Lemma entityTypesOf_synthesis s s' :
  (if isSome (getType s "Query") then Ok s
   else schemaWithQuery s "Query" emptyObjectType) = Ok s' ->
  entityTypesOf s' = entityTypesOf s
  /\ exists query, getType s' "Query" = Some query
                   /\ (getType s "Query" = None -> t_fields query = [])
                   /\ (forall q, getType s "Query" = Some q -> query = q).
Proof.
  unfold getType. destruct (jsGet "Query" (s_types s)) as [q|] eqn:E; simpl.
  - intros [= <-]. split; [reflexivity|]. exists q. rewrite E.
    split; [reflexivity|]. split; [discriminate|]. now intros q' [= <-].
  - unfold schemaWithQuery, jsHas. rewrite E. intros [= <-]. split.
    + unfold entityTypesOf. cbn [s_types]. rewrite List.filter_app, map_app. cbn.
      apply app_nil_r.
    + exists emptyObjectType. cbn [s_types]. rewrite jsGet_app, E. cbn.
      split; [reflexivity|]. split; [reflexivity|discriminate].
Qed.

Lemma printSchema_TypeError s e :
  printSchema s = Throw e -> isTypeError e = true.
Proof.
  intros H.
  assert (Hr : raisesOnly (fun e => isTypeError e = true) (printSchema s)).
  { unfold printSchema. apply raisesOnly_bind; [|intros; exact I].
    apply mapResult_raises. intros kv. unfold printType.
    apply raisesOnly_bind; [|intros; exact I].
    destruct (hasFieldMap (t_class (snd kv))); [|exact I].
    apply raisesOnly_bind; [|intros; exact I].
    apply mapResult_raises. intros f. unfold printField.
    destruct (gf_args (snd f)); simpl; reflexivity. }
  rewrite H in Hr. exact Hr.
Qed.

Lemma Second_getServiceSDL_TypeError s e :
  Second.getServiceSDL s = Throw e -> isTypeError e = true.
Proof.
  unfold Second.getServiceSDL.
  destruct (jsGet "Query" _) as [query|]; [|now intros [= <-]].
  unfold Second.privateFields.
  destruct (hasFieldMap (t_class query)); cbn [rbind]; [|now intros [= <-]].
  destruct (printSchema _) as [sdl|e'] eqn:E; cbn [rbind]; [discriminate|].
  intros [= <-]. eapply printSchema_TypeError; eauto.
Qed.

(** A schema whose [Query] holds an entry without type and arguments
    cannot have its types rebuilt. *)
Lemma rebuildsTypes_incomplete s query k r :
  getType s "Query" = Some query ->
  hasFieldMap (t_class query) = true ->
  jsGet k (t_fields query) = Some (mkField None None r) ->
  rebuildsTypes s = false.
Proof.
  intros Hq Hc Hk. unfold rebuildsTypes.
  destruct (forallb _ (s_types s)) eqn:E; [|reflexivity]. exfalso.
  rewrite forallb_forall in E.
  specialize (E ("Query", query) (jsGet_In _ _ _ Hq)). cbn [snd] in E.
  unfold rebuildsType in E. rewrite Hc in E. cbn [negb orb] in E.
  rewrite forallb_forall in E.
  specialize (E (k, mkField None None r) (jsGet_In _ _ _ Hk)).
  discriminate.
Qed.

(** In service mode the second copy cannot compose a schema that has an
    entity type (an object type with [@key]): [getServiceSDL] has deleted
    [Query._service] from the schema itself, [addServiceResolver] then
    stores [{ resolve }] under that name, an entry with neither type nor
    arguments, and [addEntitiesResolver], which extends the schema with
    the [_Entity] union, has the engine rebuild every type and raise a
    [TypeError] on that entry.  (When [getServiceSDL] raises, that is a
    [TypeError] as well.) *)
Theorem Second_service_mode_raises_on_an_entity_type
    (specifiedSDLRules : Rules) (extendedSchema : GraphQLSchema) :
  entityTypesOf extendedSchema <> [] ->
  (forall query, getType extendedSchema "Query" = Some query ->
                 uniqueKeys (t_fields query)) ->
  exists what,
    Second.addServiceAndEntities specifiedSDLRules extendedSchema
    = Throw (TypeError what).
Proof.
  intros Hentities Hunique. unfold Second.addServiceAndEntities.
  destruct (if isSome (getType extendedSchema "Query") then _ else _)
    as [s1|e] eqn:E1.
  2:{ exfalso. unfold getType, schemaWithQuery, jsHas in E1.
      destruct (jsGet "Query" (s_types extendedSchema)); discriminate. }
  cbn [rbind].
  apply entityTypesOf_synthesis in E1 as (Hets1 & q1 & Hq1 & Hnew & Hold).
  assert (Huniq1 : uniqueKeys (t_fields q1)).
  { destruct (getType extendedSchema "Query") as [q|] eqn:Eq.
    - rewrite (Hold q eq_refl). now apply Hunique.
    - rewrite (Hnew eq_refl). constructor. }
  destruct (Second.getServiceSDL s1) as [[sdl s2]|e] eqn:E2; cbn [rbind].
  2:{ apply Second_getServiceSDL_TypeError in E2.
      apply isTypeError_inv in E2 as (what & ->). eauto. }
  cbn [fst snd].
  apply Second_getServiceSDL_schema in E2 as (q & Hq & Hclass & ->).
  assert (q = q1) by congruence. subst q.
  set (deleted := jsDelete "_entities" (jsDelete "_service" (t_fields q1))).
  set (s2 := updateFields "Query"
               (fun fs => jsDelete "_entities" (jsDelete "_service" fs)) s1).
  assert (Hq2 : getType s2 "Query" = Some (withTypeFields deleted q1)).
  { exact (getType_updateFields_eq "Query"
             (fun fs => jsDelete "_entities" (jsDelete "_service" fs))
             s1 q1 Hq1). }
  assert (Hnone : jsGet "_service" deleted = None).
  { unfold deleted. rewrite jsGet_jsDelete_ne by discriminate.
    now apply jsGet_jsDelete_eq. }
  unfold Second.addServiceResolver.
  rewrite (getFieldsOf_Ok _ _ _ Hq2 Hclass). cbn [rbind].
  set (s3 := updateFields "Query"
               (setResolve "_service" (ServiceResolve sdl)) s2).
  assert (Hq3 : getType s3 "Query"
                = Some (withTypeFields
                          (setResolve "_service" (ServiceResolve sdl) deleted)
                          (withTypeFields deleted q1))).
  { exact (getType_updateFields_eq _ _ _ _ Hq2). }
  assert (Hrebuild : rebuildsTypes s3 = false).
  { apply (rebuildsTypes_incomplete s3 _ "_service"
             (Some (ServiceResolve sdl)) Hq3 Hclass).
    cbn [t_fields withTypeFields]. unfold setResolve.
    now rewrite jsGet_jsSet_eq, Hnone. }
  assert (Hets3 : entityTypesOf s3 = entityTypesOf extendedSchema).
  { unfold s3, s2. now rewrite !entityTypesOf_updateFields. }
  unfold Second.addEntitiesResolver. rewrite Hets3.
  destruct (entityTypesOf extendedSchema) as [|et ets]; [congruence|].
  unfold extendSchema, extendTypes. rewrite Hrebuild. cbn. eauto.
Qed.

(** The theorem at a schema with [type Query { me: User }] and
    [type User @key(fields: "id") { id: ID }]; and the composition of the
    same two declarations onto the gateway base schema in service mode. *)
Lemma Second_service_mode_entity_witness :
  (exists what,
     Second.addServiceAndEntities noErrors keyedUserSchema
     = Throw (TypeError what))
  /\ (exists what,
        Second.extendFederationSchema noErrors noErrors gatewayBaseSchema
          [meQueryDefinition; userDefinition] false
        = Throw (TypeError what)).
Proof.
  split; [|eexists; reflexivity].
  apply (Second_service_mode_raises_on_an_entity_type noErrors keyedUserSchema).
  - vm_compute. discriminate.
  - intros query [= <-]. vm_compute. repeat constructor; simpl; intuition congruence.
Defined.
